(** * goRecommend / ALS: a shallow embedding of [ALS/ALS.go]

    The program factorises a rating matrix by alternating least squares on
    top of the dense matrices of the package [github.com/skelterjohn/go.matrix].
    The embedding keeps what the Go code has:

    - [float64] values are IEEE 754 binary64 numbers ([spec_float] with
      precision 53 and maximal exponent 1024, round to nearest even), every
      operation rounded on its own;
    - a [[]float64] is a slice into a backing array that lives in a store,
      so that two slices (and two matrices) can share their storage;
    - a [*DenseMatrix] is the package's header (rows, cols, step, elements);
      the header fields are never reassigned by the operations used here;
    - every function that works on matrices is a computation in a
      state-and-panic monad [M]: the state holds the store, the
      pseudo-random source behind [rand.Float64], what was printed, and the
      number of linear solves the package has been asked for; the functions
      that only read slices are functions of the elements. *)

From Stdlib Require Import ZArith List Bool Lia.
From Stdlib Require Import Floats.SpecFloat.
From stdpp Require Import base tactics option list.

Set Default Proof Using "Type".

(** ** Binary64 arithmetic *)

Definition float64 : Type := spec_float.

Module F64.

Definition prec : Z := 53.
Definition emax : Z := 1024.

Definition add : float64 -> float64 -> float64 := SFadd prec emax.
Definition sub : float64 -> float64 -> float64 := SFsub prec emax.
Definition mul : float64 -> float64 -> float64 := SFmul prec emax.
Definition div : float64 -> float64 -> float64 := SFdiv prec emax.
Definition abs : float64 -> float64 := SFabs.

(** Go's [x == y], [x < y] and [x > y] on floats. *)
Definition eqb : float64 -> float64 -> bool := SFeqb.
Definition ltb : float64 -> float64 -> bool := SFltb.
Definition gtb (x y : float64) : bool := SFltb y x.

(** Go's [x <= y]. *)
Definition leb : float64 -> float64 -> bool := SFleb.

(** [math.IsNaN]. *)
Definition IsNaN (x : float64) : bool :=
  match x with S754_nan => true | _ => false end.

(** An integer constant converted to [float64]. *)
Definition of_Z (z : Z) : float64 := binary_normalize prec emax z 0 false.

Definition zero : float64 := S754_zero false.
Definition one : float64 := Eval cbv in of_Z 1.
Definition five : float64 := Eval cbv in of_Z 5.
Definition hundred : float64 := Eval cbv in of_Z 100.

(** The literal [0.1]: the binary64 number nearest to one tenth. *)
Definition tenth : float64 := S754_finite false 7205759403792794 (-56).

Definition infinity : float64 := S754_infinity false.

End F64.

(** ** The store, panics and the monad *)

Definition loc : Type := nat.

(** A slice whose first element is the first element of its backing array
    (no function of the program reslices from a positive offset and keeps
    the result). *)
Record slice : Type := Slice { base : loc; len : nat }.

(** The [error] value of the matrix package that can reach this program. *)
Inductive error : Type :=
| ErrorDimensionMismatch.

(** Run-time panics: they end the program. *)
Inductive gopanic : Type :=
| IndexOutOfRange
| SliceBoundsOutOfRange
| NilDereference.

(** What the program writes to standard output. *)
Inductive event : Type :=
| PrintedError (e : error)
| PrintedPrediction (user item : nat).

Record state : Type := State {
  heap : list (list float64);
  rand : nat -> float64;
  drawn : nat;
  stdout : list event;
  solves : nat
}.

Definition set_heap (h : list (list float64)) (s : state) : state :=
  {| heap := h; rand := rand s; drawn := drawn s; stdout := stdout s;
     solves := solves s |}.

Inductive outcome (A : Type) : Type :=
| Ok (a : A) (s : state)
| Panic (p : gopanic).
Arguments Ok {A} a s.
Arguments Panic {A} p.

Definition M (A : Type) : Type := state -> outcome A.

#[global] Instance M_ret : MRet M := fun A a s => Ok a s.
#[global] Instance M_bind : MBind M := fun A B f m s =>
  match m s with
  | Ok a s' => f a s'
  | Panic p => Panic p
  end.

Definition panic {A : Type} (p : gopanic) : M A := fun _ => Panic p.

(** [for i := lo; i < hi; i++ { a = body i a }]: the loop variable is not
    assigned in any loop body of the program. *)
Fixpoint for_range {A : Type} (i n : nat) (body : nat -> A -> M A) (a : A) : M A :=
  match n with
  | O => mret a
  | S n' => a' ← body i a; for_range (S i) n' body a'
  end.

Definition for_loop {A : Type} (lo hi : nat) (body : nat -> A -> M A) (a : A) : M A :=
  for_range lo (hi - lo) body a.

(** *** Slices *)

(** The elements a slice gives access to. *)
Definition view (sl : slice) (s : state) : option (list float64) :=
  match heap s !! base sl with
  | Some data => if decide (len sl <= length data) then Some (take (len sl) data) else None
  | None => None
  end.

(** Allocation of a fresh backing array with the given contents. *)
Definition alloc (v : list float64) : M slice := fun s =>
  Ok (Slice (length (heap s)) (length v)) (set_heap (heap s ++ [v]) s).

(** [make([]float64, n)]. *)
Definition make (n : nat) : M slice := alloc (replicate n F64.zero).

(** [sl[i]]. *)
Definition slice_get (sl : slice) (i : nat) : M float64 := fun s =>
  match view sl s with
  | Some v => match v !! i with Some x => Ok x s | None => Panic IndexOutOfRange end
  | None => Panic IndexOutOfRange
  end.

(** [sl[i] = x]. *)
Definition slice_set (sl : slice) (i : nat) (x : float64) : M unit := fun s =>
  match heap s !! base sl with
  | Some data =>
      if decide (i < len sl /\ len sl <= length data)
      then Ok tt (set_heap (<[base sl := <[i := x]> data]> (heap s)) s)
      else Panic IndexOutOfRange
  | None => Panic IndexOutOfRange
  end.

(** [sl[0:n]]: legal up to the capacity, here the length of the backing array. *)
Definition reslice (sl : slice) (n : nat) : M slice := fun s =>
  match heap s !! base sl with
  | Some data =>
      if decide (n <= length data) then Ok (Slice (base sl) n) s
      else Panic SliceBoundsOutOfRange
  | None => Panic SliceBoundsOutOfRange
  end.

(** Reading a whole slice, as [append(dst, sl...)] and [range sl] do. *)
Definition slice_read (sl : slice) : M (list float64) := fun s =>
  match view sl s with
  | Some v => Ok v s
  | None => Panic SliceBoundsOutOfRange
  end.

(** [rand.Float64()]: the next number of the pseudo-random source. *)
Definition rand_Float64 : M float64 := fun s =>
  Ok (rand s (drawn s))
     {| heap := heap s; rand := rand s; drawn := S (drawn s);
        stdout := stdout s; solves := solves s |}.

(** [fmt.Printf]: the event is appended to what was printed. *)
Definition print (e : event) : M unit := fun s =>
  Ok tt {| heap := heap s; rand := rand s; drawn := drawn s;
           stdout := stdout s ++ [e]; solves := solves s |}.

(** ** The matrix package

    [ALS.go] dot-imports [github.com/skelterjohn/go.matrix], the "Matrix
    Primitives (external)" of the specification; its sources are not among
    those of the repository. The definitions of this part model the
    package the way [ALS.go] uses it: [Scale], [AddDense], [SubtractDense]
    and [SwapRows] update the receiver in place (they return at most an
    error), [Copy], [Transpose], [TimesDense] and [SolveDense] return a
    fresh matrix. The numerical kernel of the linear solve is a parameter
    of the development (see [Section Program]); [LU.lu_solve] is the
    instance used on concrete inputs. *)

(** Modelled from the spec: the dense matrix type of the matrix package
    (missing from the sources): entry [(i, j)] is element [i*step + j] of
    [elements]. *)
Record DenseMatrix : Type := Dense {
  rows : nat;
  cols : nat;
  step : nat;
  elements : slice
}.

(** Modelled from the spec: the package's [MakeDenseMatrix] (missing from
    the sources): the matrix uses the slice it is given, with
    [step = cols]. *)
Definition MakeDenseMatrix (elements : slice) (rows cols : nat) : DenseMatrix :=
  {| rows := rows; cols := cols; step := cols; elements := elements |}.

(** Modelled from the spec: the package's [Rows] (missing from the sources). *)
Definition Rows (A : DenseMatrix) : nat := rows A.

(** Modelled from the spec: the package's [Cols] (missing from the sources). *)
Definition Cols (A : DenseMatrix) : nat := cols A.

(** *** Row-major values

    What the operations of the package compute, on the row-major list of
    the entries of a matrix. *)

Definition entry (c : nat) (v : list float64) (i j : nat) : float64 :=
  default F64.zero (v !! (i * c + j)).

Definition mbuild {A : Type} (r c : nat) (f : nat -> nat -> A) : list A :=
  i ← seq 0 r; j ← seq 0 c; [f i j].

Definition column (r c : nat) (v : list float64) (j : nat) : list float64 :=
  (fun i => entry c v i j) <$> seq 0 r.

Definition mzeros (r c : nat) : list float64 := replicate (r * c) F64.zero.

Definition meye (k : nat) : list float64 :=
  mbuild k k (fun i j => if decide (i = j) then F64.one else F64.zero).

Definition mtranspose (r c : nat) (v : list float64) : list float64 :=
  mbuild c r (fun j i => entry c v i j).

(** Entry (i, j) of a product: the sum is accumulated from [0] in the order
    of the inner index. *)
Definition dot_row_col (n c' : nat) (a b : list float64) (i j : nat) : float64 :=
  fold_left (fun acc k => F64.add acc (F64.mul (entry n a i k) (entry c' b k j)))
            (seq 0 n) F64.zero.

Definition mtimes (r n c : nat) (a b : list float64) : list float64 :=
  mbuild r c (dot_row_col n c a b).

Definition mscale (f : float64) (v : list float64) : list float64 :=
  (fun x => F64.mul x f) <$> v.

Definition madd (a b : list float64) : list float64 := zip_with F64.add a b.
Definition msub (a b : list float64) : list float64 := zip_with F64.sub a b.

Definition mswap_rows (r c r1 r2 : nat) (v : list float64) : list float64 :=
  mbuild r c (fun i j =>
    entry c v (if decide (i = r1) then r2 else if decide (i = r2) then r1 else i) j).

(** A [k] by [m] matrix with columns [0] and [i] exchanged, the way
    [SwapCols] goes about it. *)
Definition swapped_cols (k m i : nat) (b : list float64) : list float64 :=
  mtranspose m k (mswap_rows m k 0 i (mtranspose k m b)).

(** *** Matrices in the store *)

(** Offsets of the entries in the backing array, row by row. *)
Definition offsets (A : DenseMatrix) : list nat :=
  mbuild (rows A) (cols A) (fun i j => i * step A + j).

(** Reading all entries, row-major; an offset outside the slice is an
    index out of range. *)
Definition load (A : DenseMatrix) : M (list float64) := fun s =>
  match view (elements A) s ≫= (fun v => mapM (fun o => v !! o) (offsets A)) with
  | Some v => Ok v s
  | None => Panic IndexOutOfRange
  end.

Definition write_all (os : list nat) (w : list float64) (data : list float64) :
  list float64 :=
  fold_left (fun d ox => <[ox.1 := ox.2]> d) (zip os w) data.

(** Overwriting all entries, row-major. *)
Definition store (A : DenseMatrix) (w : list float64) : M unit := fun s =>
  match heap s !! base (elements A) with
  | Some data =>
      if decide (len (elements A) <= length data
                 /\ Forall (fun o => o < len (elements A)) (offsets A))
      then Ok tt (set_heap (<[base (elements A) :=
                               write_all (offsets A) w data]> (heap s)) s)
      else Panic IndexOutOfRange
  | None => Panic IndexOutOfRange
  end.

(** A matrix of the package's making: fresh storage, [step = cols]. *)
Definition new_matrix (r c : nat) (v : list float64) : M DenseMatrix :=
  sl ← alloc v; mret (MakeDenseMatrix sl r c).

(** Modelled from the spec: the package's [Zeros] (missing from the
    sources): a fresh matrix of zeros. *)
Definition Zeros (r c : nat) : M DenseMatrix := new_matrix r c (mzeros r c).

(** Modelled from the spec: the package's [Eye] (missing from the
    sources): a fresh identity matrix. *)
Definition Eye (span : nat) : M DenseMatrix := new_matrix span span (meye span).

(** Modelled from the spec: [A.Copy()] (missing from the sources): a fresh
    matrix with the entries of [A]. *)
Definition Copy (A : DenseMatrix) : M DenseMatrix :=
  v ← load A; new_matrix (rows A) (cols A) v.

(** Modelled from the spec: [A.Transpose()] (missing from the sources): a
    fresh matrix, the transpose of [A]. *)
Definition Transpose (A : DenseMatrix) : M DenseMatrix :=
  v ← load A; new_matrix (cols A) (rows A) (mtranspose (rows A) (cols A) v).

(** Modelled from the spec: [A.Array()] (missing from the sources), the
    entries as a flat row-major slice. The package hands out the storage of
    the matrix itself, resliced to [rows*cols] elements, when the header's
    [step] equals its [rows], and a fresh copy otherwise; what is proved
    below about the callers of [Array] is proved for both cases. *)
Definition Array (A : DenseMatrix) : M slice :=
  if decide (step A = rows A) then reslice (elements A) (rows A * cols A)
  else v ← load A; alloc v.

(** Modelled from the spec: [A.rowSlice(row)] (missing from the sources),
    the slice [A.elements[row*step : row*step+cols]]; its only user,
    [argmax], reads it at once, so the elements are returned. *)
Definition rowSlice (A : DenseMatrix) (row : nat) : M (list float64) := fun s =>
  match heap s !! base (elements A) with
  | Some data =>
      if decide (row * step A + cols A <= length data)
      then Ok (take (cols A) (drop (row * step A) data)) s
      else Panic SliceBoundsOutOfRange
  | None => Panic SliceBoundsOutOfRange
  end.

(** Modelled from the spec: [A.Scale(f)] (missing from the sources): every
    entry of [A] is multiplied by [f], in place. *)
Definition Scale (A : DenseMatrix) (f : float64) : M unit :=
  v ← load A; store A (mscale f v).

(** Modelled from the spec: [A.AddDense(B)] (missing from the sources):
    [B] is added to [A] in place; matrices of different shapes are left
    alone and reported by the error returned. *)
Definition AddDense (A B : DenseMatrix) : M (option error) :=
  if decide (rows A = rows B /\ cols A = cols B)
  then a ← load A; b ← load B; store A (madd a b);; mret None
  else mret (Some ErrorDimensionMismatch).

(** Modelled from the spec: [A.SubtractDense(B)] (missing from the
    sources): [B] is subtracted from [A] in place; matrices of different
    shapes are left alone and reported by the error returned. *)
Definition SubtractDense (A B : DenseMatrix) : M (option error) :=
  if decide (rows A = rows B /\ cols A = cols B)
  then a ← load A; b ← load B; store A (msub a b);; mret None
  else mret (Some ErrorDimensionMismatch).

(** Modelled from the spec: [A.TimesDense(B)] (missing from the sources):
    the product, a fresh matrix; each entry is accumulated from zero along
    the inner index. On a dimension mismatch the error comes with the zero
    matrix allocated for the result. *)
Definition TimesDense (A B : DenseMatrix) : M (DenseMatrix * option error) :=
  if decide (cols A = rows B)
  then a ← load A; b ← load B;
       C ← new_matrix (rows A) (cols B) (mtimes (rows A) (cols A) (cols B) a b);
       mret (C, None)
  else C ← Zeros (rows A) (cols B); mret (C, Some ErrorDimensionMismatch).

(** Modelled from the spec: [A.SwapRows(r1, r2)] (missing from the
    sources): rows [r1] and [r2] change places, in place; a row outside the
    matrix is an index out of range. *)
Definition SwapRows (A : DenseMatrix) (r1 r2 : nat) : M unit :=
  if decide (cols A = 0) then mret tt
  else if decide (r1 < rows A /\ r2 < rows A)
       then v ← load A; store A (mswap_rows (rows A) (cols A) r1 r2 v)
       else panic IndexOutOfRange.

(** A method call through a pointer that may be [nil]. *)
Definition deref {A : Type} (p : option A) : M A :=
  match p with
  | Some a => mret a
  | None => panic NilDereference
  end.

(** One more linear solve asked of the package (a ghost counter: the
    program cannot read it). *)
Definition count_solve : M unit := fun s =>
  Ok tt {| heap := heap s; rand := rand s; drawn := drawn s;
           stdout := stdout s; solves := S (solves s) |}.

(** [append(dst, src...)]: the result has its own backing array here (no
    slice grown by [append] in the program is shared before it is final). *)
Definition append (dst src : slice) : M slice :=
  old ← slice_read dst; new ← slice_read src; alloc (old ++ new).

(** ** [ALS.go]

    The functions of the source file, in its order. [int] values that
    count or index are natural numbers; the iteration budget of [ALS] is an
    integer, since the loop also has to cope with a negative one.
    [DotProduct], [NormSquared] and [CosineSim] have no caller in the file;
    they only read their arguments and are embedded further down, as
    functions of the elements ([Module Similarity]). *)

(** [lambda = 0.1] (ALS.go:13): the package-level variable is never
    assigned. *)
Definition lambda : float64 := F64.tenth.

(** [errcheck] (ALS.go:16-20): an error is printed; the caller goes on. *)
Definition errcheck (err : option error) : M unit :=
  match err with
  | Some e => print (PrintedError e)
  | None => mret tt
  end.

(** The test of [MakeWeightMatrix] on an entry (ALS.go:27):
    [values[i] == 0.0 || math.IsNaN(values[i])]. *)
Definition is_missing (x : float64) : bool := F64.eqb x F64.zero || F64.IsNaN x.

(** [MakeWeightMatrix] (ALS.go:23-34). *)
Definition MakeWeightMatrix (mat : DenseMatrix) : M DenseMatrix :=
  values ← Array mat;
  newvalues ← make (len values);
  for_loop 0 (len values) (fun i _ =>
    x ← slice_get values i;
    if is_missing x
    then slice_set newvalues i F64.zero
    else slice_set newvalues i F64.one) tt;;
  mret (MakeDenseMatrix newvalues (Rows mat) (Cols mat)).

(** [MakeXY] (ALS.go:37-51). *)
Definition MakeXY (mat : DenseMatrix) (n_factors : nat) : M (DenseMatrix * DenseMatrix) :=
  let rows := Rows mat in
  let cols := Cols mat in
  X_data ← make (rows * n_factors);
  Y_data ← make (cols * n_factors);
  for_loop 0 (len X_data) (fun i _ =>
    r ← rand_Float64; slice_set X_data i (F64.mul F64.five r)) tt;;
  for_loop 0 (len Y_data) (fun j _ =>
    r ← rand_Float64; slice_set Y_data j (F64.mul F64.five r)) tt;;
  mret (MakeDenseMatrix X_data rows n_factors, MakeDenseMatrix Y_data n_factors cols).

(** [SumMatrix] (ALS.go:84-91); the argument is a pointer that may be
    [nil] (it comes from [SimpleTimes]). *)
Definition SumMatrix (mat : option DenseMatrix) : M float64 :=
  mat ← deref mat;
  values ← Array mat;
  for_loop 0 (len values) (fun i sum =>
    x ← slice_get values i; mret (F64.add sum x)) F64.zero.

(** [SwapCols] (ALS.go:94-100). *)
Definition SwapCols (mat : DenseMatrix) (i j : nat) : M DenseMatrix :=
  p ← Copy mat;
  trans ← Transpose p;
  SwapRows trans i j;;
  toret ← Transpose trans;
  mret toret.

(** [SimpleTimes] (ALS.go:118-128): the products are written into
    [mat.Array()]; [nil] is returned for arrays of different lengths. *)
Definition SimpleTimes (mat weight : option DenseMatrix) : M (option DenseMatrix) :=
  mat ← deref mat;
  a1 ← Array mat;
  weight ← deref weight;
  a2 ← Array weight;
  if decide (len a1 ≠ len a2) then mret None
  else
    weightArray ← Array weight;
    matValues ← Array mat;
    for_loop 0 (len matValues) (fun i _ =>
      w ← slice_get weightArray i;
      x ← slice_get matValues i;
      slice_set matValues i (F64.mul w x)) tt;;
    mret (Some (MakeDenseMatrix matValues (Rows mat) (Cols mat))).

(** [GetError] (ALS.go:131-140). *)
Definition GetError (W Q X Y : DenseMatrix) : M float64 :=
  '(dot, err) ← TimesDense X Y;
  errcheck err;;
  err ← SubtractDense Q dot;
  errcheck err;;
  Prod ← SimpleTimes (Some Q) (Some W);
  tosum ← SimpleTimes Prod Prod;
  sum ← SumMatrix tosum;
  mret sum.

(** [MatrixMinMinus] (ALS.go:177-189): the minimum is sought from [100]
    down. *)
Definition MatrixMinMinus (mat : DenseMatrix) : M DenseMatrix :=
  values ← Array mat;
  min ← for_loop 0 (len values) (fun i min =>
    x ← slice_get values i;
    mret (if F64.ltb x min then x else min)) F64.hundred;
  for_loop 0 (len values) (fun i _ =>
    x ← slice_get values i; slice_set values i (F64.sub x min)) tt;;
  mret (MakeDenseMatrix values (Rows mat) (Cols mat)).

(** [MatrixMax] (ALS.go:192-201): the maximum is sought from [0] up. *)
Definition MatrixMax (mat : DenseMatrix) : M float64 :=
  values ← Array mat;
  for_loop 0 (len values) (fun i max =>
    x ← slice_get values i;
    mret (if F64.gtb x max then x else max)) F64.zero.

(** The body of the loop of [argmax] (ALS.go:208-211) on its state
    [(index, first)], for the index and value [iv] at hand. *)
Definition scan_step (st : nat * float64) (iv : nat * float64) : nat * float64 :=
  if F64.gtb iv.2 st.2 then (iv.1, iv.2) else st.

(** [argmax] (ALS.go:204-214) only reads its argument: it is a function
    of the elements. *)
Definition argmax (args : list float64) : nat :=
  fst (fold_left scan_step (imap pair args) (0, F64.zero)).

(** [Predict] (ALS.go:216-234). The rows handed to [argmax] are those of
    the argument [Q_hat] ([Q_hat.rowSlice(i)]), not of the local [Qhat]. *)
Definition Predict (W Q Q_hat : DenseMatrix) : M (list nat) :=
  Qhat ← Copy Q_hat;
  Qhat ← MatrixMinMinus Qhat;
  maxRating ← MatrixMax Q;
  m ← MatrixMax Qhat;
  let qhatMax := F64.div maxRating m in
  Scale Qhat qhatMax;;
  Scale W maxRating;;
  err ← SubtractDense Qhat W;
  errcheck err;;
  for_loop 0 (Rows Qhat) (fun i max_indices =>
    i_row ← rowSlice Q_hat i;
    let max_indices := <[i := argmax i_row]> max_indices in
    print (PrintedPrediction i (argmax i_row));;
    mret max_indices) (replicate (Rows Qhat) 0).

Section Program.

(** The numerical kernel of the package's solve, a parameter: for a system
    matrix [a] (row-major, [r] rows and [c] columns) and a right-hand side
    vector [b], [solve r c a b j] is entry [j] of the computed solution. *)
Variable solve : nat -> nat -> list float64 -> list float64 -> nat -> float64.

(** Modelled from the spec: [A.SolveDense(b)] (missing from the sources),
    the single right-hand side solve of the package: only the first column
    of [b] is used, the result is a fresh [A.Cols()] by 1 matrix, and the
    only error is a dimension mismatch between [A] and [b]; a singular [A]
    is not detected. *)
Definition SolveDense (A b : DenseMatrix) : M (option DenseMatrix * option error) :=
  count_solve;;
  if decide (rows A ≠ rows b) then mret (None, Some ErrorDimensionMismatch)
  else if decide (0 < rows A /\ cols b = 0) then panic IndexOutOfRange
  else if decide (cols A < rows A) then panic IndexOutOfRange
  else
    a ← load A; bv ← load b;
    x ← new_matrix (cols A) 1
          (solve (rows A) (cols A) a (column (rows b) (cols b) bv 0)
             <$> seq 0 (cols A));
    mret (Some x, None).

(** [MatrixSolver] (ALS.go:104-115): both errors of [SolveDense] are
    dropped ([_]); the loop runs over the columns of [mat], and the result
    has the shape of [mat]. *)
Definition MatrixSolver (mat outcome : DenseMatrix) : M DenseMatrix :=
  rows ← make 0;
  '(firstRow, _) ← SolveDense mat outcome;
  firstRow ← deref firstRow;
  a ← Array firstRow;
  rows ← append rows a;
  rows ← for_loop 1 (Cols mat) (fun i rows =>
    matrix ← Copy mat;
    swapped ← SwapCols outcome 0 i;
    '(value, _) ← SolveDense matrix swapped;
    value ← deref value;
    a ← Array value;
    append rows a) rows;
  mret (MakeDenseMatrix rows (Rows mat) (Cols mat)).

(** The body of the loop of [ALS] (ALS.go:149-170); [X] and [Y] are the
    variables the loop assigns. *)
Definition ALS_iteration (Q : DenseMatrix) (n_factors : nat)
    (XY : DenseMatrix * DenseMatrix) : M (DenseMatrix * DenseMatrix) :=
  let '(X, Y) := XY in
  I ← Eye n_factors;
  Scale I lambda;;
  Yt ← Transpose Y;
  '(Y_dot, err) ← TimesDense Y Yt;
  errcheck err;;
  _ ← AddDense Y_dot I;
  Qt ← Transpose Q;
  '(X_toSolve, _) ← TimesDense Y Qt;
  X ← MatrixSolver Y_dot X_toSolve;
  X ← Transpose X;
  Xt ← Transpose X;
  '(X_dot, err) ← TimesDense X Xt;
  errcheck err;;
  _ ← AddDense X_dot I;
  '(Y_toSolve, _) ← TimesDense X Q;
  S ← MatrixSolver X_dot Y_toSolve;
  Y ← Transpose S;
  X ← Transpose X;
  mret (X, Y).

(** The loop of [ALS] (ALS.go:148): [for i := 0; i < iterations; i++]. *)
Definition ALS_loop (Q : DenseMatrix) (iterations : Z) (n_factors : nat)
    (XY : DenseMatrix * DenseMatrix) : M (DenseMatrix * DenseMatrix) :=
  for_loop 0 (Z.to_nat iterations) (fun _ XY => ALS_iteration Q n_factors XY) XY.

(** [ALS] (ALS.go:143-174); [W] is computed and not used. *)
Definition ALS (Q : DenseMatrix) (iterations : Z) (n_factors : nat) : M DenseMatrix :=
  XY ← MakeXY Q n_factors;
  W ← MakeWeightMatrix Q;
  '(X, Y) ← ALS_loop Q iterations n_factors XY;
  '(Q_hat, _) ← TimesDense X Y;
  mret Q_hat.

End Program.

(** ** The similarity functions of [ALS.go]

    [DotProduct], [NormSquared] and [CosineSim] (ALS.go:54-81) read the
    slices they are given and write to none: each is a function of the
    elements. What [CosineSim] prints through [errcheck] is returned beside
    its value. *)

Module Similarity.

(** The value [errors.New("Cannot dot vectors of different length")]. *)
Inductive dot_error : Type :=
| CannotDotDifferentLength.

(** [a[i]] for an index the loop condition keeps below [len(a)]. *)
Definition at_index (a : list float64) (i : nat) : float64 :=
  default F64.zero (a !! i).

(** [DotProduct] (ALS.go:54-63): the sum is accumulated from [1]; the
    loop runs over the indices of [a], which are those of [b] once the
    lengths were found equal. *)
Definition DotProduct (a b : list float64) : float64 * option dot_error :=
  if decide (length a ≠ length b) then (F64.zero, Some CannotDotDifferentLength)
  else
    (fold_left (fun prod i => F64.add prod (F64.mul (at_index a i) (at_index b i)))
               (seq 0 (length a)) F64.one,
     None).

(** [NormSquared] (ALS.go:66-72): the sum is accumulated from [1]. *)
Definition NormSquared (a : list float64) : float64 :=
  fold_left (fun sum i => F64.add sum (F64.mul (at_index a i) (at_index a i)))
            (seq 0 (length a)) F64.one.

(** [errcheck] (ALS.go:16-20) at the error of [DotProduct]: the errors it
    prints, none for [nil]. *)
Definition errcheck (err : option dot_error) : list dot_error :=
  match err with
  | Some e => [e]
  | None => []
  end.

(** [CosineSim] (ALS.go:75-81): the value returned and what was printed. *)
Definition CosineSim (a b : list float64) : float64 * list dot_error :=
  let '(dp, err) := DotProduct a b in
  let printed := errcheck err in
  let a_squared := NormSquared a in
  let b_sqaured := NormSquared b in
  (F64.div dp (F64.mul a_squared b_sqaured), printed).

End Similarity.

(** ** The package's linear solve on concrete inputs

    An instance of the parameter [solve], for the examples: an LU
    factorisation of [A] with partial pivoting (column by column, each
    entry reduced by the dot product of the part of its row and column
    already factored), followed by forward and back substitution on the
    permuted right-hand side. The examples below use systems whose matrix
    is diagonal, on which every elimination computes [b_i / a_ii]. *)

Module LU.

Definition get (c : nat) (a : list float64) (i j : nat) : float64 := entry c a i j.
Definition set (c : nat) (a : list float64) (i j : nat) (x : float64) : list float64 :=
  <[i * c + j := x]> a.
Definition vget (v : list float64) (i : nat) : float64 := default F64.zero (v !! i).

Definition swap_rows (c : nat) (a : list float64) (p q : nat) : list float64 :=
  fold_left (fun a' j => set c (set c a' p j (get c a q j)) q j (get c a p j))
            (seq 0 c) a.

Definition swap_piv (piv : list nat) (p q : nat) : list nat :=
  <[p := default 0 (piv !! q)]> (<[q := default 0 (piv !! p)]> piv).

(** Column [j] of the factorisation of an [m] by [n] matrix. *)
Definition factor_column (m n : nat) (st : list float64 * list nat) (j : nat) :
  list float64 * list nat :=
  let '(a, piv) := st in
  let '(a, colj) :=
    fold_left (fun (ac : list float64 * list float64) i =>
                 let '(a, colj) := ac in
                 let s := fold_left (fun s k => F64.add s (F64.mul (get n a i k) (vget colj k)))
                                    (seq 0 (Nat.min i j)) F64.zero in
                 let x := F64.sub (vget colj i) s in
                 (set n a i j x, <[i := x]> colj))
              (seq 0 m) (a, (fun i => get n a i j) <$> seq 0 m) in
  let p := fold_left (fun p i =>
                        if F64.gtb (F64.abs (vget colj i)) (F64.abs (vget colj p))
                        then i else p)
                     (seq (S j) (m - S j)) j in
  let '(a, piv) := if decide (p = j) then (a, piv)
                   else (swap_rows n a p j, swap_piv piv p j) in
  let d := get n a j j in
  let a := if decide (j < m) then
             if F64.eqb d F64.zero then a
             else fold_left (fun a i => set n a i j (F64.div (get n a i j) d))
                            (seq (S j) (m - S j)) a
           else a in
  (a, piv).

Definition factor (m n : nat) (a : list float64) : list float64 * list nat :=
  fold_left (factor_column m n) (seq 0 n) (a, seq 0 m).

(** Forward substitution with the unit lower triangle. *)
Definition solve_lower (m n : nat) (lu b : list float64) : list float64 :=
  fold_left (fun x i =>
               <[i := fold_left (fun xi j => F64.sub xi (F64.mul (vget x j) (get n lu i j)))
                                (seq 0 i) (vget b i)]> x)
            (seq 0 m) (replicate n F64.zero).

(** Back substitution with the upper triangle. *)
Definition solve_upper (m n : nat) (lu b : list float64) : list float64 :=
  fold_left (fun x i =>
               <[i := F64.div
                        (fold_left (fun xi j => F64.sub xi (F64.mul (vget x j) (get n lu i j)))
                                   (seq (S i) (n - S i)) (vget b i))
                        (get n lu i i)]> x)
            (rev (seq 0 m)) (replicate n F64.zero).

(** Modelled from the spec: the solve of the matrix package (missing from
    the sources): LU factorisation, then the two triangular solves; a zero
    pivot is divided by like any other. *)
Definition lu_solve (m n : nat) (a b : list float64) (j : nat) : float64 :=
  let '(lu, piv) := factor m n a in
  let pb := (fun p => vget b p) <$> piv in
  vget (solve_upper m n lu (solve_lower m n lu pb)) j.

End LU.

(** ** Concrete inputs *)

(** A state whose store holds the given backing arrays. *)
Definition state_of (h : list (list float64)) : state :=
  {| heap := h; rand := fun _ => F64.zero; drawn := 0; stdout := []; solves := 0 |}.

(** The matrix with the given dimensions over the backing array [l]. *)
Definition matrix_at (l : loc) (r c : nat) : DenseMatrix :=
  MakeDenseMatrix (Slice l (r * c)) r c.

Definition floats (zs : list Z) : list float64 := F64.of_Z <$> zs.

(** What a run returned, with the contents of the store it left. *)
Definition result_of {A : Type} (o : outcome A) : option A :=
  match o with Ok a _ => Some a | Panic _ => None end.

Definition heap_of {A : Type} (o : outcome A) : list (list float64) :=
  match o with Ok _ s => heap s | Panic _ => [] end.

Definition contents {A : Type} (o : outcome A) (f : A -> DenseMatrix) :
  option (list float64) :=
  match o with
  | Ok a s => heap s !! base (elements (f a))
  | Panic _ => None
  end.

(** ** Specification vocabulary *)

(** The slice [sl] covers a whole backing array whose contents are [v]. *)
Definition holds (s : state) (sl : slice) (v : list float64) : Prop :=
  heap s !! base sl = Some v /\ length v = len sl.

(** [A] is a matrix in the layout [MakeDenseMatrix] gives to a slice of
    [rows * cols] elements, and its entries, row-major, are [v]. *)
Definition repr (s : state) (A : DenseMatrix) (v : list float64) : Prop :=
  step A = cols A /\ len (elements A) = rows A * cols A
  /\ holds s (elements A) v.

(** Two matrices that do not share their storage. *)
Definition separate (A B : DenseMatrix) : Prop :=
  base (elements A) ≠ base (elements B).

(** From [s] to [s'] the backing arrays below [n] other than those in [w]
    were not written to, none was removed, nothing was printed, no random
    number was drawn, and the package was asked for [m] linear solves. *)
Definition frame (n : nat) (w : list loc) (m : nat) (s s' : state) : Prop :=
  (forall l, l < n -> l ∉ w -> heap s' !! l = heap s !! l)
  /\ length (heap s) <= length (heap s')
  /\ rand s' = rand s /\ drawn s' = drawn s /\ stdout s' = stdout s
  /\ solves s' = solves s + m.

(** [C] is a matrix the run from [s] to [s'] allocated: it has [r] rows
    and [c] columns, entries [v], and storage that [s] did not have. *)
Definition allocated (m : nat) (s s' : state) (C : DenseMatrix) (r c : nat)
    (v : list float64) : Prop :=
  repr s' C v /\ rows C = r /\ cols C = c
  /\ length (heap s) <= base (elements C)
  /\ frame (length (heap s)) [] m s s'.

(** The run from [s] to [s'] wrote to the storage of [A] only, which now
    holds [v]. *)
Definition updated (s s' : state) (A : DenseMatrix) (v : list float64) : Prop :=
  repr s' A v /\ length (heap s') = length (heap s)
  /\ forall n, frame n [base (elements A)] 0 s s'.

(** The state in which a loop that overwrites [dst] element by element
    has written the first [i] elements of [new] over [old]. *)
Definition filled (dst : slice) (h : list (list float64)) (st : nat -> state)
    (old new : list float64) (i : nat) : state :=
  set_heap (<[base dst := take i new ++ drop i old]> h) (st i).

(** The mask [MakeWeightMatrix] computes, entry by entry. *)
Definition mask (q : list float64) : list float64 :=
  (fun x => if is_missing x then F64.zero else F64.one) <$> q.

(** The state after [k] more draws from the pseudo-random source. *)
Definition after_draws (s : state) (k : nat) : state :=
  {| heap := heap s; rand := rand s; drawn := drawn s + k;
     stdout := stdout s; solves := solves s |}.

(** The next [n] draws, each multiplied by five as [MakeXY] does. *)
Definition draws (s : state) (n : nat) : list float64 :=
  (fun i => F64.mul F64.five (rand s (drawn s + i))) <$> seq 0 n.

(** The factors [MakeXY] builds from state [s] for an [r] by [c] rating
    matrix and [k] factors. *)
Definition initial_factors (s : state) (r c k : nat) : list float64 * list float64 :=
  (draws s (r * k), draws (after_draws s (r * k)) (c * k)).

(** What is known of the state of the loop of [argmax] when the elements
    [pre] have been scanned. *)
Definition scanned (pre : list float64) (st : nat * float64) : Prop :=
  (forall x, x ∈ pre -> F64.gtb x st.2 = false)
  /\ ((st = (0, F64.zero) /\ forall x, x ∈ pre -> F64.gtb x F64.zero = false)
      \/ (pre !! st.1 = Some st.2 /\ F64.gtb st.2 F64.zero = true
          /\ forall j y, j < st.1 -> pre !! j = Some y ->
               F64.IsNaN y = true \/ F64.gtb st.2 y = true)).

(** The scores less their minimum, as [MatrixMinMinus] computes them. *)
Definition shifted (a : list float64) : list float64 :=
  (fun x => F64.sub x (fold_left (fun min x => if F64.ltb x min then x else min)
                                 a F64.hundred)) <$> a.

(** The running maximum of [MatrixMax]. *)
Definition max_step (max x : float64) : float64 := if F64.gtb x max then x else max.

(** The missing-value sentinel of the rating matrix: a zero or not-a-number. *)
Definition missing_sentinel (x : float64) : Prop :=
  x = S754_zero false \/ x = S754_zero true \/ x = S754_nan.

(** [m] is a greatest element of [l] for the order of the floats: it occurs
    in [l] and no element of [l] is greater. *)
Definition is_greatest (m : float64) (l : list float64) : Prop :=
  m ∈ l /\ forall x, x ∈ l -> F64.gtb x m = false.

(** [m] is the maximum of [l], the elements that are not-a-number left
    aside: it occurs in [l], it is a number, and every number in [l] is at
    most [m]. *)
Definition is_maximum (m : float64) (l : list float64) : Prop :=
  m ∈ l /\ F64.IsNaN m = false
  /\ forall x, x ∈ l -> F64.IsNaN x = false -> F64.leb x m = true.

(** Every element of [l] is below zero. *)
Definition all_negative (l : list float64) : Prop :=
  forall x, x ∈ l -> F64.ltb x F64.zero = true.

(** *** The weighted squared error, as the specification writes it *)

Definition weighted_square (w q p : float64) : float64 :=
  let d := F64.mul w (F64.sub q p) in F64.mul d d.

(** [Σ (W ⊙ (Q − X·Y))²], the terms added from zero in row-major order. *)
Definition weighted_squared_error (r k c : nat) (w q x y : list float64) : float64 :=
  fold_left F64.add
    (mbuild r c (fun i j =>
       weighted_square (entry c w i j) (entry c q i j)
                       (entry c (mtimes r k c x y) i j)))
    F64.zero.

(** *** One alternation, on values *)

Section Alternation.

Variable solve : nat -> nat -> list float64 -> list float64 -> nat -> float64.

(** The [k] by [m] matrix whose column [j] is the computed solution of
    [a·x = b_j], for the columns [b_j] of the [k] by [m] matrix [b]. *)
Definition solution (k m : nat) (a b : list float64) : list float64 :=
  mbuild k m (fun i j => solve k k a (column k m b j) i).

(** [λ·I_k], as [Eye] and [Scale] compute it. *)
Definition ridge (k : nat) : list float64 := mscale lambda (meye k).

(** The normal-equation matrix [Z·Zᵗ + λI_k] of a [k] by [n] matrix [Z]. *)
Definition normal_matrix (k n : nat) (z : list float64) : list float64 :=
  madd (mtimes k n k z (mtranspose k n z)) (ridge k).

(** The alternation the code performs on an [n] by [n] rating matrix [q]
    with [n] factors, from factors [(x, y)]: the new [X] is the transpose
    of the solution [Xᵗ] of [(Y·Yᵗ + λI)·Xᵗ = Y·Qᵗ]; the new [Y] solves
    [(Xᵗ·X + λI)·Y = Xᵗ·Q]. *)
Definition alternation (n : nat) (q : list float64)
    (xy : list float64 * list float64) : list float64 * list float64 :=
  let y := xy.2 in
  let xt := solution n n (normal_matrix n n y) (mtimes n n n y (mtranspose n n q)) in
  let x := mtranspose n n xt in
  let y' := solution n n (madd (mtimes n n n xt x) (ridge n)) (mtimes n n n xt q) in
  (x, y').

(** The alternation as the specification's two steps read: the second
    step forms [X·Xᵗ + λI] and [X·Q] from the updated [X = (Xᵗ)ᵗ]. *)
Definition alternation_as_specified (n : nat) (q : list float64)
    (xy : list float64 * list float64) : list float64 * list float64 :=
  let y := xy.2 in
  let xt := solution n n (normal_matrix n n y) (mtimes n n n y (mtranspose n n q)) in
  let x := mtranspose n n xt in
  let y' := solution n n (normal_matrix n n x) (mtimes n n n x q) in
  (x, y').

End Alternation.

(** *** What the claims speak of *)

(** The factors after [T] alternations by [step], from the factors
    [MakeXY] draws in state [s], for an [n] by [n] rating matrix [q] and
    [n] factors; and the matrix [X·Y] of a pair of factors. *)
Definition fitted
    (step : nat -> list float64 -> list float64 * list float64 ->
            list float64 * list float64)
    (n : nat) (T : Z) (q : list float64) (s : state) :
  list float64 * list float64 :=
  Nat.iter (Z.to_nat T) (step n q) (initial_factors s n n n).

Definition reconstruction (n : nat) (xy : list float64 * list float64) : list float64 :=
  mtimes n n n xy.1 xy.2.

(** The adjusted scores [Predict] leaves in its local matrix [Qhat]: the
    scores less their minimum, rescaled to the greatest rating, less the
    mask scaled by that rating. *)
Definition adjusted_scores (w q q_hat : list float64) : list float64 :=
  let maxRating := fold_left max_step q F64.zero in
  let scaled := mscale (F64.div maxRating (fold_left max_step (shifted q_hat) F64.zero))
                       (shifted q_hat) in
  msub scaled (mscale maxRating w).

(** The indices [Predict] returns for [r] users and [c] items, and what it
    prints, from the entries [h] of its argument [Q_hat]. *)
Definition predictions (r c : nat) (h : list float64) : list nat :=
  (fun i => argmax (take c (drop (i * c) h))) <$> seq 0 r.

Definition printed_predictions (r c : nat) (h : list float64) : list event :=
  (fun i => PrintedPrediction i (argmax (take c (drop (i * c) h)))) <$> seq 0 r.

(** Row [i] of a row-major matrix with [c] columns. *)
Definition row_of (c : nat) (v : list float64) (i : nat) : list float64 :=
  take c (drop (i * c) v).

Definition stdout_of {A : Type} (o : outcome A) : option (list event) :=
  match o with Ok _ s => Some (stdout s) | Panic _ => None end.

(** *** What the further properties speak of *)

(** The column that is found at [c] once columns [i] and [j] have changed
    places. *)
Definition exchange (i j c : nat) : nat :=
  if decide (c = i) then j else if decide (c = j) then i else c.

(** The running minimum of [MatrixMinMinus]. *)
Definition min_step (min x : float64) : float64 := if F64.ltb x min then x else min.

(** [m] is a least element of [l] for the order of the floats: it occurs
    in [l] and no element of [l] is below it. *)
Definition is_least (m : float64) (l : list float64) : Prop :=
  m ∈ l /\ forall x, x ∈ l -> F64.ltb x m = false.

(** A zero of either sign. *)
Definition is_zero (x : float64) : Prop :=
  x = S754_zero false \/ x = S754_zero true.

(** *** Inputs of the examples *)

Module Examples.

(** One fifth, the draw that [MakeXY] turns into [1]. *)
Definition fifth : float64 := S754_finite false 7205759403792794 (-55).

(** A 2 by 2 rating matrix [[0 2] [0 0]] and a random source whose
    draws make [MakeXY] start from [X = 0] and [Y = I]. *)
Definition fit_ratings : list float64 := floats [0; 2; 0; 0]%Z.
Definition fit_state : state :=
  {| heap := [fit_ratings];
     rand := fun i => if decide (i = 4 \/ i = 7) then fifth else F64.zero;
     drawn := 0; stdout := []; solves := 0 |}.
Definition fit_Q : DenseMatrix := matrix_at 0 2 2.

(** One user, three items, the third one rated 5; scores 1, 2, 3. *)
Definition rank_W : DenseMatrix := matrix_at 0 1 3.
Definition rank_Q : DenseMatrix := matrix_at 1 1 3.
Definition rank_Q_hat : DenseMatrix := matrix_at 2 1 3.
Definition rank_state : state :=
  state_of [floats [0; 0; 1]%Z; floats [0; 0; 5]%Z; floats [1; 2; 3]%Z].

(** The singular 1 by 1 system [0·x = 1]. *)
Definition singular_A : DenseMatrix := matrix_at 0 1 1.
Definition singular_B : DenseMatrix := matrix_at 1 1 1.
Definition singular_state : state := state_of [floats [0]%Z; floats [1]%Z].

(** [W], [Q], [X], [Y] with [Q] 2 by 2 and one factor. *)
Definition error_W : DenseMatrix := matrix_at 0 2 2.
Definition error_Q : DenseMatrix := matrix_at 1 2 2.
Definition error_X : DenseMatrix := matrix_at 2 2 1.
Definition error_Y : DenseMatrix := matrix_at 3 1 2.
Definition error_state : state :=
  state_of [floats [1; 0; 1; 1]%Z; floats [5; 0; 1; 2]%Z;
            floats [1; 2]%Z; floats [1; 1]%Z].

(** The system [I·X = B] with [B = [[1 2] [3 4]]]. *)
Definition unit_A : DenseMatrix := matrix_at 0 2 2.
Definition unit_B : DenseMatrix := matrix_at 1 2 2.
Definition unit_state : state :=
  state_of [floats [1; 0; 0; 1]%Z; floats [1; 2; 3; 4]%Z].

(** The 1 by 1 system matrix [[1]] with a right-hand side of two columns. *)
Definition wide_A : DenseMatrix := matrix_at 0 1 1.
Definition wide_B : DenseMatrix := matrix_at 1 1 2.
Definition wide_state : state := state_of [floats [1]%Z; floats [1; 2]%Z].

(** A 1 by 1 rating matrix, to be fitted with two factors. *)
Definition tiny_Q : DenseMatrix := matrix_at 0 1 1.
Definition tiny_state : state := state_of [floats [5]%Z].

(** One user who rated the one item 5, predicted score 1. *)
Definition rated_W : DenseMatrix := matrix_at 0 1 1.
Definition rated_Q : DenseMatrix := matrix_at 1 1 1.
Definition rated_Q_hat : DenseMatrix := matrix_at 2 1 1.
Definition rated_state : state :=
  state_of [floats [1]%Z; floats [5]%Z; floats [1]%Z].

(** A matrix of negative entries, and a rating matrix with a not-a-number. *)
Definition negative_A : DenseMatrix := matrix_at 0 1 2.
Definition negative_state : state := state_of [floats [-1; -2]%Z].

Definition sparse_Q : DenseMatrix := matrix_at 0 2 2.
Definition sparse_state : state :=
  state_of [[F64.of_Z 5; S754_zero true; S754_nan; F64.of_Z 3]].

(** A row with a not-a-number between two ratings. *)
Definition gap_A : DenseMatrix := matrix_at 0 1 3.
Definition gap_state : state := state_of [[F64.of_Z 5; S754_nan; F64.of_Z 3]].

(** The user of [rank_state] with nothing rated yet. *)
Definition unrated_state : state :=
  state_of [floats [0; 0; 0]%Z; floats [0; 0; 0]%Z; floats [1; 2; 3]%Z].

(** The system matrix [I] with a right-hand side of one column. *)
Definition narrow_A : DenseMatrix := matrix_at 0 2 2.
Definition narrow_B : DenseMatrix := matrix_at 1 2 1.
Definition narrow_state : state := state_of [floats [1; 0; 0; 1]%Z; floats [1; 2]%Z].

End Examples.

(** * Proofs *)

(** ** The monad *)

Lemma bind_ok {A B : Type} (m : M A) (f : A -> M B) (s s1 : state) (a : A) :
  m s = Ok a s1 -> (m ≫= f) s = f a s1.
Proof. intros E. unfold mbind, M_bind. by rewrite E. Qed.

Lemma ret_ok {A : Type} (a : A) (s : state) : (mret a : M A) s = Ok a s.
Proof. reflexivity. Qed.

(** A loop that keeps an invariant runs to its bound. *)
Lemma for_range_inv {A : Type} (I : nat -> A -> state -> Prop)
    (body : nat -> A -> M A) (n lo : nat) (a : A) (s : state) :
  I lo a s ->
  (forall i a s, lo <= i < lo + n -> I i a s ->
     exists a' s', body i a s = Ok a' s' /\ I (S i) a' s') ->
  exists a' s', for_range lo n body a s = Ok a' s' /\ I (lo + n) a' s'.
Proof.
  revert lo a s. induction n as [|n IH]; intros lo a s H0 Hstep.
  - exists a, s. rewrite Nat.add_0_r. done.
  - destruct (Hstep lo a s) as (a1 & s1 & E1 & H1); [lia | done |].
    destruct (IH (S lo) a1 s1) as (a2 & s2 & E2 & H2); [done | |].
    + intros i a' s' Hi. apply Hstep. lia.
    + exists a2, s2. split.
      * simpl. by rewrite (bind_ok _ _ _ _ _ E1).
      * by replace (lo + S n) with (S lo + n) by lia.
Qed.

Lemma for_loop_inv {A : Type} (I : nat -> A -> state -> Prop)
    (body : nat -> A -> M A) (n : nat) (a : A) (s : state) :
  I 0 a s ->
  (forall i a s, i < n -> I i a s ->
     exists a' s', body i a s = Ok a' s' /\ I (S i) a' s') ->
  exists a' s', for_loop 0 n body a s = Ok a' s' /\ I n a' s'.
Proof.
  intros H0 Hstep. unfold for_loop. rewrite Nat.sub_0_r.
  apply (for_range_inv I body n 0 a s H0).
  intros i a' s' Hi. apply Hstep. lia.
Qed.

(** ** Row-major lists *)

Lemma bind_singleton_fmap {A B : Type} (g : A -> B) (l : list A) :
  (x ← l; [g x]) = g <$> l.
Proof. induction l as [|x l IH]; [done|]. simpl. by f_equal. Qed.

Lemma mbuild_rows {A : Type} (r c : nat) (f : nat -> nat -> A) (lo : nat) :
  (i ← seq lo r; j ← seq 0 c; [f i j])
  = concat ((fun i => f i <$> seq 0 c) <$> seq lo r).
Proof.
  revert lo. induction r as [|r IH]; intros lo; [done|].
  simpl. rewrite bind_singleton_fmap. f_equal. apply IH.
Qed.

Lemma rows_lookup {A : Type} (r c : nat) (f : nat -> nat -> A) (lo i j : nat) :
  i < r -> j < c ->
  concat ((fun i => f i <$> seq 0 c) <$> seq lo r) !! (i * c + j) = Some (f (lo + i) j).
Proof.
  revert lo i. induction r as [|r IH]; intros lo i Hi Hj; [lia|].
  simpl. destruct i as [|i].
  - rewrite lookup_app_l by (rewrite length_fmap, length_seq; lia).
    simpl. rewrite list_lookup_fmap, lookup_seq_lt by done.
    simpl. by rewrite Nat.add_0_r.
  - rewrite lookup_app_r by (rewrite length_fmap, length_seq; lia).
    rewrite length_fmap, length_seq.
    replace (S i * c + j - c) with (i * c + j) by lia.
    rewrite IH by lia. f_equal. f_equal. lia.
Qed.

Lemma rows_length {A : Type} (r c : nat) (f : nat -> nat -> A) (lo : nat) :
  length (concat ((fun i => f i <$> seq 0 c) <$> seq lo r)) = r * c.
Proof.
  revert lo. induction r as [|r IH]; intros lo; [done|].
  simpl. rewrite length_app, length_fmap, length_seq, IH. lia.
Qed.

Lemma mbuild_length {A : Type} (r c : nat) (f : nat -> nat -> A) :
  length (mbuild r c f) = r * c.
Proof. unfold mbuild. rewrite mbuild_rows. apply rows_length. Qed.

Lemma mbuild_lookup {A : Type} (r c : nat) (f : nat -> nat -> A) (i j : nat) :
  i < r -> j < c -> mbuild r c f !! (i * c + j) = Some (f i j).
Proof. intros. unfold mbuild. rewrite mbuild_rows. by rewrite rows_lookup. Qed.

Lemma index_split (c k : nat) : 0 < c -> k = (k / c) * c + k mod c /\ k mod c < c.
Proof.
  intros Hc. split.
  - rewrite (Nat.div_mod k c) at 1 by lia. lia.
  - apply Nat.mod_upper_bound. lia.
Qed.

Lemma mbuild_eq {A : Type} (r c : nat) (f : nat -> nat -> A) (v : list A) :
  length v = r * c ->
  (forall i j, i < r -> j < c -> v !! (i * c + j) = Some (f i j)) ->
  v = mbuild r c f.
Proof.
  intros Hlen Hv. apply list_eq. intros k.
  destruct (decide (k < r * c)) as [Hk|Hk].
  - assert (0 < c) as Hc by (destruct c; lia).
    destruct (index_split c k Hc) as [Ek Hm].
    assert (k / c < r) as Hd by (apply Nat.Div0.div_lt_upper_bound; lia).
    rewrite Ek. rewrite Hv, mbuild_lookup by done. done.
  - rewrite !lookup_ge_None_2; [done | rewrite mbuild_length; lia | lia].
Qed.

Lemma mbuild_ext {A : Type} (r c : nat) (f g : nat -> nat -> A) :
  (forall i j, i < r -> j < c -> f i j = g i j) -> mbuild r c f = mbuild r c g.
Proof.
  intros E. apply mbuild_eq; [apply mbuild_length|].
  intros i j Hi Hj. rewrite mbuild_lookup by done. f_equal. by apply E.
Qed.

Lemma entry_mbuild (r c : nat) (f : nat -> nat -> float64) (i j : nat) :
  i < r -> j < c -> entry c (mbuild r c f) i j = f i j.
Proof. intros. unfold entry. by rewrite mbuild_lookup. Qed.

Lemma mbuild_entry (r c : nat) (v : list float64) :
  length v = r * c -> mbuild r c (entry c v) = v.
Proof.
  intros Hlen. symmetry. apply mbuild_eq; [done|].
  intros i j Hi Hj. unfold entry.
  destruct (v !! (i * c + j)) eqn:E; [done|].
  apply lookup_ge_None_1 in E. nia.
Qed.

Lemma mbuild_offsets (r c : nat) :
  mbuild r c (fun i j => i * c + j) = seq 0 (r * c).
Proof.
  symmetry. apply mbuild_eq; [apply length_seq|].
  intros i j Hi Hj. rewrite lookup_seq_lt by nia. done.
Qed.

Lemma mtranspose_length (r c : nat) (v : list float64) :
  length (mtranspose r c v) = c * r.
Proof. apply mbuild_length. Qed.

Lemma mtranspose_involutive (r c : nat) (v : list float64) :
  length v = r * c -> mtranspose c r (mtranspose r c v) = v.
Proof.
  intros Hlen. transitivity (mbuild r c (entry c v)); [|by apply mbuild_entry].
  unfold mtranspose at 1. apply mbuild_ext. intros i j Hi Hj. unfold mtranspose. by rewrite entry_mbuild.
Qed.

Lemma mtimes_length (r n c : nat) (a b : list float64) :
  length (mtimes r n c a b) = r * c.
Proof. apply mbuild_length. Qed.

Lemma meye_length (k : nat) : length (meye k) = k * k.
Proof. apply mbuild_length. Qed.

Lemma mscale_length (f : float64) (v : list float64) : length (mscale f v) = length v.
Proof. apply length_fmap. Qed.

Lemma madd_length (a b : list float64) :
  length a = length b -> length (madd a b) = length a.
Proof. intros E. unfold madd. rewrite length_zip_with. lia. Qed.

Lemma msub_length (a b : list float64) :
  length a = length b -> length (msub a b) = length a.
Proof. intros E. unfold msub. rewrite length_zip_with. lia. Qed.

Lemma mswap_rows_length (r c r1 r2 : nat) (v : list float64) :
  length (mswap_rows r c r1 r2 v) = r * c.
Proof. apply mbuild_length. Qed.

(** Reading and writing every element in turn. *)

Lemma mapM_lookup_seq {A : Type} (v : list A) :
  mapM (fun o => v !! o) (seq 0 (length v)) = Some v.
Proof.
  apply mapM_Some. apply Forall2_same_length_lookup. split.
  - by rewrite length_seq.
  - intros i o x Ho Hx. apply lookup_seq in Ho as [-> _]. done.
Qed.

Lemma write_all_seq (w data : list float64) (lo : nat) :
  lo + length w <= length data ->
  write_all (seq lo (length w)) w data = take lo data ++ w ++ drop (lo + length w) data.
Proof.
  revert lo data. induction w as [|x w IH]; intros lo data Hlen.
  - simpl. rewrite Nat.add_0_r. by rewrite take_drop.
  - simpl in *. unfold write_all in *. simpl. rewrite IH by (rewrite length_insert; lia).
    rewrite (take_S_r _ _ x) by (apply list_lookup_insert_eq; lia).
    rewrite take_insert_ge by lia. rewrite drop_insert_lt by lia.
    replace (lo + S (length w)) with (S lo + length w) by lia.
    by rewrite <- app_assoc.
Qed.

Lemma write_all_whole (w data : list float64) :
  length w = length data -> write_all (seq 0 (length w)) w data = w.
Proof.
  intros E. rewrite write_all_seq by (simpl; lia). simpl.
  rewrite drop_ge by lia. by rewrite app_nil_r.
Qed.

(** ** The store *)

Lemma frame_refl (n : nat) (w : list loc) (s : state) : frame n w 0 s s.
Proof. unfold frame. repeat split; auto with lia. Qed.

Lemma frame_trans (n n' : nat) (w w' : list loc) (m m' : nat) (s s1 s2 : state) :
  frame n w m s s1 -> frame n' w' m' s1 s2 -> n <= n' ->
  (forall l, l ∈ w' -> l < n -> l ∈ w) ->
  frame n w (m + m') s s2.
Proof.
  intros (H1 & L1 & R1 & D1 & O1 & S1) (H2 & L2 & R2 & D2 & O2 & S2) Hn Hw.
  unfold frame. repeat split; try congruence; try lia.
  intros l Hl Hnw. rewrite H2, H1; auto with lia.
Qed.

Lemma frame_weaken (n n' : nat) (w w' : list loc) (m : nat) (s s' : state) :
  frame n w m s s' -> n' <= n -> (forall l, l ∈ w -> l < n' -> l ∈ w') ->
  frame n' w' m s s'.
Proof.
  intros (H1 & L1 & R1 & D1 & O1 & S1) Hn Hw.
  unfold frame. repeat split; try done.
  intros l Hl Hnw. apply H1; [lia|]. intros Hin. apply Hnw. by apply Hw.
Qed.

Lemma frame_alloc (s : state) (v : list float64) :
  frame (length (heap s)) [] 0 s (set_heap (heap s ++ [v]) s).
Proof.
  unfold frame. simpl. repeat split; try done.
  - intros l Hl _. by rewrite lookup_app_l.
  - rewrite length_app. lia.
Qed.

Lemma frame_update (s : state) (l : loc) (v : list float64) (n : nat) :
  frame n [l] 0 s (set_heap (<[l := v]> (heap s)) s).
Proof.
  unfold frame. simpl. repeat split; try done.
  - intros l' _ Hl'. rewrite list_lookup_insert_ne; [done|].
    intros ->. apply Hl'. by apply list_elem_of_singleton.
  - by rewrite length_insert.
Qed.

Lemma holds_bound (s : state) (sl : slice) (v : list float64) :
  holds s sl v -> base sl < length (heap s).
Proof. intros [H _]. by apply lookup_lt_Some in H. Qed.

Lemma repr_bound (s : state) (A : DenseMatrix) (v : list float64) :
  repr s A v -> base (elements A) < length (heap s).
Proof. intros (_ & _ & H). by apply holds_bound in H. Qed.

Lemma repr_length (s : state) (A : DenseMatrix) (v : list float64) :
  repr s A v -> length v = rows A * cols A.
Proof. intros (_ & E & _ & H). congruence. Qed.

Lemma holds_frame (n : nat) (w : list loc) (m : nat) (s s' : state)
    (sl : slice) (v : list float64) :
  holds s sl v -> frame n w m s s' -> base sl < n -> base sl ∉ w -> holds s' sl v.
Proof.
  intros [H E] (F & _) Hn Hw. split; [|done]. by rewrite F.
Qed.

Lemma repr_frame (n : nat) (w : list loc) (m : nat) (s s' : state)
    (A : DenseMatrix) (v : list float64) :
  repr s A v -> frame n w m s s' -> base (elements A) < n -> base (elements A) ∉ w ->
  repr s' A v.
Proof.
  intros (E1 & E2 & H) F Hn Hw. repeat split; try done; by eapply holds_frame.
Qed.

Lemma holds_fresh (s : state) (v : list float64) :
  holds (set_heap (heap s ++ [v]) s) (Slice (length (heap s)) (length v)) v.
Proof.
  split; [|done]. simpl. rewrite lookup_app_r by lia.
  by rewrite Nat.sub_diag.
Qed.

Lemma view_holds (s : state) (sl : slice) (v : list float64) :
  holds s sl v -> view sl s = Some v.
Proof.
  intros [H L]. unfold view. rewrite H.
  rewrite decide_True by lia. by rewrite take_ge by lia.
Qed.

Lemma slice_get_ok (s : state) (sl : slice) (v : list float64) (i : nat) (x : float64) :
  holds s sl v -> v !! i = Some x -> slice_get sl i s = Ok x s.
Proof.
  intros H E. unfold slice_get. by rewrite (view_holds _ _ _ H), E.
Qed.

Lemma slice_set_ok (s : state) (sl : slice) (v : list float64) (i : nat) (x : float64) :
  holds s sl v -> i < len sl ->
  slice_set sl i x s = Ok tt (set_heap (<[base sl := <[i := x]> v]> (heap s)) s).
Proof.
  intros [H L] Hi. unfold slice_set. rewrite H.
  by rewrite decide_True by lia.
Qed.

Lemma slice_read_ok (s : state) (sl : slice) (v : list float64) :
  holds s sl v -> slice_read sl s = Ok v s.
Proof. intros H. unfold slice_read. by rewrite (view_holds _ _ _ H). Qed.

Lemma set_heap_id (s : state) : set_heap (heap s) s = s.
Proof. by destruct s. Qed.

(** ** The matrix package on matrices in the standard layout *)

Lemma offsets_repr (s : state) (A : DenseMatrix) (v : list float64) :
  repr s A v -> offsets A = seq 0 (length v).
Proof.
  intros R. pose proof (repr_length _ _ _ R) as L. destruct R as (E & _).
  unfold offsets. rewrite E, L. apply mbuild_offsets.
Qed.

Lemma load_ok (s : state) (A : DenseMatrix) (v : list float64) :
  repr s A v -> load A s = Ok v s.
Proof.
  intros R. unfold load. rewrite (offsets_repr _ _ _ R).
  destruct R as (_ & _ & H). rewrite (view_holds _ _ _ H). simpl.
  by rewrite mapM_lookup_seq.
Qed.

Lemma store_ok (s : state) (A : DenseMatrix) (v w : list float64) :
  repr s A v -> length w = length v ->
  store A w s = Ok tt (set_heap (<[base (elements A) := w]> (heap s)) s).
Proof.
  intros R E. unfold store. rewrite (offsets_repr _ _ _ R).
  pose proof (repr_length _ _ _ R) as L.
  destruct R as (_ & E2 & H & L'). rewrite H.
  rewrite decide_True.
  - rewrite <- E. by rewrite write_all_whole.
  - split; [lia|]. apply Forall_forall. intros o Ho.
    apply elem_of_seq in Ho. lia.
Qed.

Lemma repr_update (s : state) (A : DenseMatrix) (v w : list float64) :
  repr s A v -> length w = length v ->
  repr (set_heap (<[base (elements A) := w]> (heap s)) s) A w.
Proof.
  intros (E1 & E2 & H) E. repeat split; try done.
  - simpl. apply list_lookup_insert_eq. by apply holds_bound in H.
  - destruct H. congruence.
Qed.

Lemma repr_fresh (s : state) (r c : nat) (v : list float64) :
  length v = r * c ->
  repr (set_heap (heap s ++ [v]) s)
       (MakeDenseMatrix (Slice (length (heap s)) (length v)) r c) v.
Proof.
  intros E. repeat split; simpl; try done.
  rewrite lookup_app_r by lia. by rewrite Nat.sub_diag.
Qed.

(** A fresh matrix: what the allocating operations of the package return. *)
Lemma new_matrix_ok (s : state) (r c : nat) (v : list float64) :
  length v = r * c ->
  exists C s', new_matrix r c v s = Ok C s'
    /\ repr s' C v /\ rows C = r /\ cols C = c
    /\ base (elements C) = length (heap s)
    /\ length (heap s') = S (length (heap s))
    /\ frame (length (heap s)) [] 0 s s'.
Proof.
  intros E. eexists _, _. split; [reflexivity|].
  split; [by apply repr_fresh|].
  do 3 (split; [done|]).
  split; [simpl; rewrite length_app; simpl; lia|].
  apply frame_alloc.
Qed.

Lemma allocated_new (s : state) (r c : nat) (v : list float64) :
  length v = r * c ->
  exists C s', new_matrix r c v s = Ok C s' /\ allocated 0 s s' C r c v.
Proof.
  intros E. destruct (new_matrix_ok s r c v E) as (C & s' & E1 & R & Hr & Hc & Hb & _ & F).
  exists C, s'. split; [done|]. unfold allocated.
  do 3 (split; [done|]). split; [lia | done].
Qed.

Lemma allocated_bound (m : nat) (s s' : state) (C : DenseMatrix) (r c : nat)
    (v : list float64) :
  allocated m s s' C r c v ->
  length (heap s) <= base (elements C) < length (heap s') /\ length (heap s) <= length (heap s').
Proof.
  intros (R & _ & _ & Hb & F). apply repr_bound in R. destruct F as (_ & L & _). lia.
Qed.

Lemma Eye_ok (s : state) (k : nat) :
  exists C s', Eye k s = Ok C s' /\ allocated 0 s s' C k k (meye k).
Proof. apply allocated_new, meye_length. Qed.

Lemma Copy_ok (s : state) (A : DenseMatrix) (v : list float64) :
  repr s A v ->
  exists C s', Copy A s = Ok C s' /\ allocated 0 s s' C (rows A) (cols A) v.
Proof.
  intros R. unfold Copy. rewrite (bind_ok _ _ _ _ _ (load_ok _ _ _ R)).
  apply allocated_new. by eapply repr_length.
Qed.

Lemma Transpose_ok (s : state) (A : DenseMatrix) (v : list float64) :
  repr s A v ->
  exists C s', Transpose A s = Ok C s'
    /\ allocated 0 s s' C (cols A) (rows A) (mtranspose (rows A) (cols A) v).
Proof.
  intros R. unfold Transpose. rewrite (bind_ok _ _ _ _ _ (load_ok _ _ _ R)).
  apply allocated_new, mtranspose_length.
Qed.

Lemma TimesDense_ok (s : state) (A B : DenseMatrix) (a b : list float64) :
  repr s A a -> repr s B b -> cols A = rows B ->
  exists C s', TimesDense A B s = Ok (C, None) s'
    /\ allocated 0 s s' C (rows A) (cols B) (mtimes (rows A) (cols A) (cols B) a b).
Proof.
  intros RA RB E. unfold TimesDense. rewrite decide_True by done.
  rewrite (bind_ok _ _ _ _ _ (load_ok _ _ _ RA)).
  rewrite (bind_ok _ _ _ _ _ (load_ok _ _ _ RB)).
  destruct (allocated_new s (rows A) (cols B)
              (mtimes (rows A) (cols A) (cols B) a b)) as (C & s' & E1 & H);
    [apply mtimes_length|].
  exists C, s'. by rewrite (bind_ok _ _ _ _ _ E1).
Qed.

Lemma updated_store (s : state) (A : DenseMatrix) (v w : list float64) :
  repr s A v -> length w = length v ->
  exists s', store A w s = Ok tt s' /\ updated s s' A w.
Proof.
  intros R E. eexists. split; [by eapply store_ok|].
  split; [by eapply repr_update|]. split; [simpl; by rewrite length_insert|].
  intros n. apply frame_update.
Qed.

Lemma Scale_ok (s : state) (A : DenseMatrix) (v : list float64) (f : float64) :
  repr s A v ->
  exists s', Scale A f s = Ok tt s' /\ updated s s' A (mscale f v).
Proof.
  intros R. unfold Scale. rewrite (bind_ok _ _ _ _ _ (load_ok _ _ _ R)).
  eapply updated_store; [done|]. apply mscale_length.
Qed.

Lemma AddDense_ok (s : state) (A B : DenseMatrix) (a b : list float64) :
  repr s A a -> repr s B b -> rows A = rows B -> cols A = cols B ->
  exists s', AddDense A B s = Ok None s' /\ updated s s' A (madd a b).
Proof.
  intros RA RB Er Ec. unfold AddDense. rewrite decide_True by done.
  rewrite (bind_ok _ _ _ _ _ (load_ok _ _ _ RA)).
  rewrite (bind_ok _ _ _ _ _ (load_ok _ _ _ RB)).
  destruct (updated_store s A a (madd a b) RA) as (s' & E & U).
  { apply madd_length. rewrite (repr_length _ _ _ RA), (repr_length _ _ _ RB). congruence. }
  exists s'. by rewrite (bind_ok _ _ _ _ _ E).
Qed.

Lemma SubtractDense_ok (s : state) (A B : DenseMatrix) (a b : list float64) :
  repr s A a -> repr s B b -> rows A = rows B -> cols A = cols B ->
  exists s', SubtractDense A B s = Ok None s' /\ updated s s' A (msub a b).
Proof.
  intros RA RB Er Ec. unfold SubtractDense. rewrite decide_True by done.
  rewrite (bind_ok _ _ _ _ _ (load_ok _ _ _ RA)).
  rewrite (bind_ok _ _ _ _ _ (load_ok _ _ _ RB)).
  destruct (updated_store s A a (msub a b) RA) as (s' & E & U).
  { apply msub_length. rewrite (repr_length _ _ _ RA), (repr_length _ _ _ RB). congruence. }
  exists s'. by rewrite (bind_ok _ _ _ _ _ E).
Qed.

Lemma SwapRows_ok (s : state) (A : DenseMatrix) (v : list float64) (r1 r2 : nat) :
  repr s A v -> r1 < rows A -> r2 < rows A ->
  exists s', SwapRows A r1 r2 s = Ok tt s'
    /\ updated s s' A (mswap_rows (rows A) (cols A) r1 r2 v).
Proof.
  intros R H1 H2. unfold SwapRows. destruct (decide (cols A = 0)) as [E0|N0].
  - exists s. split; [done|].
    assert (mswap_rows (rows A) (cols A) r1 r2 v = v) as ->.
    { pose proof (repr_length _ _ _ R) as L. rewrite E0, Nat.mul_0_r in L.
      apply nil_length_inv in L. subst v. apply nil_length_inv.
      rewrite mswap_rows_length. lia. }
    split; [done|]. split; [done|]. intros n. apply frame_weaken with n []; auto.
    + apply frame_refl.
    + intros l Hl. by apply elem_of_nil in Hl.
  - rewrite decide_True by done.
    rewrite (bind_ok _ _ _ _ _ (load_ok _ _ _ R)).
    eapply updated_store; [done|]. rewrite mswap_rows_length. symmetry.
    by eapply repr_length.
Qed.

(** [Array] gives the entries: in the storage of the matrix itself when
    [step = rows], in a fresh backing array otherwise. *)
Lemma Array_ok (s : state) (A : DenseMatrix) (v : list float64) :
  repr s A v ->
  exists sl s', Array A s = Ok sl s'
    /\ holds s' sl v /\ len sl = length v
    /\ frame (length (heap s)) [] 0 s s'
    /\ (sl = elements A /\ s' = s \/ base sl = length (heap s)).
Proof.
  intros R. pose proof (repr_length _ _ _ R) as L.
  unfold Array. destruct (decide (step A = rows A)) as [E|N].
  - destruct R as (E1 & E2 & H & L'). unfold reslice. rewrite (proj1 (conj H L')).
    rewrite decide_True by lia. exists (elements A), s.
    split; [f_equal; destruct (elements A); simpl in *; congruence|].
    split; [done|]. split; [lia|]. split; [apply frame_refl|]. by left.
  - rewrite (bind_ok _ _ _ _ _ (load_ok _ _ _ R)).
    eexists _, _. split; [reflexivity|].
    split; [apply holds_fresh|]. split; [done|]. split; [apply frame_alloc|]. by right.
Qed.

(** Carrying facts along a run. *)

Lemma repr_allocated (m : nat) (s s' : state) (A C : DenseMatrix) (r c : nat)
    (v w : list float64) :
  repr s A v -> allocated m s s' C r c w -> repr s' A v.
Proof.
  intros R (_ & _ & _ & _ & F).
  eapply repr_frame; [done | done | by eapply repr_bound | apply not_elem_of_nil].
Qed.

Lemma holds_allocated (m : nat) (s s' : state) (sl : slice) (C : DenseMatrix)
    (r c : nat) (v w : list float64) :
  holds s sl v -> allocated m s s' C r c w -> holds s' sl v.
Proof.
  intros R (_ & _ & _ & _ & F).
  eapply holds_frame; [done | done | by eapply holds_bound | apply not_elem_of_nil].
Qed.

Lemma repr_updated (s s' : state) (A B : DenseMatrix) (v w : list float64) :
  repr s B v -> updated s s' A w -> separate B A -> repr s' B v.
Proof.
  intros R (_ & _ & F) Hsep.
  eapply repr_frame; [done | apply (F (S (base (elements B)))) | lia |].
  intros Hin. apply list_elem_of_singleton in Hin. done.
Qed.

Lemma frame_allocated (n m m' : nat) (s0 s s' : state) (C : DenseMatrix) (r c : nat)
    (v : list float64) :
  frame n [] m s0 s -> n <= length (heap s) -> allocated m' s s' C r c v ->
  frame n [] (m + m') s0 s'.
Proof.
  intros F Hn (_ & _ & _ & _ & F'). eapply frame_trans; [done | done | done |].
  intros l Hl. by apply elem_of_nil in Hl.
Qed.

Lemma frame_updated (n m : nat) (s0 s s' : state) (A : DenseMatrix) (v : list float64) :
  frame n [] m s0 s -> n <= base (elements A) -> updated s s' A v ->
  frame n [] m s0 s'.
Proof.
  intros F Hn (_ & _ & F'). rewrite <- (Nat.add_0_r m).
  eapply frame_trans; [done | apply (F' n) | done |].
  intros l Hl Hln. apply list_elem_of_singleton in Hl. lia.
Qed.

Lemma frame_length (n m : nat) (w : list loc) (s s' : state) :
  frame n w m s s' -> length (heap s) <= length (heap s').
Proof. by intros (_ & L & _). Qed.

Lemma updated_length (s s' : state) (A : DenseMatrix) (v : list float64) :
  updated s s' A v -> length (heap s') = length (heap s).
Proof. by intros (_ & L & _). Qed.

Lemma allocated_repr (m : nat) (s s' : state) (C : DenseMatrix) (r c : nat)
    (v : list float64) :
  allocated m s s' C r c v -> repr s' C v.
Proof. by intros (R & _). Qed.

Lemma updated_repr (s s' : state) (A : DenseMatrix) (v : list float64) :
  updated s s' A v -> repr s' A v.
Proof. by intros (R & _). Qed.

(** Turning one allocation (from [s1] to [s2]) into an allocation of a
    longer run (from [s] to [s2]). *)
Lemma allocated_after (m m' : nat) (s s1 s2 : state) (C : DenseMatrix) (r c : nat)
    (v : list float64) :
  frame (length (heap s)) [] m s s1 -> allocated m' s1 s2 C r c v ->
  allocated (m + m') s s2 C r c v.
Proof.
  intros F H. pose proof (frame_length _ _ _ _ _ F) as L.
  pose proof (frame_allocated _ _ _ _ _ _ _ _ _ _ F L H) as F'.
  destruct H as (R & Hr & Hc & Hb & _). unfold allocated.
  do 3 (split; [done|]). split; [lia | done].
Qed.

(** ** [SwapCols] *)

Lemma SwapCols_ok (s : state) (B : DenseMatrix) (b : list float64) (i : nat) :
  repr s B b -> i < cols B ->
  exists C s', SwapCols B 0 i s = Ok C s'
    /\ allocated 0 s s' C (rows B) (cols B) (swapped_cols (rows B) (cols B) i b).
Proof.
  intros R Hi. unfold SwapCols.
  destruct (Copy_ok s B b R) as (p & s1 & E1 & A1).
  rewrite (bind_ok _ _ _ _ _ E1).
  destruct (Transpose_ok s1 p b (allocated_repr _ _ _ _ _ _ _ A1)) as (t & s2 & E2 & A2).
  rewrite (bind_ok _ _ _ _ _ E2).
  destruct A1 as (R1 & Hr1 & Hc1 & Hb1 & F1). rewrite Hr1, Hc1 in *.
  pose proof A2 as (R2 & Hr2 & Hc2 & Hb2 & F2).
  destruct (SwapRows_ok s2 t _ 0 i R2) as (s3 & E3 & U3); [lia | lia |].
  rewrite (bind_ok _ _ _ _ _ E3). rewrite Hr2, Hc2 in U3.
  destruct (Transpose_ok s3 t _ (updated_repr _ _ _ _ U3)) as (C & s4 & E4 & A4).
  rewrite (bind_ok _ _ _ _ _ E4). rewrite Hr2, Hc2 in A4.
  exists C, s4. split; [done|].
  assert (frame (length (heap s)) [] 0 s s2) as F12.
  { change 0 with (0 + 0). eapply frame_trans; [exact F1 | exact F2 | |].
    - by eapply frame_length.
    - intros l Hl. by apply elem_of_nil in Hl. }
  assert (frame (length (heap s)) [] 0 s s3) as F13.
  { eapply frame_updated; [exact F12 | | exact U3].
    pose proof (frame_length _ _ _ _ _ F1). lia. }
  change 0 with (0 + 0). by eapply allocated_after.
Qed.

Lemma column_swapped_cols (k m i : nat) (b : list float64) :
  i < m -> column k m (swapped_cols k m i b) 0 = column k m b i.
Proof.
  intros Hi. unfold column. apply list_fmap_ext. intros idx r Hr.
  apply lookup_seq in Hr as [-> Hr]. simpl.
  unfold swapped_cols. unfold mtranspose at 1. rewrite entry_mbuild by lia.
  unfold mswap_rows. rewrite entry_mbuild by lia.
  rewrite decide_True by done. unfold mtranspose. by rewrite entry_mbuild by lia.
Qed.

(** ** The linear solve *)

Section SolverProofs.

Variable solve : nat -> nat -> list float64 -> list float64 -> nat -> float64.

Lemma SolveDense_ok (s : state) (A B : DenseMatrix) (a b : list float64) :
  repr s A a -> repr s B b ->
  rows A = cols A -> rows B = rows A -> 0 < cols B ->
  exists x s', SolveDense solve A B s = Ok (Some x, None) s'
    /\ allocated 1 s s' x (cols A) 1
         (solve (rows A) (cols A) a (column (rows B) (cols B) b 0) <$> seq 0 (cols A)).
Proof.
  intros RA RB Esq Er Hc. unfold SolveDense.
  set (s1 := {| heap := heap s; rand := rand s; drawn := drawn s;
                stdout := stdout s; solves := S (solves s) |}).
  assert (count_solve s = Ok tt s1) as E0 by done.
  rewrite (bind_ok _ _ _ _ _ E0).
  rewrite decide_False by (intros N; apply N; done).
  rewrite decide_False by lia. rewrite decide_False by lia.
  assert (repr s1 A a) as RA1 by done.
  assert (repr s1 B b) as RB1 by done.
  rewrite (bind_ok _ _ _ _ _ (load_ok _ _ _ RA1)).
  rewrite (bind_ok _ _ _ _ _ (load_ok _ _ _ RB1)).
  destruct (allocated_new s1 (cols A) 1
    (solve (rows A) (cols A) a (column (rows B) (cols B) b 0) <$> seq 0 (cols A)))
    as (x & s2 & E2 & H2).
  { rewrite length_fmap, length_seq. lia. }
  rewrite (bind_ok _ _ _ _ _ E2). exists x, s2. split; [done|].
  destruct H2 as (R & Hr & Hc' & Hb & F). unfold allocated.
  do 3 (split; [done|]). split; [done|].
  destruct F as (F1 & F2 & F3 & F4 & F5 & F6). unfold frame.
  repeat split; try done. simpl in F6. lia.
Qed.

(** The solutions of the first [i] columns one after the other. *)
Lemma mbuild_snoc {A : Type} (i k : nat) (f : nat -> nat -> A) :
  mbuild (S i) k f = mbuild i k f ++ (f i <$> seq 0 k).
Proof.
  unfold mbuild. rewrite !mbuild_rows. rewrite seq_S, fmap_app, concat_app.
  simpl. by rewrite app_nil_r.
Qed.

Lemma append_ok (s : state) (dst src : slice) (old new : list float64) :
  holds s dst old -> holds s src new ->
  exists sl s', append dst src s = Ok sl s'
    /\ holds s' sl (old ++ new)
    /\ base sl = length (heap s)
    /\ frame (length (heap s)) [] 0 s s'.
Proof.
  intros Hd Hs. unfold append.
  rewrite (bind_ok _ _ _ _ _ (slice_read_ok _ _ _ Hd)).
  rewrite (bind_ok _ _ _ _ _ (slice_read_ok _ _ _ Hs)).
  eexists _, _. split; [reflexivity|].
  split; [apply holds_fresh|]. split; [done|]. apply frame_alloc.
Qed.

(** One right-hand side column: solve, then append the solution. *)
Lemma solve_and_append (s : state) (A B : DenseMatrix) (a b old : list float64)
    (rows_ : slice) :
  repr s A a -> repr s B b -> holds s rows_ old ->
  rows A = cols A -> rows B = rows A -> 0 < cols B ->
  exists sl s',
    ('(value, _) ← SolveDense solve A B;
     value ← deref value; a ← Array value; append rows_ a) s = Ok sl s'
    /\ holds s' sl (old ++ (solve (rows A) (cols A) a (column (rows B) (cols B) b 0)
                             <$> seq 0 (cols A)))
    /\ length (heap s) <= base sl
    /\ frame (length (heap s)) [] 1 s s'.
Proof.
  intros RA RB Hold Esq Er Hc.
  destruct (SolveDense_ok s A B a b RA RB Esq Er Hc) as (x & s1 & E1 & A1).
  rewrite (bind_ok _ _ _ _ _ E1). simpl.
  rewrite (bind_ok _ _ _ _ _ (ret_ok x s1)).
  destruct (Array_ok s1 x _ (allocated_repr _ _ _ _ _ _ _ A1))
    as (sl & s2 & E2 & H2 & L2 & F2 & _).
  rewrite (bind_ok _ _ _ _ _ E2).
  assert (holds s2 rows_ old) as Hold2.
  { eapply holds_frame; [| exact F2 | | apply not_elem_of_nil].
    - by eapply holds_allocated.
    - apply holds_bound in Hold.
      destruct A1 as (_ & _ & _ & _ & F1). apply frame_length in F1. lia. }
  destruct (append_ok s2 rows_ sl _ _ Hold2 H2) as (r' & s3 & E3 & H3 & B3 & F3).
  exists r', s3. split; [done|]. split; [done|].
  destruct A1 as (_ & _ & _ & _ & F1).
  pose proof (frame_length _ _ _ _ _ F1). pose proof (frame_length _ _ _ _ _ F2).
  split; [lia|].
  assert (frame (length (heap s)) [] (1 + 0) s s2) as F12.
  { eapply frame_trans; [exact F1 | exact F2 | lia |].
    intros l Hl. by apply elem_of_nil in Hl. }
  change 1 with (1 + 0 + 0). eapply frame_trans; [exact F12 | exact F3 | lia |].
  intros l Hl. by apply elem_of_nil in Hl.
Qed.

(** [MatrixSolver] on a [k] by [k] system and a right-hand side with at
    least [k] columns: row [i] of the result is the computed solution for
    column [i] of the right-hand side. *)
Lemma MatrixSolver_ok (s : state) (A B : DenseMatrix) (a b : list float64) :
  repr s A a -> repr s B b ->
  rows A = cols A -> rows B = rows A -> cols A <= cols B -> 0 < cols A ->
  exists C s', MatrixSolver solve A B s = Ok C s'
    /\ allocated (cols A) s s' C (rows A) (cols A)
         (mbuild (cols A) (cols A)
            (fun i j => solve (rows A) (cols A) a (column (rows B) (cols B) b i) j)).
Proof.
  intros RA RB Esq Er Hk H0. unfold MatrixSolver.
  set (f := fun i j => solve (rows A) (cols A) a (column (rows B) (cols B) b i) j).
  set (s1 := set_heap (heap s ++ [replicate 0 F64.zero]) s).
  assert (make 0 s = Ok (Slice (length (heap s)) 0) s1) as E0 by done.
  rewrite (bind_ok _ _ _ _ _ E0).
  assert (frame (length (heap s)) [] 0 s s1) as F01 by apply frame_alloc.
  assert (holds s1 (Slice (length (heap s)) 0) []) as H1 by apply (holds_fresh s []).
  assert (forall (W : DenseMatrix) (w : list float64), repr s W w -> repr s1 W w) as T1.
  { intros W w R. eapply repr_frame; [done | exact F01 | by eapply repr_bound |].
    apply not_elem_of_nil. }
  destruct (solve_and_append s1 A B a b [] _ (T1 _ _ RA) (T1 _ _ RB) H1 Esq Er)
    as (r1 & s2 & E2 & H2 & B2 & F2); [lia|].
  (* the first solve is written with the same binds as the loop body *)
  assert (forall {T} (k : slice -> M T),
    ('(firstRow, _) ← SolveDense solve A B; firstRow ← deref firstRow;
     a ← Array firstRow; rows ← append (Slice (length (heap s)) 0) a; k rows) s1
    = k r1 s2) as Hfirst.
  { intros T k. revert E2. unfold mbind, M_bind.
    destruct (SolveDense solve A B s1) as [[v e] s'|]; [|done]. simpl.
    destruct (deref v s') as [v' s''|]; [|done].
    destruct (Array v' s'') as [a' s3|]; [|done].
    by intros ->. }
  rewrite Hfirst. clear Hfirst.
  assert (frame (length (heap s)) [] 1 s s2) as F02.
  { change 1 with (0 + 1). eapply frame_trans; [exact F01 | exact F2 | |].
    - by eapply frame_length.
    - intros l Hl. by apply elem_of_nil in Hl. }
  (* the loop *)
  pose (I := fun (i : nat) (rows_ : slice) (si : state) =>
    holds si rows_ (mbuild i (cols A) f)
    /\ length (heap s) <= base rows_
    /\ frame (length (heap s)) [] i s si).
  destruct (for_range_inv I
    (fun i rows_ => matrix ← Copy A; swapped ← SwapCols B 0 i;
       '(value, _) ← SolveDense solve matrix swapped;
       value ← deref value; a ← Array value; append rows_ a)
    (cols A - 1) 1 r1 s2) as (rf & sf & Ef & Hf & Bf & Ff).
  { unfold I. split; [|split; [|done]].
    - change 1 with (S 0). rewrite mbuild_snoc. exact H2.
    - pose proof (frame_length _ _ _ _ _ F01). lia. }
  { intros i rows_ si Hi (Hh & Hb & Fi).
    assert (forall (W : DenseMatrix) (w : list float64), repr s W w -> repr si W w) as Ti.
    { intros W w R. eapply repr_frame; [done | exact Fi | by eapply repr_bound |].
      apply not_elem_of_nil. }
    destruct (Copy_ok si A a (Ti _ _ RA)) as (mt & sa & Ea & Aa).
    rewrite (bind_ok _ _ _ _ _ Ea).
    assert (repr sa B b) as RBa by (eapply repr_allocated; [apply (Ti _ _ RB) | exact Aa]).
    destruct (SwapCols_ok sa B b i RBa) as (sw & sb & Eb & Ab); [lia|].
    rewrite (bind_ok _ _ _ _ _ Eb).
    pose proof Aa as (Ra & Hra & Hca & Hba & Fa).
    pose proof Ab as (Rb & Hrb & Hcb & Hbb & Fb).
    assert (repr sb mt a) as Rab by (eapply repr_allocated; [exact Ra | exact Ab]).
    assert (holds sb rows_ (mbuild i (cols A) f)) as Hhb.
    { eapply holds_allocated; [|exact Ab]. eapply holds_allocated; [exact Hh | exact Aa]. }
    destruct (solve_and_append sb mt sw a _ _ rows_ Rab Rb Hhb)
      as (r' & sc & Ec & Hc & Bc & Fc); [congruence | congruence | lia |].
    rewrite Hra, Hca, Hrb, Hcb in *.
    exists r', sc. split; [exact Ec|]. unfold I.
    pose proof (frame_length _ _ _ _ _ Fi). pose proof (frame_length _ _ _ _ _ Fa).
    pose proof (frame_length _ _ _ _ _ Fb).
    split; [|split; [lia|]].
    - rewrite mbuild_snoc. unfold f at 2.
      by rewrite column_swapped_cols in Hc by lia.
    - replace (S i) with (i + 0 + 0 + 1) by lia.
      eapply frame_trans; [| exact Fc | lia | intros l Hl; by apply elem_of_nil in Hl].
      eapply frame_trans; [| exact Fb | lia | intros l Hl; by apply elem_of_nil in Hl].
      eapply frame_trans; [exact Fi | exact Fa | lia |
                           intros l Hl; by apply elem_of_nil in Hl]. }
  unfold for_loop, Cols. rewrite (bind_ok _ _ _ _ _ Ef).
  exists (MakeDenseMatrix rf (Rows A) (Cols A)), sf. split; [done|].
  replace (1 + (cols A - 1)) with (cols A) in * by lia.
  unfold allocated, Rows, Cols. simpl.
  split; [|do 2 (split; [done|]); split; [done | exact Ff]].
  destruct Hf as [Hf1 Hf2]. rewrite mbuild_length in Hf2.
  repeat split; simpl; try done; try lia.
  rewrite mbuild_length. lia.
Qed.

End SolverProofs.

(** ** One iteration of [ALS] *)

Lemma mtranspose_mbuild (r c : nat) (f : nat -> nat -> float64) :
  mtranspose r c (mbuild r c f) = mbuild c r (fun j i => f i j).
Proof.
  unfold mtranspose. apply mbuild_ext. intros j i Hj Hi. by rewrite entry_mbuild.
Qed.

Lemma frame_solves (n m m' : nat) (w : list loc) (s s' : state) :
  frame n w m s s' -> m = m' -> frame n w m' s s'.
Proof. by intros F <-. Qed.

(** After an allocation: every matrix known in the old state is known in
    the new one, and so is the frame of the run so far. *)
Ltac carry_alloc H :=
  let Hb := fresh "Hbound" in
  pose proof (allocated_bound _ _ _ _ _ _ _ H) as Hb;
  match type of H with
  | allocated ?m' ?s ?s' _ _ _ _ =>
      repeat match goal with
      | R : repr s _ _ |- _ =>
          apply (fun R0 => repr_allocated _ _ _ _ _ _ _ _ _ R0 H) in R
      end;
      try match goal with
      | F : frame ?n [] ?m ?s0 s |- _ =>
          let F' := fresh "F" in
          assert (frame n [] (m + m') s0 s') as F'
            by (eapply frame_allocated; [exact F | | exact H]; lia);
          clear F; rename F' into F
      end
  end.

(** After an update in place of a matrix allocated during the run. *)
Ltac carry_update H :=
  let Hl := fresh "Hlength" in
  pose proof (updated_length _ _ _ _ H) as Hl;
  match type of H with
  | updated ?s ?s' ?A _ =>
      repeat match goal with
      | R : repr s ?B _ |- _ =>
          apply (fun R0 => repr_updated s s' A B _ _ R0 H
                             ltac:(unfold separate; lia)) in R
      end;
      try match goal with
      | F : frame ?n [] ?m ?s0 s |- _ =>
          let F' := fresh "F" in
          assert (frame n [] m s0 s') as F'
            by (eapply frame_updated; [exact F | | exact H]; lia);
          clear F; rename F' into F
      end
  end.

Tactic Notation "run_alloc" constr(L) "as" ident(C) ident(s') ident(H) :=
  let E := fresh "E" in
  destruct L as (C & s' & E & H); [..|
    rewrite (bind_ok _ _ _ _ _ E); clear E; carry_alloc H].

Tactic Notation "run_update" constr(L) "as" ident(s') ident(H) :=
  let E := fresh "E" in
  destruct L as (s' & E & H); [..|
    rewrite (bind_ok _ _ _ _ _ E); clear E; carry_update H].

Section IterationProofs.

Variable solve : nat -> nat -> list float64 -> list float64 -> nat -> float64.

Lemma MatrixSolver_square (s : state) (A B : DenseMatrix) (a b : list float64) (n : nat) :
  repr s A a -> repr s B b ->
  rows A = n -> cols A = n -> rows B = n -> cols B = n -> 0 < n ->
  exists C s', MatrixSolver solve A B s = Ok C s'
    /\ allocated n s s' C n n (mtranspose n n (solution solve n n a b)).
Proof.
  intros RA RB HrA HcA HrB HcB Hn.
  destruct (MatrixSolver_ok solve s A B a b RA RB) as (C & s' & E & H); try lia.
  exists C, s'. split; [done|]. rewrite HrA, HcA, HrB, HcB in H.
  unfold solution. by rewrite mtranspose_mbuild.
Qed.

Lemma ALS_iteration_ok (s : state) (Q X Y : DenseMatrix) (q x y : list float64) (n : nat) :
  repr s Q q -> repr s Y y ->
  rows Q = n -> cols Q = n -> rows Y = n -> cols Y = n -> 0 < n ->
  exists X' Y' s', ALS_iteration solve Q n (X, Y) s = Ok (X', Y') s'
    /\ repr s' X' (alternation solve n q (x, y)).1
    /\ repr s' Y' (alternation solve n q (x, y)).2
    /\ rows X' = n /\ cols X' = n /\ rows Y' = n /\ cols Y' = n
    /\ frame (length (heap s)) [] (2 * n) s s'.
Proof.
  intros RQ RY HrQ HcQ HrY HcY Hn. unfold ALS_iteration.
  pose proof (repr_bound _ _ _ RQ) as BQ. pose proof (repr_bound _ _ _ RY) as BY.
  pose proof (frame_refl (length (heap s)) [] s) as F.
  run_alloc (Eye_ok s n) as I s1 HI.
  pose proof HI as (RI & HrI & HcI & _).
  run_update (Scale_ok s1 I _ lambda RI) as s2 HI2.
  pose proof HI2 as (RI2 & _). clear RI.
  run_alloc (Transpose_ok s2 Y y RY) as Yt s3 HYt.
  pose proof HYt as (RYt & HrYt & HcYt & _). rewrite HrY, HcY in *.
  run_alloc (TimesDense_ok s3 Y Yt _ _ RY RYt ltac:(lia)) as Yd s4 HYd.
  simpl. rewrite (bind_ok _ _ _ _ _ (ret_ok tt s4)).
  pose proof HYd as (RYd & HrYd & HcYd & _). rewrite HrY, HcY, HcYt in *.
  run_update (AddDense_ok s4 Yd I _ _ RYd RI2 ltac:(lia) ltac:(lia)) as s5 HYd2.
  pose proof HYd2 as (RA & _). clear RYd.
  run_alloc (Transpose_ok s5 Q q RQ) as Qt s6 HQt.
  pose proof HQt as (RQt & HrQt & HcQt & _). rewrite HrQ, HcQ in *.
  run_alloc (TimesDense_ok s6 Y Qt _ _ RY RQt ltac:(lia)) as Xs s7 HXs.
  simpl.
  pose proof HXs as (RXs & HrXs & HcXs & _). rewrite HrY, HcY, HcQt in *.
  run_alloc (MatrixSolver_square s7 Yd Xs _ _ n RA RXs HrYd HcYd HrXs HcXs Hn) as X1 s8 HX1.
  pose proof HX1 as (RX1 & HrX1 & HcX1 & _).
  run_alloc (Transpose_ok s8 X1 _ RX1) as X2 s9 HX2.
  pose proof HX2 as (RX2 & HrX2 & HcX2 & _). rewrite HrX1, HcX1 in *.
  rewrite mtranspose_involutive in * by apply mbuild_length.
  run_alloc (Transpose_ok s9 X2 _ RX2) as Xt s10 HXt.
  pose proof HXt as (RXt & HrXt & HcXt & _). rewrite HrX2, HcX2 in *.
  run_alloc (TimesDense_ok s10 X2 Xt _ _ RX2 RXt ltac:(lia)) as Xd s11 HXd.
  simpl. rewrite (bind_ok _ _ _ _ _ (ret_ok tt s11)).
  pose proof HXd as (RXd & HrXd & HcXd & _). rewrite HrX2, HcX2, HcXt in *.
  run_update (AddDense_ok s11 Xd I _ _ RXd RI2 ltac:(lia) ltac:(lia)) as s12 HXd2.
  pose proof HXd2 as (RA' & _). clear RXd.
  run_alloc (TimesDense_ok s12 X2 Q _ _ RX2 RQ ltac:(lia)) as Ys s13 HYs.
  simpl.
  pose proof HYs as (RYs & HrYs & HcYs & _). rewrite HrX2, HcX2, HcQ in *.
  run_alloc (MatrixSolver_square s13 Xd Ys _ _ n RA' RYs HrXd HcXd HrYs HcYs Hn) as S1 s14 HS1.
  pose proof HS1 as (RS1 & HrS1 & HcS1 & _).
  run_alloc (Transpose_ok s14 S1 _ RS1) as Y' s15 HY'.
  pose proof HY' as (RY' & HrY' & HcY' & _). rewrite HrS1, HcS1 in *.
  rewrite mtranspose_involutive in * by apply mbuild_length.
  run_alloc (Transpose_ok s15 X2 _ RX2) as X' s16 HX'.
  pose proof HX' as (RX' & HrX' & HcX' & _). rewrite HrX2, HcX2 in *.
  exists X', Y', s16. split; [done|].
  split; [exact RX'|]. split; [exact RY'|].
  do 4 (split; [done|]).
  eapply frame_solves; [exact F | lia].
Qed.

End IterationProofs.

(** ** Loops over a slice *)

(** A loop that reads every element and accumulates. *)
Lemma fold_loop {A : Type} (f : A -> float64 -> A) (sl : slice) (v : list float64)
    (s : state) (a : A) :
  holds s sl v ->
  for_loop 0 (len sl) (fun i acc => x ← slice_get sl i; mret (f acc x)) a s
  = Ok (fold_left f v a) s.
Proof.
  intros H. pose proof H as [_ L].
  destruct (for_loop_inv (fun i acc si => si = s /\ acc = fold_left f (take i v) a)
              (fun i acc => x ← slice_get sl i; mret (f acc x)) (len sl) a s)
    as (a' & s' & E & -> & ->).
  - by rewrite take_0.
  - intros i acc si Hi [-> ->].
    destruct (lookup_lt_is_Some_2 v i) as [x Hx]; [lia|].
    exists (f (fold_left f (take i v) a) x), s.
    split; [by rewrite (bind_ok _ _ _ _ _ (slice_get_ok _ _ _ _ _ H Hx))|].
    split; [done|]. rewrite (take_S_r _ _ _ Hx). by rewrite fold_left_app.
  - rewrite E. by rewrite take_ge by lia.
Qed.

Lemma insert_take_drop_step {A : Type} (new old : list A) (i : nat) (y : A) :
  new !! i = Some y -> i < length old ->
  <[i := y]> (take i new ++ drop i old) = take (S i) new ++ drop (S i) old.
Proof.
  intros Hy Hi. pose proof (lookup_lt_Some _ _ _ Hy) as Hn.
  rewrite insert_app_r_alt by (rewrite length_take; lia).
  rewrite length_take, Nat.min_l, Nat.sub_diag by lia.
  destruct (lookup_lt_is_Some_2 old i Hi) as [o Ho].
  rewrite (drop_S _ _ _ Ho). simpl.
  rewrite (take_S_r _ _ _ Hy). by rewrite <- app_assoc.
Qed.

Lemma fill_loop (dst : slice) (h : list (list float64)) (st : nat -> state)
    (old new : list float64) (body : nat -> unit -> M unit) :
  length old = len dst -> length new = len dst ->
  (forall i y, i < len dst -> new !! i = Some y ->
     body i tt (filled dst h st old new i)
     = Ok tt (set_heap (<[base dst := <[i := y]> (take i new ++ drop i old)]> h) (st (S i)))) ->
  for_loop 0 (len dst) body tt (filled dst h st old new 0)
  = Ok tt (filled dst h st old new (len dst)).
Proof.
  intros Lo Ln Hbody.
  destruct (for_loop_inv (fun i _ si => si = filled dst h st old new i)
              body (len dst) tt (filled dst h st old new 0))
    as ([] & s' & E & ->); [done | | done].
  intros i [] si Hi ->.
  destruct (lookup_lt_is_Some_2 new i) as [y Hy]; [lia|].
  exists tt. eexists. split; [by apply Hbody|].
  unfold filled. by rewrite (insert_take_drop_step _ _ _ _ Hy) by lia.
Qed.

Lemma filled_start (dst : slice) (h : list (list float64)) (st : nat -> state)
    (old new : list float64) :
  h !! base dst = Some old -> filled dst h st old new 0 = set_heap h (st 0).
Proof.
  intros H. unfold filled. rewrite take_0, drop_0. simpl.
  by rewrite list_insert_id.
Qed.

Lemma filled_end (dst : slice) (h : list (list float64)) (st : nat -> state)
    (old new : list float64) :
  length old = len dst -> length new = len dst ->
  filled dst h st old new (len dst) = set_heap (<[base dst := new]> h) (st (len dst)).
Proof.
  intros Lo Ln. unfold filled.
  rewrite take_ge, drop_ge by lia. by rewrite app_nil_r.
Qed.

Lemma holds_filled (dst : slice) (h : list (list float64)) (st : nat -> state)
    (old new : list float64) (i : nat) :
  base dst < length h -> length old = len dst -> length new = len dst ->
  holds (filled dst h st old new i) dst (take i new ++ drop i old).
Proof.
  intros Hb Lo Ln. split.
  - simpl. by apply list_lookup_insert_eq.
  - rewrite length_app, length_take, length_drop. lia.
Qed.

Lemma holds_filled_other (dst sl : slice) (h : list (list float64)) (st : nat -> state)
    (old new v : list float64) (i : nat) :
  h !! base sl = Some v -> length v = len sl -> base sl ≠ base dst ->
  holds (filled dst h st old new i) sl v.
Proof.
  intros H L N. split; [|done]. simpl. by rewrite list_lookup_insert_ne.
Qed.

Lemma slice_set_filled (dst : slice) (h : list (list float64)) (st : nat -> state)
    (old new : list float64) (i : nat) (y : float64) :
  base dst < length h -> length old = len dst -> length new = len dst -> i < len dst ->
  slice_set dst i y (filled dst h st old new i)
  = Ok tt (set_heap (<[base dst := <[i := y]> (take i new ++ drop i old)]> h) (st i)).
Proof.
  intros Hb Lo Ln Hi.
  rewrite (slice_set_ok _ _ _ _ _ (holds_filled dst h st old new i Hb Lo Ln) Hi).
  unfold filled. simpl. by rewrite list_insert_insert_eq.
Qed.

Lemma filled_lookup (new old : list float64) (i : nat) :
  length new = length old -> (take i new ++ drop i old) !! i = old !! i.
Proof.
  intros E. destruct (decide (i < length old)) as [Hi|Hi].
  - rewrite lookup_app_r by (rewrite length_take; lia).
    rewrite length_take, Nat.min_l, Nat.sub_diag by lia.
    rewrite lookup_drop. by rewrite Nat.add_0_r.
  - rewrite !lookup_ge_None_2; [done | lia |].
    rewrite length_app, length_take, length_drop. lia.
Qed.

(** ** [MakeWeightMatrix] *)

Lemma make_filled (s : state) (n : nat) (new : list float64) :
  make n s = Ok (Slice (length (heap s)) (length (replicate n F64.zero)))
               (filled (Slice (length (heap s)) (length (replicate n F64.zero)))
                       (heap s ++ [replicate n F64.zero]) (fun _ => s)
                       (replicate n F64.zero) new 0).
Proof.
  unfold make, alloc. f_equal. symmetry. rewrite filled_start; [done|].
  simpl. rewrite lookup_app_r by lia. by rewrite Nat.sub_diag.
Qed.

Lemma allocated_fill (s s1 : state) (r c : nat) (old new : list float64) :
  frame (length (heap s)) [] 0 s s1 ->
  length new = r * c ->
  allocated 0 s (set_heap (<[length (heap s1) := new]> (heap s1 ++ [old])) s1)
    (MakeDenseMatrix (Slice (length (heap s1)) (r * c)) r c) r c new.
Proof.
  intros F Ln. pose proof (frame_length _ _ _ _ _ F) as L.
  unfold allocated. split; [|split; [done|]; split; [done|]; split].
  - repeat split; simpl; try done.
    apply list_lookup_insert_eq. rewrite length_app. simpl. lia.
  - simpl. lia.
  - destruct F as (F1 & F2 & F3 & F4 & F5 & F6). unfold frame. simpl.
    repeat split; try done.
    + intros l Hl _. rewrite list_lookup_insert_ne by lia.
      rewrite lookup_app_l by lia. apply F1; [done | apply not_elem_of_nil].
    + rewrite length_insert, length_app. simpl. lia.
Qed.

Lemma MakeWeightMatrix_ok (s : state) (Q : DenseMatrix) (q : list float64) :
  repr s Q q ->
  exists W s', MakeWeightMatrix Q s = Ok W s'
    /\ allocated 0 s s' W (rows Q) (cols Q) (mask q).
Proof.
  intros R. pose proof (repr_length _ _ _ R) as Lq. unfold MakeWeightMatrix.
  destruct (Array_ok s Q q R) as (values & s1 & E1 & H1 & L1 & F1 & _).
  rewrite (bind_ok _ _ _ _ _ E1).
  rewrite (bind_ok _ _ _ _ _ (make_filled s1 (len values) (mask q))).
  set (dst := Slice (length (heap s1)) (length (replicate (len values) F64.zero))).
  assert (len dst = len values) as Ld by (simpl; apply length_replicate).
  assert (length (mask q) = len dst) as Lm by (unfold mask; rewrite length_fmap; lia).
  assert (forall i y, i < len dst -> mask q !! i = Some y ->
    (x ← slice_get values i;
     if is_missing x then slice_set dst i F64.zero else slice_set dst i F64.one)
      (filled dst (heap s1 ++ [replicate (len values) F64.zero]) (fun _ => s1)
              (replicate (len values) F64.zero) (mask q) i)
    = Ok tt (set_heap (<[base dst := <[i := y]>
               (take i (mask q) ++ drop i (replicate (len values) F64.zero))]>
               (heap s1 ++ [replicate (len values) F64.zero])) s1)) as Hbody.
  { intros i y Hi Hy. pose proof (holds_bound _ _ _ H1) as Hb. destruct H1 as [H1 H1'].
    unfold mask in Hy. rewrite list_lookup_fmap in Hy.
    destruct (q !! i) as [x|] eqn:Hx; [|done]. simpl in Hy. injection Hy as <-.
    assert (holds (filled dst (heap s1 ++ [replicate (len values) F64.zero])
                     (fun _ => s1) (replicate (len values) F64.zero) (mask q) i)
                  values q) as Hv.
    { apply holds_filled_other; [by rewrite lookup_app_l | done | simpl; lia]. }
    rewrite (bind_ok _ _ _ _ _ (slice_get_ok _ _ _ _ _ Hv Hx)).
    assert (forall b : bool,
      (if b then slice_set dst i F64.zero else slice_set dst i F64.one)
      = slice_set dst i (if b then F64.zero else F64.one)) as -> by (by intros []).
    apply slice_set_filled; try done.
    simpl. rewrite length_app. simpl. lia. }
  pose proof (fill_loop dst _ (fun _ => s1) (replicate (len values) F64.zero) (mask q)
                (fun i _ => x ← slice_get values i;
                   if is_missing x then slice_set dst i F64.zero
                   else slice_set dst i F64.one)
                eq_refl Lm Hbody) as Hloop.
  rewrite filled_end in Hloop by done. rewrite Ld in Hloop.
  rewrite (bind_ok _ _ _ _ _ Hloop).
  eexists _, _. split; [reflexivity|].
  unfold Rows, Cols. replace dst with (Slice (length (heap s1)) (rows Q * cols Q)).
  - apply allocated_fill; [done|]. unfold mask. rewrite length_fmap. done.
  - unfold dst. f_equal. rewrite length_replicate. lia.
Qed.

(** ** [MakeXY] *)

Lemma draw_loop (s : state) (dst : slice) (h : list (list float64)) (n : nat) :
  h !! base dst = Some (replicate n F64.zero) -> len dst = n ->
  for_loop 0 (len dst) (fun i _ =>
    r ← rand_Float64; slice_set dst i (F64.mul F64.five r)) tt (set_heap h s)
  = Ok tt (set_heap (<[base dst := draws s n]> h) (after_draws s n)).
Proof.
  intros H L. pose proof (lookup_lt_Some _ _ _ H) as Hb.
  assert (length (replicate n F64.zero) = len dst) as Lo by (rewrite length_replicate; lia).
  assert (length (draws s n) = len dst) as Ln
    by (unfold draws; rewrite length_fmap, length_seq; lia).
  replace (set_heap h s)
    with (filled dst h (after_draws s) (replicate n F64.zero) (draws s n) 0).
  - rewrite (fill_loop dst h (after_draws s) (replicate n F64.zero) (draws s n)
               (fun i _ => r ← rand_Float64; slice_set dst i (F64.mul F64.five r)) Lo Ln).
    + rewrite filled_end by done. by rewrite L.
    + intros i y Hi Hy.
      unfold draws in Hy. rewrite list_lookup_fmap, lookup_seq_lt in Hy by lia.
      simpl in Hy. injection Hy as <-.
      assert (rand_Float64 (filled dst h (after_draws s) (replicate n F64.zero) (draws s n) i)
              = Ok (rand s (drawn s + i))
                   (filled dst h (fun _ => after_draws s (S i))
                           (replicate n F64.zero) (draws s n) i)) as E.
      { unfold rand_Float64, filled, after_draws, set_heap. simpl.
        do 3 f_equal. lia. }
      rewrite (bind_ok _ _ _ _ _ E).
      by rewrite slice_set_filled.
  - rewrite filled_start by done. unfold after_draws, set_heap. simpl.
    do 2 f_equal. lia.
Qed.

(** [MakeXY] allocates the two factors and fills them with the next draws. *)
Lemma MakeXY_ok (s : state) (Q : DenseMatrix) (k : nat) :
  exists X Y s', MakeXY Q k s = Ok (X, Y) s'
    /\ repr s' X (initial_factors s (rows Q) (cols Q) k).1
    /\ repr s' Y (initial_factors s (rows Q) (cols Q) k).2
    /\ rows X = rows Q /\ cols X = k /\ rows Y = k /\ cols Y = cols Q
    /\ length (heap s) <= base (elements X) /\ length (heap s) <= base (elements Y)
    /\ (forall l, l < length (heap s) -> heap s' !! l = heap s !! l)
    /\ stdout s' = stdout s /\ solves s' = solves s.
Proof.
  unfold MakeXY, Rows, Cols, make.
  set (nx := rows Q * k). set (ny := cols Q * k).
  set (lx := length (heap s)).
  set (h2 := (heap s ++ [replicate nx F64.zero]) ++ [replicate ny F64.zero]).
  assert (alloc (replicate nx F64.zero) s
          = Ok (Slice lx (length (replicate nx F64.zero)))
               (set_heap (heap s ++ [replicate nx F64.zero]) s)) as E1 by done.
  rewrite (bind_ok _ _ _ _ _ E1).
  assert (alloc (replicate ny F64.zero) (set_heap (heap s ++ [replicate nx F64.zero]) s)
          = Ok (Slice (S lx) (length (replicate ny F64.zero))) (set_heap h2 s)) as E2.
  { unfold alloc. simpl. rewrite length_app. simpl.
    replace (length (heap s) + 1) with (S lx) by (unfold lx; lia). done. }
  rewrite (bind_ok _ _ _ _ _ E2).
  rewrite !length_replicate.
  assert (h2 !! lx = Some (replicate nx F64.zero)) as Hx.
  { unfold h2. rewrite lookup_app_l by (rewrite length_app; simpl; lia).
    rewrite lookup_app_r by lia. by rewrite Nat.sub_diag. }
  rewrite (bind_ok _ _ _ _ _ (draw_loop s (Slice lx nx) h2 nx Hx eq_refl)).
  simpl base.
  assert (<[lx := draws s nx]> h2 !! S lx = Some (replicate ny F64.zero)) as Hy.
  { rewrite list_lookup_insert_ne by lia. unfold h2.
    rewrite lookup_app_r by (rewrite length_app; simpl; lia).
    rewrite length_app. simpl. by replace (S lx - (length (heap s) + 1)) with 0 by lia. }
  rewrite (bind_ok _ _ _ _ _
             (draw_loop (after_draws s nx) (Slice (S lx) ny) _ ny Hy eq_refl)).
  eexists _, _, _. split; [reflexivity|]. simpl.
  assert (length h2 = S (S lx)) as Lh by (unfold h2; rewrite !length_app; simpl; lia).
  split; [|split]; [| |repeat split; try done; try (unfold lx; lia)].
  - split; [done|]. split; [done|]. split; simpl.
    + rewrite list_lookup_insert_ne by lia.
      apply list_lookup_insert_eq. lia.
    + unfold draws. by rewrite length_fmap, length_seq.
  - split; [done|]. split; [simpl; unfold ny; lia|]. split; simpl.
    + apply list_lookup_insert_eq. rewrite length_insert. lia.
    + unfold draws. by rewrite length_fmap, length_seq.
  - intros l Hl. rewrite !list_lookup_insert_ne by (unfold lx; lia).
    unfold h2. rewrite !lookup_app_l; [done | lia | rewrite length_app; lia].
Qed.

(** ** The loop of [ALS] *)

Lemma repr_prefix (s s' : state) (A : DenseMatrix) (v : list float64) :
  repr s A v -> (forall l, l < length (heap s) -> heap s' !! l = heap s !! l) ->
  repr s' A v.
Proof.
  intros R H. pose proof (repr_bound _ _ _ R) as Hb.
  destruct R as (E1 & E2 & H1 & L). repeat split; try done. by rewrite H.
Qed.

Section LoopProofs.

Variable solve : nat -> nat -> list float64 -> list float64 -> nat -> float64.

Lemma ALS_loop_ok (s : state) (Q X Y : DenseMatrix) (q x y : list float64)
    (n : nat) (T : Z) :
  repr s Q q -> repr s X x -> repr s Y y ->
  rows Q = n -> cols Q = n -> rows X = n -> cols X = n -> rows Y = n -> cols Y = n ->
  0 < n ->
  exists X' Y' s', ALS_loop solve Q T n (X, Y) s = Ok (X', Y') s'
    /\ repr s' X' (Nat.iter (Z.to_nat T) (alternation solve n q) (x, y)).1
    /\ repr s' Y' (Nat.iter (Z.to_nat T) (alternation solve n q) (x, y)).2
    /\ rows X' = n /\ cols X' = n /\ rows Y' = n /\ cols Y' = n
    /\ frame (length (heap s)) [] (Z.to_nat T * (2 * n)) s s'.
Proof.
  intros RQ RX RY HrQ HcQ HrX HcX HrY HcY Hn. unfold ALS_loop.
  pose (I := fun (i : nat) (XY : DenseMatrix * DenseMatrix) (si : state) =>
    repr si XY.1 (Nat.iter i (alternation solve n q) (x, y)).1
    /\ repr si XY.2 (Nat.iter i (alternation solve n q) (x, y)).2
    /\ rows XY.1 = n /\ cols XY.1 = n /\ rows XY.2 = n /\ cols XY.2 = n
    /\ frame (length (heap s)) [] (i * (2 * n)) s si).
  destruct (for_loop_inv I (fun _ XY => ALS_iteration solve Q n XY)
              (Z.to_nat T) (X, Y) s) as ([X' Y'] & s' & E & H).
  - unfold I. simpl. do 6 (split; [done|]). apply frame_refl.
  - intros i [Xi Yi] si Hi (RXi & RYi & H1 & H2 & H3 & H4 & Fi). simpl in *.
    assert (repr si Q q) as RQi.
    { eapply repr_frame; [exact RQ | exact Fi | by eapply repr_bound |
                          apply not_elem_of_nil]. }
    destruct (ALS_iteration_ok solve si Q Xi Yi q
                (Nat.iter i (alternation solve n q) (x, y)).1
                (Nat.iter i (alternation solve n q) (x, y)).2 n RQi RYi)
      as (X1 & Y1 & s1 & E1 & RX1 & RY1 & D1 & D2 & D3 & D4 & F1); try done.
    exists (X1, Y1), s1. split; [done|]. unfold I. simpl.
    do 6 (split; [done|]).
    replace (n + (n + 0) + i * (n + (n + 0))) with (i * (2 * n) + 2 * n) by lia.
    eapply frame_trans; [exact Fi | exact F1 | by eapply frame_length |].
    intros l Hl. by apply elem_of_nil in Hl.
  - exists X', Y', s'. split; [done|]. exact H.
Qed.

(** With no iteration to run, [ALS] multiplies the factors [MakeXY] made. *)
Lemma ALS_zero (s : state) (Q : DenseMatrix) (q : list float64) (k : nat) :
  repr s Q q ->
  exists Q_hat s', ALS solve Q 0 k s = Ok Q_hat s'
    /\ repr s' Q_hat
         (mtimes (rows Q) k (cols Q)
            (initial_factors s (rows Q) (cols Q) k).1
            (initial_factors s (rows Q) (cols Q) k).2)
    /\ rows Q_hat = rows Q /\ cols Q_hat = cols Q
    /\ solves s' = solves s.
Proof.
  intros RQ. unfold ALS.
  destruct (MakeXY_ok s Q k)
    as (X & Y & s1 & E1 & RX & RY & HrX & HcX & HrY & HcY & BX & BY & P1 & O1 & S1).
  rewrite (bind_ok _ _ _ _ _ E1).
  assert (repr s1 Q q) as RQ1 by (by eapply repr_prefix).
  destruct (MakeWeightMatrix_ok s1 Q q RQ1) as (W & s2 & E2 & HW).
  rewrite (bind_ok _ _ _ _ _ E2).
  pose proof (repr_allocated _ _ _ _ _ _ _ _ _ RX HW) as RX2.
  pose proof (repr_allocated _ _ _ _ _ _ _ _ _ RY HW) as RY2.
  unfold ALS_loop, for_loop. simpl.
  destruct (TimesDense_ok s2 X Y _ _ RX2 RY2) as (C & s3 & E3 & HC); [lia|].
  rewrite (bind_ok _ _ _ _ _ (ret_ok (X, Y) s2)).
  rewrite (bind_ok _ _ _ _ _ E3). simpl.
  exists C, s3. split; [done|].
  destruct HC as (RC & HrC & HcC & _ & FC). rewrite HrX, HcX, HcY in *.
  do 3 (split; [done|]).
  destruct HW as (_ & _ & _ & _ & FW).
  destruct FC as (_ & _ & _ & _ & _ & FC). destruct FW as (_ & _ & _ & _ & _ & FW).
  lia.
Qed.

(** [ALS] on a square rating matrix with as many factors as rows. *)
Lemma ALS_ok (s : state) (Q : DenseMatrix) (q : list float64) (n : nat) (T : Z) :
  repr s Q q -> rows Q = n -> cols Q = n -> 0 < n ->
  exists Q_hat s', ALS solve Q T n s = Ok Q_hat s'
    /\ repr s' Q_hat
         (mtimes n n n
            (Nat.iter (Z.to_nat T) (alternation solve n q) (initial_factors s n n n)).1
            (Nat.iter (Z.to_nat T) (alternation solve n q) (initial_factors s n n n)).2)
    /\ rows Q_hat = n /\ cols Q_hat = n
    /\ repr s' Q q
    /\ solves s' = solves s + Z.to_nat T * (2 * n)
    /\ stdout s' = stdout s.
Proof.
  intros RQ HrQ HcQ Hn. unfold ALS.
  destruct (MakeXY_ok s Q n)
    as (X & Y & s1 & E1 & RX & RY & HrX & HcX & HrY & HcY & BX & BY & P1 & O1 & S1).
  rewrite (bind_ok _ _ _ _ _ E1). rewrite HrQ, HcQ in *.
  assert (repr s1 Q q) as RQ1 by (by eapply repr_prefix).
  destruct (MakeWeightMatrix_ok s1 Q q RQ1) as (W & s2 & E2 & HW).
  rewrite (bind_ok _ _ _ _ _ E2).
  pose proof (repr_allocated _ _ _ _ _ _ _ _ _ RX HW) as RX2.
  pose proof (repr_allocated _ _ _ _ _ _ _ _ _ RY HW) as RY2.
  pose proof (repr_allocated _ _ _ _ _ _ _ _ _ RQ1 HW) as RQ2.
  destruct (ALS_loop_ok s2 Q X Y q _ _ n T RQ2 RX2 RY2)
    as (X' & Y' & s3 & E3 & RX' & RY' & D1 & D2 & D3 & D4 & F3); try done.
  rewrite (bind_ok _ _ _ _ _ E3). simpl.
  destruct (TimesDense_ok s3 X' Y' _ _ RX' RY') as (C & s4 & E4 & HC); [lia|].
  rewrite (bind_ok _ _ _ _ _ E4). simpl.
  exists C, s4. split; [done|].
  pose proof HC as (RC & HrC & HcC & _ & FC). rewrite D1, D2, D4 in *.
  assert (initial_factors s n n n
          = ((initial_factors s n n n).1, (initial_factors s n n n).2)) as Ei by done.
  rewrite Ei. do 3 (split; [done|]).
  assert (repr s3 Q q) as RQ3.
  { eapply repr_frame; [exact RQ2 | exact F3 | by eapply repr_bound |
                        apply not_elem_of_nil]. }
  split; [by eapply repr_allocated|].
  destruct HW as (_ & _ & _ & _ & FW).
  destruct FC as (_ & _ & _ & _ & FC1 & FC2).
  destruct FW as (_ & _ & _ & _ & FW1 & FW2).
  destruct F3 as (_ & _ & _ & _ & F31 & F32).
  split; [lia | congruence].
Qed.

End LoopProofs.

(** ** The order of the floats *)

Module F64Facts.

Ltac compare_cases :=
  repeat match goal with
  | H : context [Z.compare ?a ?b] |- _ => destruct (Z.compare_spec a b)
  | |- context [Z.compare ?a ?b] => destruct (Z.compare_spec a b)
  | H : context [Pos.compare_cont Eq ?a ?b] |- _ =>
      change (Pos.compare_cont Eq a b) with (Pos.compare a b) in *
  | |- context [Pos.compare_cont Eq ?a ?b] =>
      change (Pos.compare_cont Eq a b) with (Pos.compare a b) in *
  | H : context [Pos.compare ?a ?b] |- _ => destruct (Pos.compare_spec a b)
  | |- context [Pos.compare ?a ?b] => destruct (Pos.compare_spec a b)
  end.

Lemma ltb_irrefl (x : float64) : F64.ltb x x = false.
Proof.
  unfold F64.ltb, SFltb, SFcompare.
  destruct x as [[]|[]| |[] m e]; simpl; try done;
    rewrite Z.compare_refl; simpl.
  - change (Pos.compare_cont Eq m m) with (Pos.compare m m).
    by rewrite Pos.compare_refl.
  - change (Pos.compare_cont Eq m m) with (Pos.compare m m).
    by rewrite Pos.compare_refl.
Qed.

Lemma ltb_asym (x y : float64) : F64.ltb x y = true -> F64.ltb y x = false.
Proof.
  unfold F64.ltb, SFltb, SFcompare.
  destruct x as [[]|[]| |[] m e], y as [[]|[]| |[] m' e']; simpl; try done;
    intros H; compare_cases; simpl in *; try done; try lia.
Qed.

(** Nothing above [m] is above a float greater than [m]. *)
Lemma ltb_bound (m m' v : float64) :
  F64.ltb m v = false -> F64.ltb m m' = true -> F64.ltb m' v = false.
Proof.
  unfold F64.ltb, SFltb, SFcompare.
  destruct m as [[]|[]| |[] a e], m' as [[]|[]| |[] a' e'], v as [[]|[]| |[] b f];
    simpl; try done; intros H1 H2; compare_cases; simpl in *; try done; try lia.
Qed.

Lemma eqb_zero (x : float64) :
  F64.eqb x F64.zero = true <-> x = S754_zero false \/ x = S754_zero true.
Proof.
  unfold F64.eqb, SFeqb, SFcompare, F64.zero.
  destruct x as [[]|[]| |[] m e]; simpl; split; intros H; try done; auto;
    destruct H as [H|H]; done.
Qed.

Lemma is_missing_spec (x : float64) : is_missing x = true <-> missing_sentinel x.
Proof.
  unfold is_missing, missing_sentinel. rewrite orb_true_iff, eqb_zero.
  unfold F64.IsNaN. destruct x; split; intros H; try done; intuition (try done; eauto).
Qed.

End F64Facts.

(** ** [MatrixMax] *)

Lemma MatrixMax_ok (s : state) (A : DenseMatrix) (v : list float64) :
  repr s A v ->
  exists s', MatrixMax A s = Ok (fold_left max_step v F64.zero) s'
    /\ frame (length (heap s)) [] 0 s s'.
Proof.
  intros R. unfold MatrixMax.
  destruct (Array_ok s A v R) as (values & s1 & E1 & H1 & L1 & F1 & _).
  rewrite (bind_ok _ _ _ _ _ E1). exists s1. split; [|done].
  exact (fold_loop max_step values v s1 F64.zero H1).
Qed.

Lemma running_max_greatest (v : list float64) (m : float64) (seen : list float64) :
  is_greatest m seen -> is_greatest (fold_left max_step v m) (seen ++ v).
Proof.
  revert m seen. induction v as [|x v IH]; intros m seen Hm.
  - by rewrite app_nil_r.
  - simpl. replace (seen ++ x :: v) with ((seen ++ [x]) ++ v) by (by rewrite <- app_assoc).
    apply IH. destruct Hm as [Hin Hub]. unfold max_step.
    destruct (F64.gtb x m) eqn:Hx.
    + split; [apply elem_of_app; right; by apply list_elem_of_singleton|].
      intros y Hy. apply elem_of_app in Hy as [Hy|Hy].
      * unfold F64.gtb in *. eapply F64Facts.ltb_bound; [by apply Hub | done].
      * apply list_elem_of_singleton in Hy as ->. apply F64Facts.ltb_irrefl.
    + split; [apply elem_of_app; by left|].
      intros y Hy. apply elem_of_app in Hy as [Hy|Hy]; [by apply Hub|].
      by apply list_elem_of_singleton in Hy as ->.
Qed.

Lemma running_max_negative (v : list float64) :
  all_negative v -> fold_left max_step v F64.zero = F64.zero.
Proof.
  induction v as [|x v IH]; intros Hneg; [done|]. simpl.
  assert (max_step F64.zero x = F64.zero) as ->.
  { unfold max_step, F64.gtb. rewrite F64Facts.ltb_asym; [done|].
    apply Hneg. by left. }
  apply IH. intros y Hy. apply Hneg. by right.
Qed.

(** The running maximum is a number, and the maximum of what was seen. *)
Lemma gtb_number (x m : float64) : F64.gtb x m = true -> F64.IsNaN x = false.
Proof. unfold F64.gtb, F64.ltb, SFltb, SFcompare. by destruct m, x. Qed.

(** Among numbers, what does not exceed [m] is at most [m]. *)
Lemma leb_of_not_gtb (x m : float64) :
  F64.IsNaN x = false -> F64.IsNaN m = false -> F64.gtb x m = false -> F64.leb x m = true.
Proof.
  unfold F64.gtb, F64.ltb, F64.leb, SFltb, SFleb, SFcompare, F64.IsNaN.
  destruct x as [[]|[]| |[] a e], m as [[]|[]| |[] a' e'];
    simpl; try done; intros _ _ H; F64Facts.compare_cases; simpl in *; try done; try lia.
Qed.

Lemma leb_antisym (x y : float64) :
  F64.leb x y = true -> F64.leb y x = true -> F64.eqb x y = true.
Proof.
  unfold F64.leb, F64.eqb, SFleb, SFeqb, SFcompare.
  destruct x as [[]|[]| |[] a e], y as [[]|[]| |[] a' e'];
    simpl; try done; intros H1 H2; F64Facts.compare_cases; simpl in *; try done; try lia.
Qed.

Lemma running_max_number (v : list float64) (m : float64) :
  F64.IsNaN m = false -> F64.IsNaN (fold_left max_step v m) = false.
Proof.
  revert m. induction v as [|x v IH]; intros m Hm; [done|]. simpl. apply IH.
  unfold max_step. destruct (F64.gtb x m) eqn:E; [by eapply gtb_number | done].
Qed.

Lemma greatest_number_maximum (m : float64) (l : list float64) :
  is_greatest m l -> F64.IsNaN m = false -> is_maximum m l.
Proof.
  intros [Hin Hub] Hm. split; [done|]. split; [done|].
  intros x Hx Hn. apply leb_of_not_gtb; auto.
Qed.

Lemma is_maximum_unique (m m' : float64) (l : list float64) :
  is_maximum m l -> is_maximum m' l -> F64.eqb m' m = true.
Proof.
  intros (Hin & Hn & Hub) (Hin' & Hn' & Hub'). apply leb_antisym; auto.
Qed.

(** ** [SimpleTimes], [SumMatrix] and [GetError] *)

Lemma slice_eq (a b : slice) : base a = base b -> len a = len b -> a = b.
Proof. destruct a, b. simpl. by intros -> ->. Qed.

Lemma SimpleTimes_ok (s : state) (mat weight : DenseMatrix) (a b : list float64) :
  repr s mat a -> repr s weight b -> length a = length b ->
  exists P s', SimpleTimes (Some mat) (Some weight) s = Ok (Some P) s'
    /\ repr s' P (zip_with F64.mul b a)
    /\ rows P = rows mat /\ cols P = cols mat
    /\ (base (elements P) = base (elements mat) \/ length (heap s) <= base (elements P))
    /\ frame (length (heap s)) [base (elements mat)] 0 s s'.
Proof.
  intros Rm Rw Lab. unfold SimpleTimes.
  pose proof (repr_bound _ _ _ Rm) as Bm. pose proof (repr_bound _ _ _ Rw) as Bw.
  pose proof (repr_length _ _ _ Rm) as Lm.
  rewrite (bind_ok _ _ _ _ _ (ret_ok mat s)).
  destruct (Array_ok s mat a Rm) as (a1 & s1 & E1 & H1 & L1 & F1 & _).
  rewrite (bind_ok _ _ _ _ _ E1). simpl.
  rewrite (bind_ok _ _ _ _ _ (ret_ok weight s1)).
  assert (forall (W : DenseMatrix) (w : list float64) (sa sb : state),
            frame (length (heap s)) [] 0 s sa -> frame (length (heap sa)) [] 0 sa sb ->
            frame (length (heap s)) [] 0 s sb) as Fstep.
  { intros W w sa sb Fa Fb. change 0 with (0 + 0).
    eapply frame_trans; [exact Fa | exact Fb | by eapply frame_length |].
    intros l Hl. by apply elem_of_nil in Hl. }
  assert (forall (W : DenseMatrix) (w : list float64) (sa : state),
            repr s W w -> frame (length (heap s)) [] 0 s sa -> repr sa W w) as T.
  { intros W w sa R F. eapply repr_frame; [exact R | exact F | by eapply repr_bound |].
    apply not_elem_of_nil. }
  destruct (Array_ok s1 weight b (T _ _ _ Rw F1)) as (a2 & s2 & E2 & H2 & L2 & F2 & _).
  rewrite (bind_ok _ _ _ _ _ E2).
  pose proof (Fstep mat a _ _ F1 F2) as F02.
  rewrite decide_False by lia.
  destruct (Array_ok s2 weight b (T _ _ _ Rw F02)) as (wa & s3 & E3 & H3 & L3 & F3 & C3).
  rewrite (bind_ok _ _ _ _ _ E3).
  pose proof (Fstep mat a _ _ F02 F3) as F03.
  destruct (Array_ok s3 mat a (T _ _ _ Rm F03)) as (mv & s4 & E4 & H4 & L4 & F4 & C4).
  rewrite (bind_ok _ _ _ _ _ E4).
  pose proof (Fstep mat a _ _ F03 F4) as F04.
  assert (holds s4 wa b) as H3'.
  { eapply holds_frame; [exact H3 | exact F4 | by eapply holds_bound |
                         apply not_elem_of_nil]. }
  set (new := zip_with F64.mul b a).
  assert (length new = len mv) as Ln by (unfold new; rewrite length_zip_with; lia).
  assert (length a = len mv) as Lo by lia.
  pose proof (holds_bound _ _ _ H4) as Bmv.
  assert (forall i y, i < len mv -> new !! i = Some y ->
    (w ← slice_get wa i; x ← slice_get mv i; slice_set mv i (F64.mul w x))
      (filled mv (heap s4) (fun _ => s4) a new i)
    = Ok tt (set_heap (<[base mv := <[i := y]> (take i new ++ drop i a)]> (heap s4)) s4))
    as Hbody.
  { intros i y Hi Hy. unfold new in Hy. rewrite lookup_zip_with in Hy.
    destruct (b !! i) as [bi|] eqn:Hbi; [|done].
    destruct (a !! i) as [ai|] eqn:Hai; [|done]. simpl in Hy. injection Hy as <-.
    pose proof (holds_filled mv (heap s4) (fun _ => s4) a new i Bmv Lo Ln) as Hcur.
    assert ((take i new ++ drop i a) !! i = Some ai) as Hcur_i
      by (rewrite filled_lookup by lia; done).
    assert (slice_get wa i (filled mv (heap s4) (fun _ => s4) a new i)
            = Ok bi (filled mv (heap s4) (fun _ => s4) a new i)) as Ew.
    { destruct (decide (base wa = base mv)) as [Eb|Nb].
      - assert (a = b) as ->.
        { destruct H3' as [H3' _], H4 as [H4 _]. rewrite Eb in H3'. congruence. }
        rewrite (slice_eq wa mv Eb ltac:(lia)).
        eapply slice_get_ok; [exact Hcur|]. congruence.
      - eapply slice_get_ok; [|exact Hbi].
        destruct H3' as [H3' H3'']. by apply holds_filled_other. }
    rewrite (bind_ok _ _ _ _ _ Ew).
    rewrite (bind_ok _ _ _ _ _ (slice_get_ok _ _ _ _ _ Hcur Hcur_i)).
    by apply slice_set_filled. }
  pose proof (fill_loop mv (heap s4) (fun _ => s4) a new
                (fun i _ => w ← slice_get wa i; x ← slice_get mv i;
                            slice_set mv i (F64.mul w x)) Lo Ln Hbody) as Hloop.
  rewrite filled_start, filled_end, set_heap_id in Hloop by (done || apply H4).
  rewrite (bind_ok _ _ _ _ _ Hloop).
  eexists _, _. split; [reflexivity|]. unfold Rows, Cols. simpl.
  split; [|split; [done|]; split; [done|]; split].
  - split; [done|]. split; [simpl; lia|]. split; simpl.
    + by apply list_lookup_insert_eq.
    + lia.
  - destruct C4 as [[-> _]|C4]; [by left|]. right.
    pose proof (frame_length _ _ _ _ _ F03). lia.
  - destruct F04 as (G1 & G2 & G3 & G4 & G5 & G6). unfold frame. simpl.
    repeat split; try done.
    + intros l Hl Hnot. rewrite list_lookup_insert_ne.
      * apply G1; [done | apply not_elem_of_nil].
      * intros <-. destruct C4 as [[-> _]|C4].
        -- apply Hnot. by apply list_elem_of_singleton.
        -- pose proof (frame_length _ _ _ _ _ F03). lia.
    + rewrite length_insert. lia.
Qed.

Lemma SumMatrix_ok (s : state) (A : DenseMatrix) (v : list float64) :
  repr s A v ->
  exists s', SumMatrix (Some A) s = Ok (fold_left F64.add v F64.zero) s'
    /\ frame (length (heap s)) [] 0 s s'.
Proof.
  intros R. unfold SumMatrix. rewrite (bind_ok _ _ _ _ _ (ret_ok A s)).
  destruct (Array_ok s A v R) as (values & s1 & E1 & H1 & L1 & F1 & _).
  rewrite (bind_ok _ _ _ _ _ E1). exists s1. split; [|done].
  exact (fold_loop F64.add values v s1 F64.zero H1).
Qed.

Lemma zip_with_entries (r c : nat) (f : float64 -> float64 -> float64)
    (a b : list float64) :
  length a = r * c -> length b = r * c ->
  zip_with f a b = mbuild r c (fun i j => f (entry c a i j) (entry c b i j)).
Proof.
  intros La Lb. apply mbuild_eq; [rewrite length_zip_with; lia|].
  intros i j Hi Hj. rewrite lookup_zip_with. unfold entry.
  destruct (lookup_lt_is_Some_2 a (i * c + j)) as [x ->]; [nia|].
  destruct (lookup_lt_is_Some_2 b (i * c + j)) as [y ->]; [nia|]. done.
Qed.

Lemma squared_residuals (r k c : nat) (w q x y : list float64) :
  length w = r * c -> length q = r * c ->
  fold_left F64.add
    (zip_with F64.mul (zip_with F64.mul w (msub q (mtimes r k c x y)))
                      (zip_with F64.mul w (msub q (mtimes r k c x y)))) F64.zero
  = weighted_squared_error r k c w q x y.
Proof.
  intros Lw Lq. unfold weighted_squared_error. f_equal.
  assert (length (msub q (mtimes r k c x y)) = r * c) as Ld
    by (rewrite msub_length; rewrite ?mtimes_length; lia).
  assert (length (zip_with F64.mul w (msub q (mtimes r k c x y))) = r * c) as Lp
    by (rewrite length_zip_with; lia).
  rewrite (zip_with_entries r c) by done. apply mbuild_ext. intros i j Hi Hj.
  unfold weighted_square. cbv zeta.
  assert (entry c (zip_with F64.mul w (msub q (mtimes r k c x y))) i j
          = F64.mul (entry c w i j)
              (F64.sub (entry c q i j) (entry c (mtimes r k c x y) i j))) as ->; [|done].
  rewrite (zip_with_entries r c F64.mul w) by done. rewrite entry_mbuild by done.
  f_equal. unfold msub. rewrite (zip_with_entries r c) by (rewrite ?mtimes_length; lia).
  by rewrite entry_mbuild.
Qed.

Lemma GetError_ok (s : state) (W Q X Y : DenseMatrix) (w q x y : list float64)
    (r k c : nat) :
  repr s W w -> repr s Q q -> repr s X x -> repr s Y y ->
  rows X = r -> cols X = k -> rows Y = k -> cols Y = c ->
  rows Q = r -> cols Q = c -> rows W = r -> cols W = c ->
  separate W Q ->
  exists s', GetError W Q X Y s = Ok (weighted_squared_error r k c w q x y) s'
    /\ frame (length (heap s)) [base (elements Q)] 0 s s'.
Proof.
  intros RW RQ RX RY HrX HcX HrY HcY HrQ HcQ HrW HcW Hsep. unfold GetError.
  pose proof (repr_bound _ _ _ RW) as BW. pose proof (repr_bound _ _ _ RQ) as BQ.
  pose proof (repr_length _ _ _ RW) as LW. pose proof (repr_length _ _ _ RQ) as LQ.
  destruct (TimesDense_ok s X Y x y RX RY) as (dot & s1 & E1 & H1); [lia|].
  rewrite (bind_ok _ _ _ _ _ E1). simpl.
  rewrite (bind_ok _ _ _ _ _ (ret_ok tt s1)).
  pose proof H1 as (Rd & Hrd & Hcd & Hbd & F1). rewrite HrX, HcX, HcY in *.
  pose proof (repr_allocated _ _ _ _ _ _ _ _ _ RQ H1) as RQ1.
  pose proof (repr_allocated _ _ _ _ _ _ _ _ _ RW H1) as RW1.
  destruct (SubtractDense_ok s1 Q dot _ _ RQ1 Rd) as (s2 & E2 & U2); [lia | lia |].
  rewrite (bind_ok _ _ _ _ _ E2). simpl.
  rewrite (bind_ok _ _ _ _ _ (ret_ok tt s2)).
  pose proof U2 as (RQ2 & L2 & F2).
  pose proof (repr_updated _ _ _ _ _ _ RW1 U2 Hsep) as RW2.
  destruct (SimpleTimes_ok s2 Q W _ _ RQ2 RW2) as (P & s3 & E3 & RP & HrP & HcP & BP & F3).
  { rewrite msub_length; rewrite ?mtimes_length; lia. }
  rewrite (bind_ok _ _ _ _ _ E3).
  destruct (SimpleTimes_ok s3 P P _ _ RP RP eq_refl)
    as (S & s4 & E4 & RS & HrS & HcS & BS & F4).
  rewrite (bind_ok _ _ _ _ _ E4).
  destruct (SumMatrix_ok s4 S _ RS) as (s5 & E5 & F5).
  rewrite (bind_ok _ _ _ _ _ E5). simpl.
  exists s5. split.
  - unfold mret, M_ret. f_equal. rewrite HrW, HcW in LW. rewrite HrQ, HcQ in LQ.
    by apply squared_residuals.
  - pose proof (frame_length _ _ _ _ _ F1) as G1.
    pose proof (frame_length _ _ _ _ _ F3) as G3.
    pose proof (frame_length _ _ _ _ _ F4) as G4.
    change 0 with (0 + 0 + 0 + 0 + 0).
    eapply frame_trans; [| exact F5 | lia | intros l Hl; by apply elem_of_nil in Hl].
    eapply frame_trans; [| exact F4 | lia |].
    + eapply frame_trans; [| exact F3 | lia |].
      * eapply frame_trans; [| exact (F2 (length (heap s))) | lia |].
        -- eapply frame_weaken; [exact F1 | lia |].
           intros l Hl. by apply elem_of_nil in Hl.
        -- intros l Hl _. exact Hl.
      * intros l Hl _. exact Hl.
    + intros l Hl Hlt. apply list_elem_of_singleton in Hl. subst l.
      apply list_elem_of_singleton. lia.
Qed.

(** ** [argmax] *)

Module ArgmaxFacts.

Import F64Facts.

Lemma ltb_trans (a b c : float64) :
  F64.ltb a b = true -> F64.ltb b c = true -> F64.ltb a c = true.
Proof.
  unfold F64.ltb, SFltb, SFcompare.
  destruct a as [[]|[]| |[] a e], b as [[]|[]| |[] a' e'], c as [[]|[]| |[] b f];
    simpl; try done; intros H1 H2; compare_cases; simpl in *; try done; try lia.
Qed.

(** What does not exceed [a] is not-a-number or below what exceeds [a]. *)
Lemma ltb_below (a m y : float64) :
  F64.ltb a y = false -> F64.ltb a m = true ->
  F64.IsNaN y = true \/ F64.ltb y m = true.
Proof.
  unfold F64.ltb, SFltb, SFcompare, F64.IsNaN.
  destruct a as [[]|[]| |[] a e], m as [[]|[]| |[] a' e'], y as [[]|[]| |[] b f];
    simpl; try done; intros H1 H2; auto; right;
    compare_cases; simpl in *; try done; try lia.
Qed.

Lemma scanned_step (pre : list float64) (st : nat * float64) (x : float64) :
  scanned pre st -> scanned (pre ++ [x]) (scan_step st (length pre, x)).
Proof.
  intros [Hub Hcase]. unfold scan_step. simpl.
  destruct (F64.gtb x st.2) eqn:Hx; split; simpl.
  - intros y Hy. apply elem_of_app in Hy as [Hy|Hy].
    + unfold F64.gtb in *. eapply ltb_bound; [by apply Hub | done].
    + apply list_elem_of_singleton in Hy as ->. apply ltb_irrefl.
  - right. split; [|split].
    + rewrite lookup_app_r by lia. by rewrite Nat.sub_diag.
    + destruct Hcase as [[-> _]|(_ & Hpos & _)]; [done|].
      unfold F64.gtb in *. by eapply ltb_trans.
    + intros j y Hj Hy. rewrite lookup_app_l in Hy by lia.
      apply list_elem_of_lookup_2 in Hy. unfold F64.gtb in *.
      eapply ltb_below; [by apply Hub | done].
  - intros y Hy. apply elem_of_app in Hy as [Hy|Hy]; [by apply Hub|].
    by apply list_elem_of_singleton in Hy as ->.
  - destruct Hcase as [[-> Hall]|(Hat & Hpos & Hbefore)].
    + left. split; [done|]. intros y Hy.
      apply elem_of_app in Hy as [Hy|Hy]; [by apply Hall|].
      by apply list_elem_of_singleton in Hy as ->.
    + right. pose proof (lookup_lt_Some _ _ _ Hat) as Hlt.
      split; [by rewrite lookup_app_l|]. split; [done|].
      intros j y Hj Hy. rewrite lookup_app_l in Hy by lia. by eapply Hbefore.
Qed.

Lemma scanned_all (rest pre : list float64) (st : nat * float64) :
  scanned pre st ->
  scanned (pre ++ rest)
          (fold_left scan_step (imap (fun i x => (length pre + i, x)) rest) st).
Proof.
  revert pre st. induction rest as [|x rest IH]; intros pre st H.
  - simpl. by rewrite app_nil_r.
  - simpl. rewrite Nat.add_0_r.
    replace (pre ++ x :: rest) with ((pre ++ [x]) ++ rest) by (by rewrite <- app_assoc).
    assert (imap ((fun i x0 => (length pre + i, x0)) ∘ S) rest
            = imap (fun i x0 => (length (pre ++ [x]) + i, x0)) rest) as ->.
    { apply imap_ext. intros i y _. simpl. rewrite length_app. simpl. f_equal. lia. }
    apply IH. by apply scanned_step.
Qed.

(** [argmax] returns [0] for a row with no element above zero; otherwise
    it returns the index of an element that no element exceeds, and every
    element before it is strictly below it (or not a number): among equal
    greatest elements the one of lowest index wins. *)
Lemma argmax_spec (l : list float64) :
  ((forall x, x ∈ l -> F64.gtb x F64.zero = false) /\ argmax l = 0)
  \/ (exists m, l !! argmax l = Some m /\ F64.gtb m F64.zero = true
        /\ (forall x, x ∈ l -> F64.gtb x m = false)
        /\ forall j y, j < argmax l -> l !! j = Some y ->
             F64.IsNaN y = true \/ F64.gtb m y = true).
Proof.
  assert (scanned [] (0, F64.zero)) as H0.
  { split; [intros x Hx; by apply elem_of_nil in Hx|]. left. split; [done|].
    intros x Hx. by apply elem_of_nil in Hx. }
  pose proof (scanned_all l [] (0, F64.zero) H0) as H.
  assert (argmax l
          = (fold_left scan_step (imap (fun i x => (length (@nil float64) + i, x)) l)
                       (0, F64.zero)).1) as E by reflexivity.
  rewrite E. simpl app in H.
  destruct H as [Hub [[E0 Hall]|(Hat & Hpos & Hbefore)]].
  - left. rewrite E0. done.
  - right. eexists. split; [exact Hat|]. done.
Qed.

End ArgmaxFacts.

(** ** [MatrixMinMinus] and [Predict] *)

Lemma repr_same_heap (s s' : state) (A : DenseMatrix) (v : list float64) :
  repr s A v -> heap s' = heap s -> repr s' A v.
Proof.
  intros (E1 & E2 & H & L) E. repeat split; try done. by rewrite E.
Qed.

Lemma MatrixMinMinus_ok (s : state) (A : DenseMatrix) (a : list float64) :
  repr s A a ->
  exists C s', MatrixMinMinus A s = Ok C s'
    /\ repr s' C (shifted a)
    /\ rows C = rows A /\ cols C = cols A
    /\ (base (elements C) = base (elements A) \/ length (heap s) <= base (elements C))
    /\ frame (length (heap s)) [base (elements A)] 0 s s'.
Proof.
  intros R. unfold MatrixMinMinus.
  pose proof (repr_bound _ _ _ R) as BA. pose proof (repr_length _ _ _ R) as LA.
  destruct (Array_ok s A a R) as (values & s1 & E1 & H1 & L1 & F1 & C1).
  rewrite (bind_ok _ _ _ _ _ E1).
  set (min := fold_left (fun min x => if F64.ltb x min then x else min) a F64.hundred).
  rewrite (bind_ok _ _ _ _ _
    (fold_loop (fun min x => if F64.ltb x min then x else min) values a s1 F64.hundred H1)).
  fold min.
  assert (length (shifted a) = len values) as Ln
    by (unfold shifted; rewrite length_fmap; lia).
  assert (length a = len values) as Lo by lia.
  pose proof (holds_bound _ _ _ H1) as Bv.
  assert (forall i y, i < len values -> shifted a !! i = Some y ->
    (x ← slice_get values i; slice_set values i (F64.sub x min))
      (filled values (heap s1) (fun _ => s1) a (shifted a) i)
    = Ok tt (set_heap (<[base values := <[i := y]> (take i (shifted a) ++ drop i a)]>
                         (heap s1)) s1)) as Hbody.
  { intros i y Hi Hy. unfold shifted in Hy. rewrite list_lookup_fmap in Hy. fold min in Hy.
    destruct (a !! i) as [ai|] eqn:Hai; [|done]. simpl in Hy. injection Hy as <-.
    pose proof (holds_filled values (heap s1) (fun _ => s1) a (shifted a) i Bv Lo Ln)
      as Hcur.
    assert ((take i (shifted a) ++ drop i a) !! i = Some ai) as Hcur_i
      by (rewrite filled_lookup by lia; done).
    rewrite (bind_ok _ _ _ _ _ (slice_get_ok _ _ _ _ _ Hcur Hcur_i)).
    by apply slice_set_filled. }
  pose proof (fill_loop values (heap s1) (fun _ => s1) a (shifted a)
                (fun i _ => x ← slice_get values i; slice_set values i (F64.sub x min))
                Lo Ln Hbody) as Hloop.
  rewrite filled_start, filled_end, set_heap_id in Hloop by (done || apply H1).
  rewrite (bind_ok _ _ _ _ _ Hloop).
  eexists _, _. split; [reflexivity|]. unfold Rows, Cols. simpl.
  split; [|split; [done|]; split; [done|]; split].
  - split; [done|]. split; [simpl; lia|]. split; simpl.
    + by apply list_lookup_insert_eq.
    + lia.
  - destruct C1 as [[-> _]|C1]; [by left | right; lia].
  - destruct F1 as (G1 & G2 & G3 & G4 & G5 & G6). unfold frame. simpl.
    repeat split; try done.
    + intros l Hl Hnot. rewrite list_lookup_insert_ne.
      * apply G1; [done | apply not_elem_of_nil].
      * intros <-. destruct C1 as [[-> _]|C1]; [|lia].
        apply Hnot. by apply list_elem_of_singleton.
    + rewrite length_insert. lia.
Qed.

(** The state after [Predict] has printed its first [i] lines. *)
Lemma Predict_loop (s : state) (Q_hat : DenseMatrix) (h : list float64) (r c : nat) :
  repr s Q_hat h -> rows Q_hat = r -> cols Q_hat = c ->
  for_loop 0 r (fun i max_indices =>
    i_row ← rowSlice Q_hat i;
    let max_indices := <[i := argmax i_row]> max_indices in
    print (PrintedPrediction i (argmax i_row));;
    mret max_indices) (replicate r 0) s
  = Ok (predictions r c h)
       {| heap := heap s; rand := rand s; drawn := drawn s;
          stdout := stdout s ++ printed_predictions r c h; solves := solves s |}.
Proof.
  intros R Hr Hc. pose proof (repr_length _ _ _ R) as L. rewrite Hr, Hc in L.
  destruct R as (Es & _ & [Hh _]). rewrite Hc in Es.
  set (st := fun i => {| heap := heap s; rand := rand s; drawn := drawn s;
                         stdout := stdout s ++ take i (printed_predictions r c h);
                         solves := solves s |}).
  destruct (for_loop_inv
    (fun i acc si => si = st i
                     /\ acc = take i (predictions r c h) ++ drop i (replicate r 0))
    (fun i max_indices =>
       i_row ← rowSlice Q_hat i;
       let max_indices := <[i := argmax i_row]> max_indices in
       print (PrintedPrediction i (argmax i_row));;
       mret max_indices) r (replicate r 0) s) as (acc & sf & E & -> & ->).
  - split; [|done]. unfold st. rewrite take_0, app_nil_r. by destruct s.
  - intros i acc si Hi [-> ->].
    assert (rowSlice Q_hat i (st i) = Ok (take c (drop (i * c) h)) (st i)) as Erow.
    { unfold rowSlice. simpl. rewrite Hh, Es, Hc. rewrite decide_True by nia. done. }
    rewrite (bind_ok _ _ _ _ _ Erow). cbv zeta.
    eexists _, _. split; [reflexivity|]. simpl.
    assert (predictions r c h !! i = Some (argmax (take c (drop (i * c) h)))) as Hp.
    { unfold predictions. rewrite list_lookup_fmap, lookup_seq_lt by lia. done. }
    assert (printed_predictions r c h !! i
            = Some (PrintedPrediction i (argmax (take c (drop (i * c) h))))) as Hq.
    { unfold printed_predictions. rewrite list_lookup_fmap, lookup_seq_lt by lia. done. }
    split.
    + unfold st. f_equal. rewrite (take_S_r _ _ _ Hq). by rewrite app_assoc.
    + apply insert_take_drop_step; [done | by rewrite length_replicate].
  - rewrite E. f_equal.
    + rewrite take_ge, drop_ge, app_nil_r; [done | rewrite length_replicate; lia |].
      unfold predictions. rewrite length_fmap, length_seq. lia.
    + unfold st. f_equal. rewrite take_ge; [done|].
      unfold printed_predictions. rewrite length_fmap, length_seq. lia.
Qed.

(** [Predict], for every input: the indices returned are those of
    [argmax] on the rows of the argument [Q_hat]; the adjusted scores end
    up in a matrix of their own that is not looked at; and [W] is left
    scaled by the greatest rating. *)
Lemma Predict_ok (s : state) (W Q Q_hat : DenseMatrix) (w q h : list float64) (r c : nat) :
  repr s W w -> repr s Q q -> repr s Q_hat h ->
  rows W = r -> cols W = c -> rows Q = r -> cols Q = c ->
  rows Q_hat = r -> cols Q_hat = c ->
  separate W Q -> separate W Q_hat ->
  exists s', Predict W Q Q_hat s = Ok (predictions r c h) s'
    /\ repr s' W (mscale (fold_left max_step q F64.zero) w)
    /\ repr s' Q q /\ repr s' Q_hat h
    /\ (exists Qhat, repr s' Qhat (adjusted_scores w q h)
                     /\ length (heap s) <= base (elements Qhat))
    /\ stdout s' = stdout s ++ printed_predictions r c h.
Proof.
  intros RW RQ RH HrW HcW HrQ HcQ HrH HcH SWQ SWH. unfold Predict.
  pose proof (repr_bound _ _ _ RW) as BW. pose proof (repr_bound _ _ _ RQ) as BQ.
  pose proof (repr_bound _ _ _ RH) as BH.
  destruct (Copy_ok s Q_hat h RH) as (C1 & s1 & E1 & A1).
  rewrite (bind_ok _ _ _ _ _ E1).
  pose proof (allocated_bound _ _ _ _ _ _ _ A1) as Hb1.
  pose proof (repr_allocated _ _ _ _ _ _ _ _ _ RW A1) as RW1.
  pose proof (repr_allocated _ _ _ _ _ _ _ _ _ RQ A1) as RQ1.
  pose proof (repr_allocated _ _ _ _ _ _ _ _ _ RH A1) as RH1.
  destruct A1 as (RC1 & HrC1 & HcC1 & _ & _).
  destruct (MatrixMinMinus_ok s1 C1 h RC1)
    as (C2 & s2 & E2 & RC2 & HrC2 & HcC2 & BC2 & F2).
  rewrite (bind_ok _ _ _ _ _ E2).
  pose proof (frame_length _ _ _ _ _ F2) as L2.
  assert (forall (A : DenseMatrix) (v : list float64),
            repr s1 A v -> base (elements A) < length (heap s) -> repr s2 A v) as T2.
  { intros A v R B. eapply repr_frame; [exact R | exact F2 | lia |].
    intros Hin. apply list_elem_of_singleton in Hin. lia. }
  pose proof (T2 _ _ RW1 BW) as RW2. pose proof (T2 _ _ RQ1 BQ) as RQ2.
  pose proof (T2 _ _ RH1 BH) as RH2.
  destruct (MatrixMax_ok s2 Q q RQ2) as (s3 & E3 & F3).
  rewrite (bind_ok _ _ _ _ _ E3).
  pose proof (frame_length _ _ _ _ _ F3) as L3.
  assert (forall (A : DenseMatrix) (v : list float64) (sa sb : state),
            frame (length (heap sa)) [] 0 sa sb -> repr sa A v -> repr sb A v) as T.
  { intros A v sa sb F R. eapply repr_frame; [exact R | exact F | by eapply repr_bound |].
    apply not_elem_of_nil. }
  pose proof (T _ _ _ _ F3 RC2) as RC3.
  destruct (MatrixMax_ok s3 C2 _ RC3) as (s4 & E4 & F4).
  rewrite (bind_ok _ _ _ _ _ E4). cbv zeta.
  pose proof (frame_length _ _ _ _ _ F4) as L4.
  pose proof (T _ _ _ _ F4 RC3) as RC4.
  pose proof (T _ _ _ _ F4 (T _ _ _ _ F3 RW2)) as RW4.
  pose proof (T _ _ _ _ F4 (T _ _ _ _ F3 RQ2)) as RQ4.
  pose proof (T _ _ _ _ F4 (T _ _ _ _ F3 RH2)) as RH4.
  assert (length (heap s) <= base (elements C2)) as BC2' by lia.
  destruct (Scale_ok s4 C2 _
              (F64.div (fold_left max_step q F64.zero)
                       (fold_left max_step (shifted h) F64.zero)) RC4)
    as (s5 & E5 & U5).
  rewrite (bind_ok _ _ _ _ _ E5).
  assert (forall A : DenseMatrix, base (elements A) < length (heap s) -> separate A C2)
    as SepC2 by (intros A B; unfold separate; lia).
  pose proof (repr_updated _ _ _ _ _ _ RW4 U5 (SepC2 _ BW)) as RW5.
  pose proof (repr_updated _ _ _ _ _ _ RQ4 U5 (SepC2 _ BQ)) as RQ5.
  pose proof (repr_updated _ _ _ _ _ _ RH4 U5 (SepC2 _ BH)) as RH5.
  destruct (Scale_ok s5 W _ (fold_left max_step q F64.zero) RW5) as (s6 & E6 & U6).
  rewrite (bind_ok _ _ _ _ _ E6).
  assert (separate C2 W) as SepW by (unfold separate; lia).
  pose proof (repr_updated _ _ _ _ _ _ (updated_repr _ _ _ _ U5) U6 SepW) as RC6.
  pose proof (repr_updated _ _ _ _ _ _ RQ5 U6 (fun E => SWQ (eq_sym E))) as RQ6.
  pose proof (repr_updated _ _ _ _ _ _ RH5 U6 (fun E => SWH (eq_sym E))) as RH6.
  destruct (SubtractDense_ok s6 C2 W _ _ RC6 (updated_repr _ _ _ _ U6))
    as (s7 & E7 & U7); [lia | lia |].
  rewrite (bind_ok _ _ _ _ _ E7). simpl.
  rewrite (bind_ok _ _ _ _ _ (ret_ok tt s7)).
  pose proof (repr_updated _ _ _ _ _ _ (updated_repr _ _ _ _ U6) U7 (SepC2 _ BW)) as RW7.
  pose proof (repr_updated _ _ _ _ _ _ RQ6 U7 (SepC2 _ BQ)) as RQ7.
  pose proof (repr_updated _ _ _ _ _ _ RH6 U7 (SepC2 _ BH)) as RH7.
  unfold Rows. rewrite HrC2, HrC1, HrH.
  pose proof (Predict_loop s7 Q_hat h r c RH7 HrH HcH) as Hloop.
  cbv zeta in Hloop. rewrite Hloop.
  eexists. split; [reflexivity|].
  split; [by eapply repr_same_heap|]. split; [by eapply repr_same_heap|].
  split; [by eapply repr_same_heap|]. split; [|simpl].
  - exists C2. split; [|done]. eapply repr_same_heap; [exact (updated_repr _ _ _ _ U7)|done].
  - f_equal. destruct U7 as (_ & _ & G7). destruct U6 as (_ & _ & G6).
    destruct U5 as (_ & _ & G5).
    destruct (G7 0) as (_ & _ & _ & _ & O7 & _). destruct (G6 0) as (_ & _ & _ & _ & O6 & _).
    destruct (G5 0) as (_ & _ & _ & _ & O5 & _).
    destruct F4 as (_ & _ & _ & _ & O4 & _). destruct F3 as (_ & _ & _ & _ & O3 & _).
    destruct F2 as (_ & _ & _ & _ & O2 & _).
    rewrite O7, O6, O5, O4, O3, O2.
    assert (stdout s1 = stdout s) as ->; [|done].
    revert E1. unfold Copy. rewrite (bind_ok _ _ _ _ _ (load_ok _ _ _ RH)).
    unfold new_matrix. intros E1. by injection E1 as _ <-.
Qed.

(** * The claims *)

Import Examples.

Ltac concrete_repr := repeat split; reflexivity.

(** ** C1: the alternation *)

(** C1, as amended. For a square [n] by [n] rating matrix with [n]
    factors, [ALS] runs to completion for every iteration budget [T] — the
    budget is the only thing that ends the loop — and returns [X·Y] for the
    factors reached by exactly [T] alternations (none for a negative [T])
    from the factors [MakeXY] drew. One alternation solves
    [(Y·Yᵗ + λI)·Xᵗ = Y·Qᵗ], sets [X = (Xᵗ)ᵗ], and then solves
    [(Xᵗ·X + λI)·Y = Xᵗ·Q]: the second system is formed from the solution
    [Xᵗ] of the first. The run asks the package for [2n] single-column
    solves per iteration, prints nothing and leaves [Q] as it was. *)
Theorem ALS_alternates
    (solve : nat -> nat -> list float64 -> list float64 -> nat -> float64)
    (s : state) (Q : DenseMatrix) (q : list float64) (n : nat) (T : Z) :
  repr s Q q -> rows Q = n -> cols Q = n -> 0 < n ->
  exists Q_hat s', ALS solve Q T n s = Ok Q_hat s'
    /\ repr s' Q_hat (reconstruction n (fitted (alternation solve) n T q s))
    /\ rows Q_hat = n /\ cols Q_hat = n
    /\ repr s' Q q
    /\ solves s' = solves s + Z.to_nat T * (2 * n)
    /\ stdout s' = stdout s.
Proof. intros RQ Hr Hc Hn. by apply ALS_ok. Qed.

Lemma ALS_alternates_witness :
  exists Q_hat s', ALS LU.lu_solve fit_Q 1 2 fit_state = Ok Q_hat s'
    /\ repr s' Q_hat
         (reconstruction 2 (fitted (alternation LU.lu_solve) 2 1 fit_ratings fit_state))
    /\ rows Q_hat = 2 /\ cols Q_hat = 2
    /\ repr s' fit_Q fit_ratings
    /\ solves s' = solves fit_state + Z.to_nat 1 * (2 * 2)
    /\ stdout s' = stdout fit_state.
Proof.
  apply (ALS_alternates LU.lu_solve fit_state fit_Q fit_ratings 2 1);
    [concrete_repr | reflexivity | reflexivity | lia].
Defined.

(** C1, as stated, fails: with the second system formed as [X·Xᵗ + λI] and
    [X·Q] from [X = (Xᵗ)ᵗ], one iteration on [Q = [[0 2] [0 0]]] from
    [X = 0], [Y = I] would end in [Y = 0] and reconstruct the zero matrix;
    [ALS] returns a matrix with a non-zero entry. *)
Lemma ALS_second_system_not_as_stated :
  contents (ALS LU.lu_solve fit_Q 1 2 fit_state) id
  ≠ Some (reconstruction 2
            (fitted (alternation_as_specified LU.lu_solve) 2 1 fit_ratings fit_state)).
Proof. vm_compute. discriminate. Qed.

(** Outside the square case the loop does not reach its budget: with more
    factors than [Q] has rows, the first iteration ends in an index out of
    range, in [SwapCols] under [MatrixSolver]. *)
Lemma ALS_more_factors_than_rows :
  ALS LU.lu_solve tiny_Q 1 2 tiny_state = Panic IndexOutOfRange.
Proof. by vm_compute. Qed.

(** ** C2: the index [Predict] returns *)

(** C2: the code departs from the claim. For the user of the example
    (scores 1, 2, 3; the third item already rated 5) the adjusted scores
    are [0, 2.5, 0] and their greatest is at index 1, but [Predict] takes
    [argmax] of the row of [Q_hat] itself and returns index 2
    ([Predict_ok] has this for every input; [argmax_spec] is the
    tie-break of [argmax]). *)
Theorem Predict_ranks_the_unadjusted_row :
  result_of (Predict rank_W rank_Q rank_Q_hat rank_state) = Some [2]
  /\ adjusted_scores (floats [0; 0; 1]%Z) (floats [0; 0; 5]%Z) (floats [1; 2; 3]%Z)
     = [F64.zero; F64.div F64.five (F64.of_Z 2); F64.zero]
  /\ heap_of (Predict rank_W rank_Q rank_Q_hat rank_state) !! 4
     = Some (adjusted_scores (floats [0; 0; 1]%Z) (floats [0; 0; 5]%Z)
                             (floats [1; 2; 3]%Z))
  /\ argmax (row_of 3 (adjusted_scores (floats [0; 0; 1]%Z) (floats [0; 0; 5]%Z)
                                       (floats [1; 2; 3]%Z)) 0) = 1.
Proof. by vm_compute. Qed.

(** [argmax] returns the lowest index of a greatest element when that
    element is above zero. *)
Lemma argmax_unique_maximum :
  argmax (floats [1; 3; 2; 3]%Z) = 1 /\ argmax (floats [0; 0]%Z) = 0
  /\ argmax (floats [-1; -2]%Z) = 0.
Proof. by vm_compute. Qed.

(** ** C3: a singular system *)

(** C3, as amended. [MatrixSolver] has no failure path: for every square
    system matrix, singular or not, and every right-hand side with as many
    rows and at least as many columns, it returns a matrix of the shape of
    the system matrix and prints nothing; and [errcheck] only prints,
    whatever the error, and returns to its caller. *)
Theorem MatrixSolver_never_reports
    (solve : nat -> nat -> list float64 -> list float64 -> nat -> float64)
    (s : state) (A B : DenseMatrix) (a b : list float64) :
  repr s A a -> repr s B b ->
  rows A = cols A -> rows B = rows A -> cols A <= cols B -> 0 < cols A ->
  (exists C s', MatrixSolver solve A B s = Ok C s'
     /\ rows C = rows A /\ cols C = cols A /\ stdout s' = stdout s)
  /\ (forall e s0, exists s1, errcheck e s0 = Ok tt s1).
Proof.
  intros RA RB Esq Er Hk H0. split.
  - destruct (MatrixSolver_ok solve s A B a b RA RB Esq Er Hk H0) as (C & s' & E & H).
    exists C, s'. split; [done|].
    destruct H as (_ & Hr & Hc & _ & F). do 2 (split; [done|]).
    by destruct F as (_ & _ & _ & _ & F & _).
  - intros [e|] s0; eexists; reflexivity.
Qed.

Lemma MatrixSolver_never_reports_witness :
  (exists C s', MatrixSolver LU.lu_solve singular_A singular_B singular_state = Ok C s'
     /\ rows C = rows singular_A /\ cols C = cols singular_A
     /\ stdout s' = stdout singular_state)
  /\ (forall e s0, exists s1, errcheck e s0 = Ok tt s1).
Proof.
  apply (MatrixSolver_never_reports LU.lu_solve singular_state singular_A singular_B
           (floats [0]%Z) (floats [1]%Z));
    [concrete_repr | concrete_repr | reflexivity | reflexivity | simpl; lia | simpl; lia].
Defined.

(** C3, as stated, fails: for the singular system [0·x = 1] the solver
    returns normally, its result holds an infinity, and nothing was
    reported. *)
Lemma MatrixSolver_singular_is_silent :
  contents (MatrixSolver LU.lu_solve singular_A singular_B singular_state) id
  = Some [F64.infinity]
  /\ stdout_of (MatrixSolver LU.lu_solve singular_A singular_B singular_state)
     = Some [].
Proof. by vm_compute. Qed.

(** ** C4: the weighted squared error *)

(** C4. For [W], [Q] of shape [r] by [c] stored apart, [X] of shape [r] by
    [k] and [Y] of shape [k] by [c], [GetError] returns
    [Σ (W ⊙ (Q − X·Y))²], the terms added in row-major order. *)
Theorem GetError_weighted_squares (s : state) (W Q X Y : DenseMatrix)
    (w q x y : list float64) (r k c : nat) :
  repr s W w -> repr s Q q -> repr s X x -> repr s Y y ->
  rows X = r -> cols X = k -> rows Y = k -> cols Y = c ->
  rows Q = r -> cols Q = c -> rows W = r -> cols W = c ->
  separate W Q ->
  exists s', GetError W Q X Y s = Ok (weighted_squared_error r k c w q x y) s'.
Proof.
  intros RW RQ RX RY H1 H2 H3 H4 H5 H6 H7 H8 Hsep.
  destruct (GetError_ok s W Q X Y w q x y r k c) as (s' & E & _); try done.
  by exists s'.
Qed.

Lemma GetError_weighted_squares_witness :
  exists s', GetError error_W error_Q error_X error_Y error_state
             = Ok (weighted_squared_error 2 1 2 (floats [1; 0; 1; 1]%Z)
                     (floats [5; 0; 1; 2]%Z) (floats [1; 2]%Z) (floats [1; 1]%Z)) s'.
Proof.
  apply (GetError_weighted_squares error_state error_W error_Q error_X error_Y);
    (concrete_repr || (unfold separate; simpl; lia)).
Defined.

(** On the example the error is 17. *)
Lemma GetError_example :
  result_of (GetError error_W error_Q error_X error_Y error_state) = Some (F64.of_Z 17).
Proof. by vm_compute. Qed.

(** ** C5: what [GetError] writes to *)

(** C5, as amended. [GetError] leaves [W], [X] and [Y] as they were when
    they are stored apart from [Q]; the entries of [Q] are not kept. *)
Theorem GetError_keeps_W_X_Y (s : state) (W Q X Y : DenseMatrix)
    (w q x y : list float64) (r k c : nat) :
  repr s W w -> repr s Q q -> repr s X x -> repr s Y y ->
  rows X = r -> cols X = k -> rows Y = k -> cols Y = c ->
  rows Q = r -> cols Q = c -> rows W = r -> cols W = c ->
  separate W Q -> separate X Q -> separate Y Q ->
  exists e s', GetError W Q X Y s = Ok e s'
    /\ repr s' W w /\ repr s' X x /\ repr s' Y y.
Proof.
  intros RW RQ RX RY H1 H2 H3 H4 H5 H6 H7 H8 SW SX SY.
  destruct (GetError_ok s W Q X Y w q x y r k c) as (s' & E & F); try done.
  eexists _, s'. split; [exact E|].
  assert (forall (A : DenseMatrix) (v : list float64),
            repr s A v -> separate A Q -> repr s' A v) as Keep.
  { intros A v R S. eapply repr_frame; [exact R | exact F | by eapply repr_bound |].
    intros Hin. by apply list_elem_of_singleton in Hin. }
  auto.
Qed.

Lemma GetError_keeps_W_X_Y_witness :
  exists e s', GetError error_W error_Q error_X error_Y error_state = Ok e s'
    /\ repr s' error_W (floats [1; 0; 1; 1]%Z)
    /\ repr s' error_X (floats [1; 2]%Z)
    /\ repr s' error_Y (floats [1; 1]%Z).
Proof.
  apply (GetError_keeps_W_X_Y error_state error_W error_Q error_X error_Y
           (floats [1; 0; 1; 1]%Z) (floats [5; 0; 1; 2]%Z) (floats [1; 2]%Z)
           (floats [1; 1]%Z) 2 1 2);
    (concrete_repr || (unfold separate; simpl; lia)).
Defined.

(** C5, as stated, fails: after [GetError] the storage of [Q] no longer
    holds the ratings. *)
Lemma GetError_overwrites_Q :
  heap error_state !! 1 = Some (floats [5; 0; 1; 2]%Z)
  /\ heap_of (GetError error_W error_Q error_X error_Y error_state) !! 1
     ≠ Some (floats [5; 0; 1; 2]%Z).
Proof. split; [reflexivity|]. vm_compute. discriminate. Qed.

(** ** C6: the mask *)

Lemma entry_mask (r c : nat) (q : list float64) (i j : nat) :
  length q = r * c -> i < r -> j < c ->
  entry c (mask q) i j = if is_missing (entry c q i j) then F64.zero else F64.one.
Proof.
  intros L Hi Hj. unfold entry, mask. rewrite list_lookup_fmap.
  destruct (lookup_lt_is_Some_2 q (i * c + j)) as [x ->]; [nia | done].
Qed.

(** C6. [MakeWeightMatrix] returns a matrix of the shape of [Q] whose
    entry is [0] exactly where the entry of [Q] is a zero or not-a-number,
    and [1] everywhere else; [Q] is left as it was. *)
Theorem MakeWeightMatrix_mask (s : state) (Q : DenseMatrix) (q : list float64) :
  repr s Q q ->
  exists W s' w, MakeWeightMatrix Q s = Ok W s'
    /\ repr s' W w /\ rows W = rows Q /\ cols W = cols Q
    /\ repr s' Q q
    /\ forall i j, i < rows Q -> j < cols Q ->
         (entry (cols Q) w i j = F64.zero <-> missing_sentinel (entry (cols Q) q i j))
         /\ (~ missing_sentinel (entry (cols Q) q i j) -> entry (cols Q) w i j = F64.one).
Proof.
  intros R. destruct (MakeWeightMatrix_ok s Q q R) as (W & s' & E & H).
  exists W, s', (mask q). split; [done|].
  pose proof (repr_allocated _ _ _ _ _ _ _ _ _ R H) as RQ'.
  destruct H as (RW & Hr & Hc & _). do 4 (split; [done|]).
  intros i j Hi Hj. rewrite (entry_mask (rows Q) (cols Q)) by (done || by eapply repr_length).
  rewrite <- F64Facts.is_missing_spec.
  destruct (is_missing (entry (cols Q) q i j)); split; try done;
    try (intros N; by destruct N).
Qed.

Lemma MakeWeightMatrix_mask_witness :
  exists W s' w, MakeWeightMatrix sparse_Q sparse_state = Ok W s'
    /\ repr s' W w /\ rows W = rows sparse_Q /\ cols W = cols sparse_Q
    /\ repr s' sparse_Q [F64.of_Z 5; S754_zero true; S754_nan; F64.of_Z 3]
    /\ forall i j, i < rows sparse_Q -> j < cols sparse_Q ->
         (entry (cols sparse_Q) w i j = F64.zero
          <-> missing_sentinel
                (entry (cols sparse_Q)
                       [F64.of_Z 5; S754_zero true; S754_nan; F64.of_Z 3] i j))
         /\ (~ missing_sentinel
                 (entry (cols sparse_Q)
                        [F64.of_Z 5; S754_zero true; S754_nan; F64.of_Z 3] i j)
             -> entry (cols sparse_Q) w i j = F64.one).
Proof. apply (MakeWeightMatrix_mask sparse_state sparse_Q). concrete_repr. Defined.

(** On the example the mask is [[1 0] [0 1]]. *)
Lemma MakeWeightMatrix_example :
  contents (MakeWeightMatrix sparse_Q sparse_state) id = Some (floats [1; 0; 0; 1]%Z).
Proof. by vm_compute. Qed.

(** ** C7: [MatrixSolver] *)

(** For a [k] by [k] system matrix and a [k] by [k] right-hand side,
    [MatrixSolver] asks the package for one solve per right-hand side
    column, each with the entries of the same [A], and returns the [k] by
    [k] matrix whose row [i] is the computed solution for column [i]: the
    transpose of the computed [X] with [A·X = B]. *)
Theorem MatrixSolver_transposed_solution
    (solve : nat -> nat -> list float64 -> list float64 -> nat -> float64)
    (s : state) (A B : DenseMatrix) (a b : list float64) (k : nat) :
  repr s A a -> repr s B b ->
  rows A = k -> cols A = k -> rows B = k -> cols B = k -> 0 < k ->
  exists C s', MatrixSolver solve A B s = Ok C s'
    /\ repr s' C (mtranspose k k (solution solve k k a b))
    /\ rows C = k /\ cols C = k
    /\ solves s' = solves s + k
    /\ repr s' A a /\ repr s' B b.
Proof.
  intros RA RB H1 H2 H3 H4 Hk.
  destruct (MatrixSolver_square solve s A B a b k RA RB H1 H2 H3 H4 Hk)
    as (C & s' & E & H).
  exists C, s'. split; [done|].
  pose proof (repr_allocated _ _ _ _ _ _ _ _ _ RA H) as RA'.
  pose proof (repr_allocated _ _ _ _ _ _ _ _ _ RB H) as RB'.
  destruct H as (RC & Hr & Hc & _ & F). do 3 (split; [done|]).
  split; [|done]. by destruct F as (_ & _ & _ & _ & _ & F).
Qed.

Lemma MatrixSolver_transposed_solution_witness :
  exists C s', MatrixSolver LU.lu_solve unit_A unit_B unit_state = Ok C s'
    /\ repr s' C (mtranspose 2 2
                    (solution LU.lu_solve 2 2 (floats [1; 0; 0; 1]%Z)
                              (floats [1; 2; 3; 4]%Z)))
    /\ rows C = 2 /\ cols C = 2
    /\ solves s' = solves unit_state + 2
    /\ repr s' unit_A (floats [1; 0; 0; 1]%Z) /\ repr s' unit_B (floats [1; 2; 3; 4]%Z).
Proof.
  apply (MatrixSolver_transposed_solution LU.lu_solve unit_state unit_A unit_B);
    (concrete_repr || lia).
Defined.

(** C7: the code departs from the claim. For [A = I] and
    [B = [[1 2] [3 4]]] the matrix [X] with [A·X = B] is [B] itself, but
    [MatrixSolver] returns [[1 3] [2 4]], its transpose, and [A] times that
    is not [B]: the solutions of the columns are laid out as the rows of
    the result ([MatrixSolver_transposed_solution] has this for every
    square system). The comment above the function speaks of the [X] with
    [AX = B]. *)
Theorem MatrixSolver_result_not_the_solution :
  contents (MatrixSolver LU.lu_solve unit_A unit_B unit_state) id
  = Some (floats [1; 3; 2; 4]%Z)
  /\ mtimes 2 2 2 (floats [1; 0; 0; 1]%Z) (floats [1; 3; 2; 4]%Z)
     ≠ floats [1; 2; 3; 4]%Z
  /\ mtimes 2 2 2 (floats [1; 0; 0; 1]%Z) (floats [1; 2; 3; 4]%Z)
     = floats [1; 2; 3; 4]%Z.
Proof. split; [by vm_compute|]. split; [|by vm_compute]. vm_compute. discriminate. Qed.

(** A right-hand side with more columns than [A]: the loop of
    [MatrixSolver] runs over the columns of [A], and the result has the
    shape of [A]; the second column of [B] is not solved for. *)
Lemma MatrixSolver_drops_columns :
  contents (MatrixSolver LU.lu_solve wide_A wide_B wide_state) id = Some (floats [1]%Z)
  /\ (rows <$> result_of (MatrixSolver LU.lu_solve wide_A wide_B wide_state)) = Some 1
  /\ (cols <$> result_of (MatrixSolver LU.lu_solve wide_A wide_B wide_state)) = Some 1.
Proof. by vm_compute. Qed.

(** ** C8: no iteration *)

(** C8. With an iteration budget of [0], [ALS] returns the product [X·Y]
    of the factors [MakeXY] produces from the same state, whatever the
    shape of [Q] and the number of factors, and asks for no linear solve. *)
Theorem ALS_zero_iterations
    (solve : nat -> nat -> list float64 -> list float64 -> nat -> float64)
    (s : state) (Q : DenseMatrix) (q : list float64) (k : nat) :
  repr s Q q ->
  exists X Y s1 x y Q_hat s',
    MakeXY Q k s = Ok (X, Y) s1 /\ repr s1 X x /\ repr s1 Y y
    /\ ALS solve Q 0 k s = Ok Q_hat s'
    /\ repr s' Q_hat (mtimes (rows Q) k (cols Q) x y)
    /\ rows Q_hat = rows Q /\ cols Q_hat = cols Q
    /\ solves s' = solves s.
Proof.
  intros R.
  destruct (MakeXY_ok s Q k) as (X & Y & s1 & E1 & RX & RY & _).
  destruct (ALS_zero solve s Q q k R) as (Q_hat & s' & E & RQ & Hr & Hc & Hs).
  exists X, Y, s1, (initial_factors s (rows Q) (cols Q) k).1,
         (initial_factors s (rows Q) (cols Q) k).2, Q_hat, s'.
  done.
Qed.

Lemma ALS_zero_iterations_witness :
  exists X Y s1 x y Q_hat s',
    MakeXY fit_Q 3 fit_state = Ok (X, Y) s1 /\ repr s1 X x /\ repr s1 Y y
    /\ ALS LU.lu_solve fit_Q 0 3 fit_state = Ok Q_hat s'
    /\ repr s' Q_hat (mtimes (rows fit_Q) 3 (cols fit_Q) x y)
    /\ rows Q_hat = rows fit_Q /\ cols Q_hat = cols fit_Q
    /\ solves s' = solves fit_state.
Proof. apply (ALS_zero_iterations LU.lu_solve fit_state fit_Q fit_ratings 3). concrete_repr. Defined.

(** ** C9: [Predict] and the mask *)

(** C9: the code departs from the claim. [Predict] scales [W] in place by
    the greatest rating: on the example the entry [1] of [W] is [5] when
    [Predict] returns ([Predict_ok] has this for every input). *)
Theorem Predict_scales_W_in_place :
  heap rated_state !! base (elements rated_W) = Some (floats [1]%Z)
  /\ heap_of (Predict rated_W rated_Q rated_Q_hat rated_state) !! base (elements rated_W)
     = Some (floats [5]%Z)
  /\ result_of (Predict rated_W rated_Q rated_Q_hat rated_state) = Some [0].
Proof. by vm_compute. Qed.

(** ** C10: [MatrixMax] *)

(** C10. [MatrixMax] returns the maximum of [0] and the entries of the
    matrix, entries that are not-a-number left aside: the result is [0] or
    an entry, it is a number, no entry exceeds it and every entry that is a
    number is at most the result, which fixes it up to [==]; when every
    entry is below zero it returns [0]. *)
Theorem MatrixMax_greatest (s : state) (A : DenseMatrix) (v : list float64) :
  repr s A v ->
  exists m s', MatrixMax A s = Ok m s'
    /\ is_greatest m (F64.zero :: v)
    /\ is_maximum m (F64.zero :: v)
    /\ (forall m', is_maximum m' (F64.zero :: v) -> F64.eqb m' m = true)
    /\ (all_negative v -> m = F64.zero).
Proof.
  intros R. destruct (MatrixMax_ok s A v R) as (s' & E & _).
  eexists _, s'. split; [exact E|].
  assert (is_greatest (fold_left max_step v F64.zero) (F64.zero :: v)) as G.
  { apply (running_max_greatest v F64.zero [F64.zero]). split.
    - by apply list_elem_of_singleton.
    - intros x Hx. apply list_elem_of_singleton in Hx as ->.
      apply F64Facts.ltb_irrefl. }
  assert (is_maximum (fold_left max_step v F64.zero) (F64.zero :: v)) as Hmax
    by (apply greatest_number_maximum; [done | by apply running_max_number]).
  split; [done|]. split; [done|]. split.
  - intros m' Hm'. by eapply is_maximum_unique.
  - apply running_max_negative.
Qed.

Lemma MatrixMax_greatest_witness :
  exists m s', MatrixMax gap_A gap_state = Ok m s'
    /\ is_greatest m (F64.zero :: [F64.of_Z 5; S754_nan; F64.of_Z 3])
    /\ is_maximum m (F64.zero :: [F64.of_Z 5; S754_nan; F64.of_Z 3])
    /\ (forall m', is_maximum m' (F64.zero :: [F64.of_Z 5; S754_nan; F64.of_Z 3])
                   -> F64.eqb m' m = true)
    /\ (all_negative [F64.of_Z 5; S754_nan; F64.of_Z 3] -> m = F64.zero).
Proof. apply (MatrixMax_greatest gap_state gap_A). concrete_repr. Defined.

(** With a not-a-number between the ratings 5 and 3 the result is 5. *)
Lemma MatrixMax_skips_nan_example :
  result_of (MatrixMax gap_A gap_state) = Some (F64.of_Z 5).
Proof. by vm_compute. Qed.

(** On a matrix of negative entries the result is [0], not an entry. *)
Lemma MatrixMax_negative_example :
  result_of (MatrixMax negative_A negative_state) = Some F64.zero.
Proof. by vm_compute. Qed.

(** * Further properties of the code

    What the functions of [ALS.go] do beyond the claims: their edge cases,
    what they leave alone, how they compose, and where a run ends in a
    panic. *)

Ltac concrete_separate := unfold separate; simpl; lia.

(** ** Runs that end in a panic *)

Lemma bind_panic {A B : Type} (m : M A) (f : A -> M B) (s : state) (p : gopanic) :
  m s = Panic p -> (m ≫= f) s = Panic p.
Proof. intros E. unfold mbind, M_bind. by rewrite E. Qed.

(** A loop that keeps an invariant up to an iteration that panics. *)
Lemma for_range_panic {A : Type} (I : nat -> A -> state -> Prop)
    (body : nat -> A -> M A) (n lo stop : nat) (a : A) (s : state) (p : gopanic) :
  I lo a s -> lo <= stop < lo + n ->
  (forall i a s, lo <= i < stop -> I i a s ->
     exists a' s', body i a s = Ok a' s' /\ I (S i) a' s') ->
  (forall a s, I stop a s -> body stop a s = Panic p) ->
  for_range lo n body a s = Panic p.
Proof.
  revert lo a s. induction n as [|n IH]; intros lo a s H0 Hstop Hstep Hpanic; [lia|].
  simpl. destruct (decide (lo = stop)) as [->|Hne].
  - apply bind_panic. by apply Hpanic.
  - destruct (Hstep lo a s) as (a1 & s1 & E1 & H1); [lia | done |].
    rewrite (bind_ok _ _ _ _ _ E1). apply IH; [done | lia | | done].
    intros i a' s' Hi. apply Hstep. lia.
Qed.

(** ** [argmax] *)

Lemma argmax_lt (l : list float64) : l ≠ [] -> argmax l < length l.
Proof.
  intros Hl. destruct (ArgmaxFacts.argmax_spec l) as [[_ ->]|(m & Hm & _)].
  - destruct l; [done | simpl; lia].
  - by apply lookup_lt_Some in Hm.
Qed.

(** X1. When some element of the slice is above zero, [argmax] returns
    the lowest index of a greatest element: the element there is above
    zero, no element exceeds it, and every element before it is
    not-a-number or strictly below it. *)
Theorem argmax_first_greatest (l : list float64) (x : float64) :
  x ∈ l -> F64.gtb x F64.zero = true ->
  exists m, l !! argmax l = Some m /\ F64.gtb m F64.zero = true
    /\ (forall y, y ∈ l -> F64.gtb y m = false)
    /\ forall j y, j < argmax l -> l !! j = Some y ->
         F64.IsNaN y = true \/ F64.gtb m y = true.
Proof.
  intros Hx Hpos. destruct (ArgmaxFacts.argmax_spec l) as [[Hno _]|H]; [|done].
  rewrite (Hno x Hx) in Hpos. done.
Qed.

Lemma argmax_first_greatest_witness :
  exists m, floats [1; 3; 2; 3]%Z !! argmax (floats [1; 3; 2; 3]%Z) = Some m
    /\ F64.gtb m F64.zero = true
    /\ (forall y, y ∈ floats [1; 3; 2; 3]%Z -> F64.gtb y m = false)
    /\ forall j y, j < argmax (floats [1; 3; 2; 3]%Z) ->
         floats [1; 3; 2; 3]%Z !! j = Some y ->
         F64.IsNaN y = true \/ F64.gtb m y = true.
Proof.
  apply (argmax_first_greatest (floats [1; 3; 2; 3]%Z) (F64.of_Z 3)); [|reflexivity].
  do 3 right. left.
Defined.

(** X2. When no element is above zero (all are zero, negative or
    not-a-number, or the slice is empty), [argmax] returns index [0],
    whatever is stored there: the comparison starts from [0.0]. *)
Theorem argmax_nothing_positive (l : list float64) :
  (forall x, x ∈ l -> F64.gtb x F64.zero = false) -> argmax l = 0.
Proof.
  intros Hno. destruct (ArgmaxFacts.argmax_spec l) as [[_ E]|(m & Hm & Hpos & _)]; [done|].
  apply list_elem_of_lookup_2 in Hm. rewrite (Hno m Hm) in Hpos. done.
Qed.

Lemma argmax_nothing_positive_witness : argmax (floats [-2; -1; 0]%Z) = 0.
Proof.
  apply (argmax_nothing_positive (floats [-2; -1; 0]%Z)).
  intros x Hx. repeat (apply elem_of_cons in Hx as [->|Hx]; [reflexivity|]).
  by apply elem_of_nil in Hx.
Defined.

(** X3. On a slice that is not empty the index [argmax] returns is an
    index of the slice. *)
Theorem argmax_in_range (l : list float64) : l ≠ [] -> argmax l < length l.
Proof. apply argmax_lt. Qed.

Lemma argmax_in_range_witness :
  argmax (floats [1; 3; 2; 3]%Z) < length (floats [1; 3; 2; 3]%Z).
Proof. apply (argmax_in_range (floats [1; 3; 2; 3]%Z)). discriminate. Defined.

(** ** [Predict] *)

Lemma predictions_lookup (r c : nat) (h : list float64) (i : nat) :
  i < r -> predictions r c h !! i = Some (argmax (row_of c h i)).
Proof.
  intros Hi. unfold predictions, row_of. rewrite list_lookup_fmap.
  by rewrite lookup_seq_lt.
Qed.

Lemma row_of_length (r c : nat) (h : list float64) (i : nat) :
  length h = r * c -> i < r -> length (row_of c h i) = c.
Proof.
  intros L Hi. unfold row_of. rewrite length_take, length_drop. nia.
Qed.

(** X4. For [W], [Q] and [Q_hat] of one shape, [Predict] returns one
    index per user, the [argmax] of that user's row of [Q_hat] as it was
    passed in; it prints one line per user, in the order of the users, with
    that index; and it leaves [Q] and [Q_hat] as they were. *)
Theorem Predict_returns_row_argmax (s : state) (W Q Q_hat : DenseMatrix)
    (w q h : list float64) (r c : nat) :
  repr s W w -> repr s Q q -> repr s Q_hat h ->
  rows W = r -> cols W = c -> rows Q = r -> cols Q = c ->
  rows Q_hat = r -> cols Q_hat = c ->
  separate W Q -> separate W Q_hat ->
  exists p s', Predict W Q Q_hat s = Ok p s'
    /\ length p = r
    /\ (forall i, i < r -> p !! i = Some (argmax (row_of c h i)))
    /\ stdout s' = stdout s
                   ++ ((fun i => PrintedPrediction i (argmax (row_of c h i))) <$> seq 0 r)
    /\ repr s' Q q /\ repr s' Q_hat h.
Proof.
  intros RW RQ RH H1 H2 H3 H4 H5 H6 S1 S2.
  destruct (Predict_ok s W Q Q_hat w q h r c) as (s' & E & _ & RQ' & RH' & _ & Hout);
    try done.
  exists (predictions r c h), s'. split; [done|].
  split; [unfold predictions; by rewrite length_fmap, length_seq|].
  split; [intros i Hi; by apply predictions_lookup|]. done.
Qed.

Lemma Predict_returns_row_argmax_witness :
  exists p s', Predict rank_W rank_Q rank_Q_hat rank_state = Ok p s'
    /\ length p = 1
    /\ (forall i, i < 1 -> p !! i = Some (argmax (row_of 3 (floats [1; 2; 3]%Z) i)))
    /\ stdout s' = stdout rank_state
                   ++ ((fun i => PrintedPrediction i
                                   (argmax (row_of 3 (floats [1; 2; 3]%Z) i)))
                         <$> seq 0 1)
    /\ repr s' rank_Q (floats [0; 0; 5]%Z) /\ repr s' rank_Q_hat (floats [1; 2; 3]%Z).
Proof.
  apply (Predict_returns_row_argmax rank_state rank_W rank_Q rank_Q_hat
           (floats [0; 0; 1]%Z));
    (concrete_repr || concrete_separate).
Defined.

(** X5. The indices [Predict] returns do not depend on the mask [W] nor
    on the ratings [Q]: two calls with the same predicted scores return the
    same indices whatever mask and ratings they are given. *)
Theorem Predict_ignores_ratings (s1 s2 : state) (W1 Q1 H1 W2 Q2 H2 : DenseMatrix)
    (w1 q1 w2 q2 h : list float64) (r c : nat) :
  repr s1 W1 w1 -> repr s1 Q1 q1 -> repr s1 H1 h ->
  rows W1 = r -> cols W1 = c -> rows Q1 = r -> cols Q1 = c -> rows H1 = r -> cols H1 = c ->
  separate W1 Q1 -> separate W1 H1 ->
  repr s2 W2 w2 -> repr s2 Q2 q2 -> repr s2 H2 h ->
  rows W2 = r -> cols W2 = c -> rows Q2 = r -> cols Q2 = c -> rows H2 = r -> cols H2 = c ->
  separate W2 Q2 -> separate W2 H2 ->
  exists p s1' s2', Predict W1 Q1 H1 s1 = Ok p s1' /\ Predict W2 Q2 H2 s2 = Ok p s2'.
Proof.
  intros.
  destruct (Predict_ok s1 W1 Q1 H1 w1 q1 h r c) as (s1' & E1 & _); try done.
  destruct (Predict_ok s2 W2 Q2 H2 w2 q2 h r c) as (s2' & E2 & _); try done.
  by exists (predictions r c h), s1', s2'.
Qed.

Lemma Predict_ignores_ratings_witness :
  exists p s1' s2', Predict rank_W rank_Q rank_Q_hat rank_state = Ok p s1'
    /\ Predict rank_W rank_Q rank_Q_hat unrated_state = Ok p s2'.
Proof.
  apply (Predict_ignores_ratings rank_state unrated_state rank_W rank_Q rank_Q_hat
           rank_W rank_Q rank_Q_hat (floats [0; 0; 1]%Z) (floats [0; 0; 5]%Z)
           (floats [0; 0; 0]%Z) (floats [0; 0; 0]%Z) (floats [1; 2; 3]%Z) 1 3);
    (concrete_repr || concrete_separate).
Defined.

(** X6. [Predict] leaves the caller's [W] multiplied, entry by entry,
    by the value [MatrixMax] finds for [Q]: a greatest element among [0]
    and the ratings. *)
Theorem Predict_scales_mask (s : state) (W Q Q_hat : DenseMatrix)
    (w q h : list float64) (r c : nat) :
  repr s W w -> repr s Q q -> repr s Q_hat h ->
  rows W = r -> cols W = c -> rows Q = r -> cols Q = c ->
  rows Q_hat = r -> cols Q_hat = c ->
  separate W Q -> separate W Q_hat ->
  exists p s' maxRating, Predict W Q Q_hat s = Ok p s'
    /\ is_greatest maxRating (F64.zero :: q)
    /\ repr s' W ((fun x => F64.mul x maxRating) <$> w).
Proof.
  intros RW RQ RH H1 H2 H3 H4 H5 H6 S1 S2.
  destruct (Predict_ok s W Q Q_hat w q h r c) as (s' & E & RW' & _); try done.
  exists (predictions r c h), s', (fold_left max_step q F64.zero).
  split; [done|]. split; [|done].
  apply (running_max_greatest q F64.zero [F64.zero]). split.
  - by apply list_elem_of_singleton.
  - intros x Hx. apply list_elem_of_singleton in Hx as ->. apply F64Facts.ltb_irrefl.
Qed.

Lemma Predict_scales_mask_witness :
  exists p s' maxRating, Predict rank_W rank_Q rank_Q_hat rank_state = Ok p s'
    /\ is_greatest maxRating (F64.zero :: floats [0; 0; 5]%Z)
    /\ repr s' rank_W ((fun x => F64.mul x maxRating) <$> floats [0; 0; 1]%Z).
Proof.
  apply (Predict_scales_mask rank_state rank_W rank_Q rank_Q_hat (floats [0; 0; 1]%Z)
           (floats [0; 0; 5]%Z) (floats [1; 2; 3]%Z) 1 3);
    (concrete_repr || concrete_separate).
Defined.

(** X7. When there is at least one item, every index [Predict] returns
    is the index of an item. *)
Theorem Predict_items_in_range (s : state) (W Q Q_hat : DenseMatrix)
    (w q h : list float64) (r c : nat) :
  repr s W w -> repr s Q q -> repr s Q_hat h ->
  rows W = r -> cols W = c -> rows Q = r -> cols Q = c ->
  rows Q_hat = r -> cols Q_hat = c ->
  separate W Q -> separate W Q_hat -> 0 < c ->
  exists p s', Predict W Q Q_hat s = Ok p s'
    /\ length p = r /\ forall item, item ∈ p -> item < c.
Proof.
  intros RW RQ RH H1 H2 H3 H4 H5 H6 S1 S2 Hc.
  destruct (Predict_ok s W Q Q_hat w q h r c) as (s' & E & _); try done.
  exists (predictions r c h), s'. split; [done|].
  split; [unfold predictions; by rewrite length_fmap, length_seq|].
  intros item Hin. apply list_elem_of_lookup in Hin as [i Hi].
  assert (i < r) as Hlt.
  { apply lookup_lt_Some in Hi. unfold predictions in Hi.
    by rewrite length_fmap, length_seq in Hi. }
  rewrite predictions_lookup in Hi by done. injection Hi as <-.
  pose proof (repr_length _ _ _ RH) as L. rewrite H5, H6 in L.
  pose proof (row_of_length r c h i L Hlt) as L'.
  rewrite <- L' at 2. apply argmax_lt.
  intros N. rewrite N in L'. simpl in L'. lia.
Qed.

Lemma Predict_items_in_range_witness :
  exists p s', Predict rank_W rank_Q rank_Q_hat rank_state = Ok p s'
    /\ length p = 1 /\ forall item, item ∈ p -> item < 3.
Proof.
  apply (Predict_items_in_range rank_state rank_W rank_Q rank_Q_hat (floats [0; 0; 1]%Z)
           (floats [0; 0; 5]%Z) (floats [1; 2; 3]%Z) 1 3);
    (concrete_repr || concrete_separate || lia).
Defined.

(** ** [MatrixMinMinus] *)

Lemma ltb_floor (y m x : float64) :
  F64.ltb y m = false -> F64.ltb x m = true -> F64.ltb y x = false.
Proof.
  intros H1 H2. destruct (F64.ltb y x) eqn:E; [|done].
  by rewrite (ArgmaxFacts.ltb_trans y x m E H2) in H1.
Qed.

Lemma running_min_least (v : list float64) (m : float64) (seen : list float64) :
  is_least m seen -> is_least (fold_left min_step v m) (seen ++ v).
Proof.
  revert m seen. induction v as [|x v IH]; intros m seen Hm.
  - by rewrite app_nil_r.
  - simpl. replace (seen ++ x :: v) with ((seen ++ [x]) ++ v) by (by rewrite <- app_assoc).
    apply IH. destruct Hm as [Hin Hlb]. unfold min_step.
    destruct (F64.ltb x m) eqn:Hx.
    + split; [apply elem_of_app; right; by apply list_elem_of_singleton|].
      intros y Hy. apply elem_of_app in Hy as [Hy|Hy].
      * eapply ltb_floor; [by apply Hlb | done].
      * apply list_elem_of_singleton in Hy as ->. apply F64Facts.ltb_irrefl.
    + split; [apply elem_of_app; by left|].
      intros y Hy. apply elem_of_app in Hy as [Hy|Hy]; [by apply Hlb|].
      by apply list_elem_of_singleton in Hy as ->.
Qed.

Lemma running_min_floor (v : list float64) (m : float64) :
  (forall x, x ∈ v -> F64.ltb x m = false) -> fold_left min_step v m = m.
Proof.
  induction v as [|x v IH]; intros Hv; [done|]. simpl.
  assert (min_step m x = m) as ->.
  { unfold min_step. rewrite Hv; [done | by left]. }
  apply IH. intros y Hy. apply Hv. by right.
Qed.

(** X8. [MatrixMinMinus] returns a matrix of the shape of its argument
    whose entries are those of the argument less one number [m]: a least
    element among [100] and the entries, so that [m] is [100] when no entry
    is below [100]. *)
Theorem MatrixMinMinus_subtracts_least (s : state) (A : DenseMatrix) (a : list float64) :
  repr s A a ->
  exists C s' m, MatrixMinMinus A s = Ok C s'
    /\ is_least m (F64.hundred :: a)
    /\ ((forall x, x ∈ a -> F64.ltb x F64.hundred = false) -> m = F64.hundred)
    /\ repr s' C ((fun x => F64.sub x m) <$> a)
    /\ rows C = rows A /\ cols C = cols A.
Proof.
  intros R. destruct (MatrixMinMinus_ok s A a R) as (C & s' & E & RC & Hr & Hc & _).
  exists C, s', (fold_left min_step a F64.hundred). split; [done|].
  split; [|split; [apply running_min_floor | done]].
  apply (running_min_least a F64.hundred [F64.hundred]). split.
  - by apply list_elem_of_singleton.
  - intros x Hx. apply list_elem_of_singleton in Hx as ->. apply F64Facts.ltb_irrefl.
Qed.

Lemma MatrixMinMinus_subtracts_least_witness :
  exists C s' m, MatrixMinMinus negative_A negative_state = Ok C s'
    /\ is_least m (F64.hundred :: floats [-1; -2]%Z)
    /\ ((forall x, x ∈ floats [-1; -2]%Z -> F64.ltb x F64.hundred = false)
        -> m = F64.hundred)
    /\ repr s' C ((fun x => F64.sub x m) <$> floats [-1; -2]%Z)
    /\ rows C = rows negative_A /\ cols C = cols negative_A.
Proof.
  apply (MatrixMinMinus_subtracts_least negative_state negative_A). concrete_repr.
Defined.

(** ** [SimpleTimes] and [GetError] *)

Lemma SimpleTimes_mismatch (s : state) (mat weight : DenseMatrix) (a b : list float64) :
  repr s mat a -> repr s weight b -> length a ≠ length b ->
  exists s', SimpleTimes (Some mat) (Some weight) s = Ok None s'
    /\ frame (length (heap s)) [] 0 s s'.
Proof.
  intros Rm Rw Lab. unfold SimpleTimes.
  rewrite (bind_ok _ _ _ _ _ (ret_ok mat s)).
  destruct (Array_ok s mat a Rm) as (a1 & s1 & E1 & H1 & L1 & F1 & _).
  rewrite (bind_ok _ _ _ _ _ E1). simpl.
  rewrite (bind_ok _ _ _ _ _ (ret_ok weight s1)).
  assert (repr s1 weight b) as Rw1.
  { eapply repr_frame; [exact Rw | exact F1 | by eapply repr_bound | apply not_elem_of_nil]. }
  destruct (Array_ok s1 weight b Rw1) as (a2 & s2 & E2 & H2 & L2 & F2 & _).
  rewrite (bind_ok _ _ _ _ _ E2).
  rewrite decide_True by lia.
  exists s2. split; [done|]. change 0 with (0 + 0).
  eapply frame_trans; [exact F1 | exact F2 | by eapply frame_length |].
  intros l Hl. by apply elem_of_nil in Hl.
Qed.

(** X9. For arrays of one length, [SimpleTimes] returns a matrix of the
    shape of [mat] whose entries are the products [weight[i] * mat[i]];
    [weight] is left as it was when it is stored apart from [mat]. *)
Theorem SimpleTimes_products (s : state) (mat weight : DenseMatrix) (a b : list float64) :
  repr s mat a -> repr s weight b -> length a = length b ->
  exists P s', SimpleTimes (Some mat) (Some weight) s = Ok (Some P) s'
    /\ repr s' P (zip_with F64.mul b a)
    /\ rows P = rows mat /\ cols P = cols mat
    /\ (separate weight mat -> repr s' weight b).
Proof.
  intros Rm Rw L.
  destruct (SimpleTimes_ok s mat weight a b Rm Rw L) as (P & s' & E & RP & Hr & Hc & _ & F).
  exists P, s'. do 4 (split; [done|]). intros Hsep.
  eapply repr_frame; [exact Rw | exact F | by eapply repr_bound |].
  intros Hin. by apply list_elem_of_singleton in Hin.
Qed.

Lemma SimpleTimes_products_witness :
  exists P s', SimpleTimes (Some error_Q) (Some error_W) error_state = Ok (Some P) s'
    /\ repr s' P (zip_with F64.mul (floats [1; 0; 1; 1]%Z) (floats [5; 0; 1; 2]%Z))
    /\ rows P = rows error_Q /\ cols P = cols error_Q
    /\ (separate error_W error_Q -> repr s' error_W (floats [1; 0; 1; 1]%Z)).
Proof.
  apply (SimpleTimes_products error_state error_Q error_W); (concrete_repr || reflexivity).
Defined.

(** X10. For arrays of different lengths [SimpleTimes] returns [nil]: it
    writes to neither matrix and prints nothing. *)
Theorem SimpleTimes_different_lengths (s : state) (mat weight : DenseMatrix)
    (a b : list float64) :
  repr s mat a -> repr s weight b -> length a ≠ length b ->
  exists s', SimpleTimes (Some mat) (Some weight) s = Ok None s'
    /\ repr s' mat a /\ repr s' weight b /\ stdout s' = stdout s.
Proof.
  intros Rm Rw L. destruct (SimpleTimes_mismatch s mat weight a b Rm Rw L) as (s' & E & F).
  exists s'. split; [done|].
  split; [|split].
  - eapply repr_frame; [exact Rm | exact F | by eapply repr_bound | apply not_elem_of_nil].
  - eapply repr_frame; [exact Rw | exact F | by eapply repr_bound | apply not_elem_of_nil].
  - by destruct F as (_ & _ & _ & _ & F & _).
Qed.

Lemma SimpleTimes_different_lengths_witness :
  exists s', SimpleTimes (Some error_Q) (Some error_X) error_state = Ok None s'
    /\ repr s' error_Q (floats [5; 0; 1; 2]%Z) /\ repr s' error_X (floats [1; 2]%Z)
    /\ stdout s' = stdout error_state.
Proof.
  apply (SimpleTimes_different_lengths error_state error_Q error_X);
    (concrete_repr || (simpl; lia)).
Defined.

(** X11. [GetError] with a mask [W] that does not have as many entries
    as [Q] ends in a nil-pointer dereference: [SimpleTimes(Q, W)] returns
    [nil], which [GetError] hands on to the next [SimpleTimes]. *)
Theorem GetError_mask_of_other_size (s : state) (W Q X Y : DenseMatrix)
    (w q x y : list float64) (r k c : nat) :
  repr s W w -> repr s Q q -> repr s X x -> repr s Y y ->
  rows X = r -> cols X = k -> rows Y = k -> cols Y = c ->
  rows Q = r -> cols Q = c -> length w ≠ r * c ->
  GetError W Q X Y s = Panic NilDereference.
Proof.
  intros RW RQ RX RY HrX HcX HrY HcY HrQ HcQ Lw. unfold GetError.
  pose proof (repr_length _ _ _ RQ) as LQ. rewrite HrQ, HcQ in LQ.
  assert (separate W Q) as Hsep.
  { intros Eb. destruct RW as (_ & _ & HW & _), RQ as (_ & _ & HQ & _).
    rewrite Eb in HW. rewrite HQ in HW. injection HW as ->. lia. }
  destruct (TimesDense_ok s X Y x y RX RY) as (dot & s1 & E1 & H1); [lia|].
  rewrite (bind_ok _ _ _ _ _ E1). simpl.
  rewrite (bind_ok _ _ _ _ _ (ret_ok tt s1)).
  pose proof H1 as (Rd & Hrd & Hcd & Hbd & F1). rewrite HrX, HcX, HcY in *.
  pose proof (repr_allocated _ _ _ _ _ _ _ _ _ RQ H1) as RQ1.
  pose proof (repr_allocated _ _ _ _ _ _ _ _ _ RW H1) as RW1.
  destruct (SubtractDense_ok s1 Q dot _ _ RQ1 Rd) as (s2 & E2 & U2); [lia | lia |].
  rewrite (bind_ok _ _ _ _ _ E2). simpl.
  rewrite (bind_ok _ _ _ _ _ (ret_ok tt s2)).
  pose proof U2 as (RQ2 & L2 & F2).
  pose proof (repr_updated _ _ _ _ _ _ RW1 U2 Hsep) as RW2.
  destruct (SimpleTimes_mismatch s2 Q W _ _ RQ2 RW2) as (s3 & E3 & _).
  { rewrite msub_length; rewrite ?mtimes_length; lia. }
  rewrite (bind_ok _ _ _ _ _ E3). done.
Qed.

Lemma GetError_mask_of_other_size_witness :
  GetError error_X error_Q error_X error_Y error_state = Panic NilDereference.
Proof.
  apply (GetError_mask_of_other_size error_state error_X error_Q error_X error_Y
           (floats [1; 2]%Z) (floats [5; 0; 1; 2]%Z) (floats [1; 2]%Z) (floats [1; 1]%Z)
           2 1 2);
    (concrete_repr || (simpl; lia)).
Defined.

(** ** [SwapCols] *)

Lemma exchange_lt (i j c m : nat) : i < m -> j < m -> c < m -> exchange i j c < m.
Proof. intros. unfold exchange. repeat case_decide; lia. Qed.

Lemma exchange_involutive (i j c : nat) : exchange i j (exchange i j c) = c.
Proof. unfold exchange. repeat case_decide; congruence. Qed.

(** The entries of the matrix [SwapCols] builds: transpose, exchange two
    rows, transpose back. *)
Lemma entry_exchanged (k m i j : nat) (b : list float64) (r c : nat) :
  i < m -> j < m -> r < k -> c < m ->
  entry m (mtranspose m k (mswap_rows m k i j (mtranspose k m b))) r c
  = entry m b r (exchange i j c).
Proof.
  intros Hi Hj Hr Hc. unfold mtranspose at 1. rewrite entry_mbuild by lia.
  unfold mswap_rows. rewrite entry_mbuild by lia.
  unfold mtranspose. unfold exchange.
  repeat case_decide; by rewrite entry_mbuild by lia.
Qed.

Lemma exchanged_twice (k m i j : nat) (b : list float64) :
  length b = k * m -> i < m -> j < m ->
  mtranspose m k (mswap_rows m k i j (mtranspose k m
    (mtranspose m k (mswap_rows m k i j (mtranspose k m b))))) = b.
Proof.
  intros L Hi Hj.
  transitivity (mbuild k m (entry m b)); [|by apply mbuild_entry].
  apply mbuild_eq; [apply mtranspose_length|]. intros r c Hr Hc.
  pose proof (entry_exchanged k m i j
                (mtranspose m k (mswap_rows m k i j (mtranspose k m b))) r c
                Hi Hj Hr Hc) as E.
  rewrite (entry_exchanged k m i j b) in E by (done || by apply exchange_lt).
  rewrite exchange_involutive in E. unfold entry at 1 in E.
  match type of E with
  | default _ (?v !! _) = _ =>
      destruct (lookup_lt_is_Some_2 v (r * m + c)) as [x Hx];
        [rewrite mtranspose_length; nia|]
  end.
  rewrite Hx in E. simpl in E. by rewrite Hx, E.
Qed.

Lemma SwapCols_any (s : state) (B : DenseMatrix) (b : list float64) (i j : nat) :
  repr s B b -> i < cols B -> j < cols B ->
  exists C s', SwapCols B i j s = Ok C s'
    /\ allocated 0 s s' C (rows B) (cols B)
         (mtranspose (cols B) (rows B)
            (mswap_rows (cols B) (rows B) i j (mtranspose (rows B) (cols B) b))).
Proof.
  intros R Hi Hj. unfold SwapCols.
  destruct (Copy_ok s B b R) as (p & s1 & E1 & A1).
  rewrite (bind_ok _ _ _ _ _ E1).
  destruct (Transpose_ok s1 p b (allocated_repr _ _ _ _ _ _ _ A1)) as (t & s2 & E2 & A2).
  rewrite (bind_ok _ _ _ _ _ E2).
  destruct A1 as (R1 & Hr1 & Hc1 & Hb1 & F1). rewrite Hr1, Hc1 in *.
  pose proof A2 as (R2 & Hr2 & Hc2 & Hb2 & F2).
  destruct (SwapRows_ok s2 t _ i j R2) as (s3 & E3 & U3); [lia | lia |].
  rewrite (bind_ok _ _ _ _ _ E3). rewrite Hr2, Hc2 in U3.
  destruct (Transpose_ok s3 t _ (updated_repr _ _ _ _ U3)) as (C & s4 & E4 & A4).
  rewrite (bind_ok _ _ _ _ _ E4). rewrite Hr2, Hc2 in A4.
  exists C, s4. split; [done|].
  assert (frame (length (heap s)) [] 0 s s2) as F12.
  { change 0 with (0 + 0). eapply frame_trans; [exact F1 | exact F2 | |].
    - by eapply frame_length.
    - intros l Hl. by apply elem_of_nil in Hl. }
  assert (frame (length (heap s)) [] 0 s s3) as F13.
  { eapply frame_updated; [exact F12 | | exact U3].
    pose proof (frame_length _ _ _ _ _ F1). lia. }
  change 0 with (0 + 0). by eapply allocated_after.
Qed.

(** A row outside the transposed copy stops [SwapRows], and [SwapCols]
    with it. *)
Lemma SwapCols_outside (s : state) (B : DenseMatrix) (b : list float64) (i j : nat) :
  repr s B b -> 0 < rows B -> cols B <= i \/ cols B <= j ->
  SwapCols B i j s = Panic IndexOutOfRange.
Proof.
  intros R Hr Hout. unfold SwapCols.
  destruct (Copy_ok s B b R) as (p & s1 & E1 & A1).
  rewrite (bind_ok _ _ _ _ _ E1).
  destruct (Transpose_ok s1 p b (allocated_repr _ _ _ _ _ _ _ A1)) as (t & s2 & E2 & A2).
  rewrite (bind_ok _ _ _ _ _ E2).
  destruct A1 as (R1 & Hr1 & Hc1 & Hb1 & F1). rewrite Hr1, Hc1 in *.
  destruct A2 as (R2 & Hr2 & Hc2 & Hb2 & F2).
  unfold mbind at 1, M_bind. unfold SwapRows.
  rewrite decide_False by lia. rewrite decide_False by lia. done.
Qed.

(** X12. For two columns [i] and [j] of the matrix, [SwapCols] returns a
    new matrix of the same shape in which columns [i] and [j] have changed
    places and every other column is as it was; the result has storage of
    its own and the argument is left as it was. *)
Theorem SwapCols_exchanges_columns (s : state) (B : DenseMatrix) (b : list float64)
    (i j : nat) :
  repr s B b -> i < cols B -> j < cols B ->
  exists C s' c, SwapCols B i j s = Ok C s'
    /\ repr s' C c /\ rows C = rows B /\ cols C = cols B
    /\ (forall r q, r < rows B -> q < cols B ->
          entry (cols B) c r q = entry (cols B) b r (exchange i j q))
    /\ length (heap s) <= base (elements C)
    /\ repr s' B b.
Proof.
  intros R Hi Hj. destruct (SwapCols_any s B b i j R Hi Hj) as (C & s' & E & H).
  eexists C, s', _. split; [done|].
  pose proof (repr_allocated _ _ _ _ _ _ _ _ _ R H) as RB.
  destruct H as (RC & Hr & Hc & Hb & _).
  split; [exact RC|]. do 2 (split; [done|]).
  split; [|done]. intros r q Hr' Hq. by apply entry_exchanged.
Qed.

Lemma SwapCols_exchanges_columns_witness :
  exists C s' c, SwapCols unit_B 0 1 unit_state = Ok C s'
    /\ repr s' C c /\ rows C = rows unit_B /\ cols C = cols unit_B
    /\ (forall r q, r < rows unit_B -> q < cols unit_B ->
          entry (cols unit_B) c r q
          = entry (cols unit_B) (floats [1; 2; 3; 4]%Z) r (exchange 0 1 q))
    /\ length (heap unit_state) <= base (elements C)
    /\ repr s' unit_B (floats [1; 2; 3; 4]%Z).
Proof.
  apply (SwapCols_exchanges_columns unit_state unit_B (floats [1; 2; 3; 4]%Z) 0 1);
    (concrete_repr || (simpl; lia)).
Defined.

(** X13. Exchanging the same two columns twice gives back the entries of
    the matrix: [SwapCols] applied to its own result returns a matrix of
    the original shape and entries. *)
Theorem SwapCols_twice (s : state) (B : DenseMatrix) (b : list float64) (i j : nat) :
  repr s B b -> i < cols B -> j < cols B ->
  exists C s1 D s2, SwapCols B i j s = Ok C s1 /\ SwapCols C i j s1 = Ok D s2
    /\ repr s2 D b /\ rows D = rows B /\ cols D = cols B.
Proof.
  intros R Hi Hj. destruct (SwapCols_any s B b i j R Hi Hj) as (C & s1 & E1 & H1).
  destruct H1 as (RC & Hr & Hc & _).
  destruct (SwapCols_any s1 C _ i j RC) as (D & s2 & E2 & H2); [lia | lia |].
  exists C, s1, D, s2. do 2 (split; [done|]).
  destruct H2 as (RD & Hr2 & Hc2 & _). rewrite Hr, Hc in *.
  split; [|done].
  rewrite exchanged_twice in RD; [done | by eapply repr_length | done | done].
Qed.

Lemma SwapCols_twice_witness :
  exists C s1 D s2, SwapCols unit_B 0 1 unit_state = Ok C s1 /\ SwapCols C 0 1 s1 = Ok D s2
    /\ repr s2 D (floats [1; 2; 3; 4]%Z) /\ rows D = rows unit_B /\ cols D = cols unit_B.
Proof.
  apply (SwapCols_twice unit_state unit_B (floats [1; 2; 3; 4]%Z) 0 1);
    (concrete_repr || (simpl; lia)).
Defined.

(** X14. [SwapCols] on a matrix with at least one row, called with a
    column index that the matrix does not have, ends in an index out of
    range. *)
Theorem SwapCols_out_of_range (s : state) (B : DenseMatrix) (b : list float64) (i j : nat) :
  repr s B b -> 0 < rows B -> cols B <= i \/ cols B <= j ->
  SwapCols B i j s = Panic IndexOutOfRange.
Proof. apply SwapCols_outside. Qed.

Lemma SwapCols_out_of_range_witness :
  SwapCols unit_B 0 2 unit_state = Panic IndexOutOfRange.
Proof.
  apply (SwapCols_out_of_range unit_state unit_B (floats [1; 2; 3; 4]%Z) 0 2);
    [concrete_repr | simpl; lia | right; simpl; lia].
Defined.

(** ** [MatrixSolver] *)

Section SolverEdges.

Variable solve : nat -> nat -> list float64 -> list float64 -> nat -> float64.

(** [MatrixSolver] with fewer right-hand side columns than [mat] has
    columns: the loop reaches a column that [outcome] does not have, and
    [SwapCols] stops there. *)
Lemma MatrixSolver_short (s : state) (A B : DenseMatrix) (a b : list float64) :
  repr s A a -> repr s B b ->
  rows A = cols A -> rows B = rows A -> 0 < cols B -> cols B < cols A ->
  MatrixSolver solve A B s = Panic IndexOutOfRange.
Proof.
  intros RA RB Esq Er H0 Hk. unfold MatrixSolver.
  set (f := fun i j => solve (rows A) (cols A) a (column (rows B) (cols B) b i) j).
  set (s1 := set_heap (heap s ++ [replicate 0 F64.zero]) s).
  assert (make 0 s = Ok (Slice (length (heap s)) 0) s1) as E0 by done.
  rewrite (bind_ok _ _ _ _ _ E0).
  assert (frame (length (heap s)) [] 0 s s1) as F01 by apply frame_alloc.
  assert (holds s1 (Slice (length (heap s)) 0) []) as H1 by apply (holds_fresh s []).
  assert (forall (W : DenseMatrix) (w : list float64), repr s W w -> repr s1 W w) as T1.
  { intros W w R. eapply repr_frame; [done | exact F01 | by eapply repr_bound |].
    apply not_elem_of_nil. }
  destruct (solve_and_append solve s1 A B a b [] _ (T1 _ _ RA) (T1 _ _ RB) H1 Esq Er)
    as (r1 & s2 & E2 & H2 & B2 & F2); [lia|].
  assert (forall {T} (k : slice -> M T),
    ('(firstRow, _) ← SolveDense solve A B; firstRow ← deref firstRow;
     a ← Array firstRow; rows ← append (Slice (length (heap s)) 0) a; k rows) s1
    = k r1 s2) as Hfirst.
  { intros T k. revert E2. unfold mbind, M_bind.
    destruct (SolveDense solve A B s1) as [[v e] s'|]; [|done]. simpl.
    destruct (deref v s') as [v' s''|]; [|done].
    destruct (Array v' s'') as [a' s3|]; [|done].
    by intros ->. }
  rewrite Hfirst. clear Hfirst.
  assert (frame (length (heap s)) [] 1 s s2) as F02.
  { change 1 with (0 + 1). eapply frame_trans; [exact F01 | exact F2 | |].
    - by eapply frame_length.
    - intros l Hl. by apply elem_of_nil in Hl. }
  pose (I := fun (i : nat) (rows_ : slice) (si : state) =>
    holds si rows_ (mbuild i (cols A) f)
    /\ length (heap s) <= base rows_
    /\ frame (length (heap s)) [] i s si).
  assert (forall i rows_ si, I i rows_ si ->
            exists mt sa, Copy A si = Ok mt sa /\ allocated 0 si sa mt (rows A) (cols A) a
              /\ repr sa B b) as Hcopy.
  { intros i rows_ si (Hh & Hb & Fi).
    assert (forall (W : DenseMatrix) (w : list float64), repr s W w -> repr si W w) as Ti.
    { intros W w R. eapply repr_frame; [done | exact Fi | by eapply repr_bound |].
      apply not_elem_of_nil. }
    destruct (Copy_ok si A a (Ti _ _ RA)) as (mt & sa & Ea & Aa).
    exists mt, sa. do 2 (split; [done|]).
    eapply repr_allocated; [apply (Ti _ _ RB) | exact Aa]. }
  apply bind_panic. unfold for_loop, Cols.
  apply (for_range_panic I) with (stop := cols B).
  - unfold I. split; [|split; [|done]].
    + change 1 with (S 0). rewrite mbuild_snoc. exact H2.
    + pose proof (frame_length _ _ _ _ _ F01). lia.
  - lia.
  - intros i rows_ si Hi HI.
    destruct (Hcopy i rows_ si HI) as (mt & sa & Ea & Aa & RBa).
    destruct HI as (Hh & Hb & Fi).
    rewrite (bind_ok _ _ _ _ _ Ea).
    destruct (SwapCols_ok sa B b i RBa) as (sw & sb & Eb & Ab); [lia|].
    rewrite (bind_ok _ _ _ _ _ Eb).
    pose proof Aa as (Ra & Hra & Hca & Hba & Fa).
    pose proof Ab as (Rb & Hrb & Hcb & Hbb & Fb).
    assert (repr sb mt a) as Rab by (eapply repr_allocated; [exact Ra | exact Ab]).
    assert (holds sb rows_ (mbuild i (cols A) f)) as Hhb.
    { eapply holds_allocated; [|exact Ab]. eapply holds_allocated; [exact Hh | exact Aa]. }
    destruct (solve_and_append solve sb mt sw a _ _ rows_ Rab Rb Hhb)
      as (r' & sc & Ec & Hc & Bc & Fc); [congruence | congruence | lia |].
    rewrite Hra, Hca, Hrb, Hcb in *.
    exists r', sc. split; [exact Ec|]. unfold I.
    pose proof (frame_length _ _ _ _ _ Fi). pose proof (frame_length _ _ _ _ _ Fa).
    pose proof (frame_length _ _ _ _ _ Fb).
    split; [|split; [lia|]].
    + rewrite mbuild_snoc. unfold f at 2.
      by rewrite column_swapped_cols in Hc by lia.
    + replace (S i) with (i + 0 + 0 + 1) by lia.
      eapply frame_trans; [| exact Fc | lia | intros l Hl; by apply elem_of_nil in Hl].
      eapply frame_trans; [| exact Fb | lia | intros l Hl; by apply elem_of_nil in Hl].
      eapply frame_trans; [exact Fi | exact Fa | lia |
                           intros l Hl; by apply elem_of_nil in Hl].
  - intros rows_ si HI.
    destruct (Hcopy _ rows_ si HI) as (mt & sa & Ea & Aa & RBa).
    rewrite (bind_ok _ _ _ _ _ Ea).
    apply bind_panic. apply (SwapCols_outside sa B b 0 (cols B) RBa); [lia | right; lia].
Qed.

(** The first half-step of an iteration of [ALS] with more factors than
    [Q] has rows: the right-hand side [Y·Qᵗ] has fewer columns than
    [Y·Yᵗ + λI]. *)
Lemma ALS_iteration_short (s : state) (Q X Y : DenseMatrix) (q y : list float64)
    (k : nat) :
  repr s Q q -> repr s Y y -> rows Y = k -> cols Y = cols Q ->
  0 < rows Q -> rows Q < k ->
  ALS_iteration solve Q k (X, Y) s = Panic IndexOutOfRange.
Proof.
  intros RQ RY HrY HcY H0 Hk. unfold ALS_iteration.
  pose proof (repr_bound _ _ _ RQ) as BQ. pose proof (repr_bound _ _ _ RY) as BY.
  pose proof (frame_refl (length (heap s)) [] s) as F.
  run_alloc (Eye_ok s k) as I s1 HI.
  pose proof HI as (RI & HrI & HcI & _).
  run_update (Scale_ok s1 I _ lambda RI) as s2 HI2.
  pose proof HI2 as (RI2 & _). clear RI.
  run_alloc (Transpose_ok s2 Y y RY) as Yt s3 HYt.
  pose proof HYt as (RYt & HrYt & HcYt & _).
  run_alloc (TimesDense_ok s3 Y Yt _ _ RY RYt ltac:(lia)) as Yd s4 HYd.
  simpl. rewrite (bind_ok _ _ _ _ _ (ret_ok tt s4)).
  pose proof HYd as (RYd & HrYd & HcYd & _).
  run_update (AddDense_ok s4 Yd I _ _ RYd RI2 ltac:(lia) ltac:(lia)) as s5 HYd2.
  pose proof HYd2 as (RA & _). clear RYd.
  run_alloc (Transpose_ok s5 Q q RQ) as Qt s6 HQt.
  pose proof HQt as (RQt & HrQt & HcQt & _).
  run_alloc (TimesDense_ok s6 Y Qt _ _ RY RQt ltac:(lia)) as Xs s7 HXs.
  simpl.
  pose proof HXs as (RXs & HrXs & HcXs & _).
  apply bind_panic.
  apply (MatrixSolver_short s7 Yd Xs _ _ RA RXs); lia.
Qed.

Lemma ALS_short (s : state) (Q : DenseMatrix) (q : list float64) (k : nat) (T : Z) :
  repr s Q q -> 0 < rows Q -> rows Q < k -> (0 < T)%Z ->
  ALS solve Q T k s = Panic IndexOutOfRange.
Proof.
  intros RQ H0 Hk HT. unfold ALS.
  destruct (MakeXY_ok s Q k)
    as (X & Y & s1 & E1 & RX & RY & HrX & HcX & HrY & HcY & BX & BY & P1 & O1 & S1).
  rewrite (bind_ok _ _ _ _ _ E1).
  assert (repr s1 Q q) as RQ1 by (by eapply repr_prefix).
  destruct (MakeWeightMatrix_ok s1 Q q RQ1) as (W & s2 & E2 & HW).
  rewrite (bind_ok _ _ _ _ _ E2).
  pose proof (repr_allocated _ _ _ _ _ _ _ _ _ RY HW) as RY2.
  pose proof (repr_allocated _ _ _ _ _ _ _ _ _ RQ1 HW) as RQ2.
  apply bind_panic. unfold ALS_loop, for_loop. rewrite Nat.sub_0_r.
  apply (for_range_panic (fun _ XY si => XY = (X, Y) /\ si = s2)) with (stop := 0).
  - done.
  - lia.
  - intros i a s' Hi. lia.
  - intros a s' [-> ->]. by eapply ALS_iteration_short.
Qed.

End SolverEdges.

(** X15. For a [k] by [k] system matrix and a right-hand side with at
    least [k] columns, [MatrixSolver] returns a [k] by [k] matrix whose row
    [i] is the computed solution for column [i] of the right-hand side, for
    [i < k] only: the columns from [k] on are not solved for. It asks for
    [k] solves and leaves both arguments as they were. *)
Theorem MatrixSolver_first_columns
    (solve : nat -> nat -> list float64 -> list float64 -> nat -> float64)
    (s : state) (A B : DenseMatrix) (a b : list float64) (k : nat) :
  repr s A a -> repr s B b ->
  rows A = k -> cols A = k -> rows B = k -> k <= cols B -> 0 < k ->
  exists C s' c, MatrixSolver solve A B s = Ok C s'
    /\ repr s' C c /\ rows C = k /\ cols C = k
    /\ (forall i j, i < k -> j < k ->
          entry k c i j = solve k k a (column k (cols B) b i) j)
    /\ solves s' = solves s + k
    /\ repr s' A a /\ repr s' B b.
Proof.
  intros RA RB H1 H2 H3 H4 Hk.
  destruct (MatrixSolver_ok solve s A B a b RA RB) as (C & s' & E & H); try lia.
  eexists C, s', _. split; [done|].
  pose proof (repr_allocated _ _ _ _ _ _ _ _ _ RA H) as RA'.
  pose proof (repr_allocated _ _ _ _ _ _ _ _ _ RB H) as RB'.
  destruct H as (RC & Hr & Hc & _ & F). rewrite H1, H2, H3 in *.
  split; [exact RC|]. do 2 (split; [done|]).
  split; [intros i j Hi Hj; by rewrite entry_mbuild|].
  split; [|done]. by destruct F as (_ & _ & _ & _ & _ & F).
Qed.

Lemma MatrixSolver_first_columns_witness :
  exists C s' c, MatrixSolver LU.lu_solve wide_A wide_B wide_state = Ok C s'
    /\ repr s' C c /\ rows C = 1 /\ cols C = 1
    /\ (forall i j, i < 1 -> j < 1 ->
          entry 1 c i j
          = LU.lu_solve 1 1 (floats [1]%Z) (column 1 (cols wide_B) (floats [1; 2]%Z) i) j)
    /\ solves s' = solves wide_state + 1
    /\ repr s' wide_A (floats [1]%Z) /\ repr s' wide_B (floats [1; 2]%Z).
Proof.
  apply (MatrixSolver_first_columns LU.lu_solve wide_state wide_A wide_B);
    (concrete_repr || (simpl; lia)).
Defined.

(** X16. For a square system matrix and a right-hand side with at least
    one column but fewer columns than the system matrix, [MatrixSolver]
    ends in an index out of range: its loop runs over the columns of the
    system matrix. *)
Theorem MatrixSolver_too_few_columns
    (solve : nat -> nat -> list float64 -> list float64 -> nat -> float64)
    (s : state) (A B : DenseMatrix) (a b : list float64) :
  repr s A a -> repr s B b ->
  rows A = cols A -> rows B = rows A -> 0 < cols B -> cols B < cols A ->
  MatrixSolver solve A B s = Panic IndexOutOfRange.
Proof. apply MatrixSolver_short. Qed.

Lemma MatrixSolver_too_few_columns_witness :
  MatrixSolver LU.lu_solve narrow_A narrow_B narrow_state = Panic IndexOutOfRange.
Proof.
  apply (MatrixSolver_too_few_columns LU.lu_solve narrow_state narrow_A narrow_B
           (floats [1; 0; 0; 1]%Z) (floats [1; 2]%Z));
    (concrete_repr || (simpl; lia)).
Defined.

(** ** [MakeXY] and [MakeWeightMatrix] *)

Lemma MakeXY_run (s : state) (Q : DenseMatrix) (k : nat) :
  exists X Y s', MakeXY Q k s = Ok (X, Y) s'
    /\ repr s' X (draws s (rows Q * k))
    /\ repr s' Y (draws (after_draws s (rows Q * k)) (cols Q * k))
    /\ rows X = rows Q /\ cols X = k /\ rows Y = k /\ cols Y = cols Q
    /\ separate X Y
    /\ drawn s' = drawn s + rows Q * k + cols Q * k
    /\ stdout s' = stdout s.
Proof.
  unfold MakeXY, Rows, Cols, make.
  set (nx := rows Q * k). set (ny := cols Q * k).
  set (lx := length (heap s)).
  set (h2 := (heap s ++ [replicate nx F64.zero]) ++ [replicate ny F64.zero]).
  assert (alloc (replicate nx F64.zero) s
          = Ok (Slice lx (length (replicate nx F64.zero)))
               (set_heap (heap s ++ [replicate nx F64.zero]) s)) as E1 by done.
  rewrite (bind_ok _ _ _ _ _ E1).
  assert (alloc (replicate ny F64.zero) (set_heap (heap s ++ [replicate nx F64.zero]) s)
          = Ok (Slice (S lx) (length (replicate ny F64.zero))) (set_heap h2 s)) as E2.
  { unfold alloc. simpl. rewrite length_app. simpl.
    replace (length (heap s) + 1) with (S lx) by (unfold lx; lia). done. }
  rewrite (bind_ok _ _ _ _ _ E2).
  rewrite !length_replicate.
  assert (h2 !! lx = Some (replicate nx F64.zero)) as Hx.
  { unfold h2. rewrite lookup_app_l by (rewrite length_app; simpl; lia).
    rewrite lookup_app_r by lia. by rewrite Nat.sub_diag. }
  rewrite (bind_ok _ _ _ _ _ (draw_loop s (Slice lx nx) h2 nx Hx eq_refl)).
  simpl base.
  assert (<[lx := draws s nx]> h2 !! S lx = Some (replicate ny F64.zero)) as Hy.
  { rewrite list_lookup_insert_ne by lia. unfold h2.
    rewrite lookup_app_r by (rewrite length_app; simpl; lia).
    rewrite length_app. simpl. by replace (S lx - (length (heap s) + 1)) with 0 by lia. }
  rewrite (bind_ok _ _ _ _ _
             (draw_loop (after_draws s nx) (Slice (S lx) ny) _ ny Hy eq_refl)).
  eexists _, _, _. split; [reflexivity|]. simpl.
  assert (length h2 = S (S lx)) as Lh by (unfold h2; rewrite !length_app; simpl; lia).
  split; [|split]; [| |repeat split; try done; try (unfold separate; simpl; lia)].
  - split; [done|]. split; [done|]. split; simpl.
    + rewrite list_lookup_insert_ne by lia.
      apply list_lookup_insert_eq. lia.
    + unfold draws. by rewrite length_fmap, length_seq.
  - split; [done|]. split; [simpl; unfold ny; lia|]. split; simpl.
    + apply list_lookup_insert_eq. rewrite length_insert. lia.
    + unfold draws. by rewrite length_fmap, length_seq.
Qed.

Lemma draws_lookup (s : state) (n i : nat) :
  i < n -> draws s n !! i = Some (F64.mul F64.five (rand s (drawn s + i))).
Proof. intros Hi. unfold draws. by rewrite list_lookup_fmap, lookup_seq_lt. Qed.

(** X17. For a matrix of [r] rows and [c] columns and [k] factors,
    [MakeXY] returns an [r] by [k] matrix [X] and a [k] by [c] matrix [Y]
    stored apart; it takes [r·k + c·k] numbers from the random source, the
    first [r·k] for the entries of [X] in row-major order and the next
    [c·k] for those of [Y], each multiplied by [5]; it prints nothing. *)
Theorem MakeXY_factors (s : state) (Q : DenseMatrix) (k : nat) :
  exists X Y s' x y, MakeXY Q k s = Ok (X, Y) s'
    /\ repr s' X x /\ repr s' Y y
    /\ rows X = rows Q /\ cols X = k /\ rows Y = k /\ cols Y = cols Q
    /\ (forall i, i < rows Q * k ->
          x !! i = Some (F64.mul F64.five (rand s (drawn s + i))))
    /\ (forall j, j < cols Q * k ->
          y !! j = Some (F64.mul F64.five (rand s (drawn s + rows Q * k + j))))
    /\ separate X Y
    /\ drawn s' = drawn s + rows Q * k + cols Q * k
    /\ stdout s' = stdout s.
Proof.
  destruct (MakeXY_run s Q k) as (X & Y & s' & E & RX & RY & H).
  eexists X, Y, s', _, _. split; [done|]. split; [exact RX|]. split; [exact RY|].
  destruct H as (H1 & H2 & H3 & H4 & H5 & H6 & H7). do 4 (split; [done|]).
  split; [intros i Hi; by apply draws_lookup|].
  split; [|done]. intros j Hj. rewrite draws_lookup by done. simpl. done.
Qed.

Lemma mask_mask (q : list float64) : mask (mask q) = mask q.
Proof.
  unfold mask. rewrite <- list_fmap_compose. apply list_fmap_ext.
  intros i x _. simpl. by destruct (is_missing x).
Qed.

(** X18. The mask of a mask is the mask: [MakeWeightMatrix] applied to
    its own result returns a matrix with the same shape and entries. *)
Theorem MakeWeightMatrix_idempotent (s : state) (Q : DenseMatrix) (q : list float64) :
  repr s Q q ->
  exists W s1 W' s2 w, MakeWeightMatrix Q s = Ok W s1 /\ MakeWeightMatrix W s1 = Ok W' s2
    /\ repr s2 W w /\ repr s2 W' w
    /\ rows W' = rows Q /\ cols W' = cols Q.
Proof.
  intros R. destruct (MakeWeightMatrix_ok s Q q R) as (W & s1 & E1 & H1).
  destruct H1 as (RW & Hr & Hc & _).
  destruct (MakeWeightMatrix_ok s1 W _ RW) as (W' & s2 & E2 & H2).
  exists W, s1, W', s2, (mask q). do 2 (split; [done|]).
  pose proof (repr_allocated _ _ _ _ _ _ _ _ _ RW H2) as RW2.
  destruct H2 as (RW' & Hr' & Hc' & _). rewrite mask_mask in RW'.
  split; [done|]. split; [done|]. lia.
Qed.

Lemma MakeWeightMatrix_idempotent_witness :
  exists W s1 W' s2 w, MakeWeightMatrix sparse_Q sparse_state = Ok W s1
    /\ MakeWeightMatrix W s1 = Ok W' s2
    /\ repr s2 W w /\ repr s2 W' w
    /\ rows W' = rows sparse_Q /\ cols W' = cols sparse_Q.
Proof.
  apply (MakeWeightMatrix_idempotent sparse_state sparse_Q
           [F64.of_Z 5; S754_zero true; S754_nan; F64.of_Z 3]).
  concrete_repr.
Defined.

(** ** [ALS] *)

(** X19. A negative iteration budget is a budget of zero: [ALS] returns
    what it returns for [0] iterations, a matrix of the shape of [Q], and
    asks for no linear solve. *)
Theorem ALS_nonpositive_budget
    (solve : nat -> nat -> list float64 -> list float64 -> nat -> float64)
    (s : state) (Q : DenseMatrix) (q : list float64) (k : nat) (T : Z) :
  repr s Q q -> (T <= 0)%Z ->
  exists Q_hat s', ALS solve Q T k s = Ok Q_hat s'
    /\ ALS solve Q 0 k s = Ok Q_hat s'
    /\ rows Q_hat = rows Q /\ cols Q_hat = cols Q
    /\ solves s' = solves s.
Proof.
  intros RQ HT. destruct (ALS_zero solve s Q q k RQ) as (Q_hat & s' & E & _ & H).
  exists Q_hat, s'. split; [|done].
  rewrite <- E. unfold ALS, ALS_loop. by replace (Z.to_nat T) with (Z.to_nat 0) by lia.
Qed.

Lemma ALS_nonpositive_budget_witness :
  exists Q_hat s', ALS LU.lu_solve fit_Q (-1) 2 fit_state = Ok Q_hat s'
    /\ ALS LU.lu_solve fit_Q 0 2 fit_state = Ok Q_hat s'
    /\ rows Q_hat = rows fit_Q /\ cols Q_hat = cols fit_Q
    /\ solves s' = solves fit_state.
Proof.
  apply (ALS_nonpositive_budget LU.lu_solve fit_state fit_Q fit_ratings 2 (-1));
    [concrete_repr | lia].
Defined.

(** X20. With at least one iteration to run and more factors than [Q]
    has rows ([Q] having at least one), [ALS] ends in an index out of
    range during its first iteration, whatever the random draws and the
    solve of the package. *)
Theorem ALS_too_many_factors
    (solve : nat -> nat -> list float64 -> list float64 -> nat -> float64)
    (s : state) (Q : DenseMatrix) (q : list float64) (k : nat) (T : Z) :
  repr s Q q -> 0 < rows Q -> rows Q < k -> (0 < T)%Z ->
  ALS solve Q T k s = Panic IndexOutOfRange.
Proof. apply ALS_short. Qed.

Lemma ALS_too_many_factors_witness :
  ALS LU.lu_solve tiny_Q 1 2 tiny_state = Panic IndexOutOfRange.
Proof.
  apply (ALS_too_many_factors LU.lu_solve tiny_state tiny_Q (floats [5]%Z) 2 1);
    (concrete_repr || (simpl; lia) || lia).
Defined.

(** ** [DotProduct], [NormSquared] and [CosineSim] *)

Module SimilarityFacts.

Import Similarity.

Lemma mul_comm (x y : float64) : F64.mul x y = F64.mul y x.
Proof.
  unfold F64.mul, SFmul.
  destruct x as [sx|sx| |sx mx ex], y as [sy|sy| |sy my ey]; try done;
    rewrite (xorb_comm sx sy); try done.
  by rewrite (Pos.mul_comm mx my), (Z.add_comm ex ey).
Qed.

(** The loops over the indices are folds over the elements. *)
Lemma index_loop (f : float64 -> float64 -> float64) (a b pre pre' : list float64)
    (acc : float64) :
  length a = length b -> length pre = length pre' ->
  fold_left (fun prod i => F64.add prod (f (at_index (pre ++ a) i) (at_index (pre' ++ b) i)))
            (seq (length pre) (length a)) acc
  = fold_left F64.add (zip_with f a b) acc.
Proof.
  revert b pre pre' acc. induction a as [|x a IH]; intros [|y b] pre pre' acc L L'; try done.
  simpl.
  assert (at_index (pre ++ x :: a) (length pre) = x) as ->.
  { unfold at_index. by rewrite list_lookup_middle. }
  assert (at_index (pre' ++ y :: b) (length pre) = y) as ->.
  { unfold at_index. by rewrite list_lookup_middle. }
  specialize (IH b (pre ++ [x]) (pre' ++ [y]) (F64.add acc (f x y))).
  rewrite <- !app_assoc in IH. simpl in IH.
  replace (length (pre ++ [x])) with (S (length pre)) in IH
    by (rewrite length_app; simpl; lia).
  apply IH; [simpl in L; lia | rewrite !length_app; simpl; lia].
Qed.

Lemma DotProduct_value (a b : list float64) :
  length a = length b ->
  DotProduct a b = (fold_left F64.add (zip_with F64.mul a b) F64.one, None).
Proof.
  intros L. unfold DotProduct. rewrite decide_False by (intros N; by apply N).
  f_equal. by apply (index_loop F64.mul a b [] []).
Qed.

Lemma DotProduct_error (a b : list float64) :
  length a ≠ length b -> DotProduct a b = (F64.zero, Some CannotDotDifferentLength).
Proof. intros L. unfold DotProduct. by rewrite decide_True. Qed.

Lemma NormSquared_value (a : list float64) :
  NormSquared a = fold_left F64.add (zip_with F64.mul a a) F64.one.
Proof. unfold NormSquared. by apply (index_loop F64.mul a a [] []). Qed.

Lemma zip_with_mul_comm (a b : list float64) :
  zip_with F64.mul a b = zip_with F64.mul b a.
Proof.
  revert b. induction a as [|x a IH]; intros [|y b]; try done.
  simpl. by rewrite mul_comm, IH.
Qed.

Lemma DotProduct_comm (a b : list float64) : DotProduct a b = DotProduct b a.
Proof.
  destruct (decide (length a = length b)) as [L|L].
  - rewrite !DotProduct_value by done. by rewrite zip_with_mul_comm.
  - rewrite !DotProduct_error by (done || by intros N; apply L). done.
Qed.

Lemma one_plus_zero_product (x y : float64) :
  is_zero x -> is_zero y -> F64.add F64.one (F64.mul x y) = F64.one.
Proof. by intros [-> | ->] [-> | ->]. Qed.

Lemma sum_zero_products (a b : list float64) :
  Forall is_zero a -> Forall is_zero b ->
  fold_left F64.add (zip_with F64.mul a b) F64.one = F64.one.
Proof.
  intros Ha. revert b. induction Ha as [|x a Hx Ha IH]; intros b Hb; [done|].
  destruct Hb as [|y b Hy Hb]; [done|]. cbn [zip_with fold_left].
  rewrite one_plus_zero_product by done. by apply IH.
Qed.

End SimilarityFacts.

Import Similarity.

(** X21. [DotProduct] returns an error exactly when the two slices differ
    in length, and the value [0] with it; for slices of one length it
    returns no error and the sum of the products [a[i]*b[i]] added, in the
    order of the indices, to [1]. *)
Theorem DotProduct_by_length (a b : list float64) :
  DotProduct a b
  = if decide (length a = length b)
    then (fold_left F64.add (zip_with F64.mul a b) F64.one, None)
    else (F64.zero, Some CannotDotDifferentLength).
Proof.
  case_decide.
  - by apply SimilarityFacts.DotProduct_value.
  - by apply SimilarityFacts.DotProduct_error.
Qed.

(** X22. [DotProduct] is symmetric in its arguments, value and error. *)
Theorem DotProduct_symmetric (a b : list float64) : DotProduct a b = DotProduct b a.
Proof. apply SimilarityFacts.DotProduct_comm. Qed.

(** X23. [NormSquared] of a slice is [DotProduct] of the slice with
    itself, which reports no error. *)
Theorem NormSquared_as_DotProduct (a : list float64) :
  DotProduct a a = (NormSquared a, None).
Proof.
  rewrite SimilarityFacts.DotProduct_value by done.
  by rewrite SimilarityFacts.NormSquared_value.
Qed.

(** X24. On slices of zeros of one length, whatever the length,
    [DotProduct] and [NormSquared] return [1] and [CosineSim] returns [1]
    and prints nothing: the sums start from [1]. *)
Theorem similarity_of_zero_vectors (a b : list float64) :
  Forall is_zero a -> Forall is_zero b -> length a = length b ->
  DotProduct a b = (F64.one, None) /\ NormSquared a = F64.one
  /\ CosineSim a b = (F64.one, []).
Proof.
  intros Ha Hb L.
  assert (DotProduct a b = (F64.one, None)) as Ed.
  { rewrite SimilarityFacts.DotProduct_value by done.
    by rewrite SimilarityFacts.sum_zero_products. }
  assert (forall v, Forall is_zero v -> NormSquared v = F64.one) as En.
  { intros v Hv. rewrite SimilarityFacts.NormSquared_value.
    by apply SimilarityFacts.sum_zero_products. }
  split; [done|]. split; [by apply En|].
  unfold CosineSim. rewrite Ed. by rewrite !En.
Qed.

Lemma similarity_of_zero_vectors_witness :
  DotProduct [S754_zero false; S754_zero true] [S754_zero true; S754_zero true]
  = (F64.one, None)
  /\ NormSquared [S754_zero false; S754_zero true] = F64.one
  /\ CosineSim [S754_zero false; S754_zero true] [S754_zero true; S754_zero true]
     = (F64.one, []).
Proof.
  apply (similarity_of_zero_vectors [S754_zero false; S754_zero true]
           [S754_zero true; S754_zero true]);
    [repeat constructor; (by left) || (by right)
    |repeat constructor; (by left) || (by right)
    |reflexivity].
Defined.

(** X25. [CosineSim] is symmetric in its arguments, in the value it
    returns and in what it prints. *)
Theorem CosineSim_symmetric (a b : list float64) : CosineSim a b = CosineSim b a.
Proof.
  unfold CosineSim. rewrite (SimilarityFacts.DotProduct_comm a b).
  destruct (DotProduct b a) as [dp err].
  by rewrite (SimilarityFacts.mul_comm (NormSquared a) (NormSquared b)).
Qed.

(** X26. For slices of different lengths [CosineSim] prints the error of
    [DotProduct] once and goes on: it returns [0] divided by the product
    of the two [NormSquared] values. *)
Theorem CosineSim_different_lengths (a b : list float64) :
  length a ≠ length b ->
  CosineSim a b
  = (F64.div F64.zero (F64.mul (NormSquared a) (NormSquared b)),
     [CannotDotDifferentLength]).
Proof.
  intros L. unfold CosineSim. by rewrite SimilarityFacts.DotProduct_error.
Qed.

Lemma CosineSim_different_lengths_witness :
  CosineSim (floats [1; 2]%Z) (floats [3]%Z)
  = (F64.div F64.zero (F64.mul (NormSquared (floats [1; 2]%Z)) (NormSquared (floats [3]%Z))),
     [CannotDotDifferentLength]).
Proof.
  apply (CosineSim_different_lengths (floats [1; 2]%Z) (floats [3]%Z)). simpl. lia.
Defined.

(** X27. [CosineSim] of a slice with itself is [n / (n * n)] for
    [n = NormSquared a], and nothing is printed. *)
Theorem CosineSim_of_a_vector_and_itself (a : list float64) :
  CosineSim a a
  = (F64.div (NormSquared a) (F64.mul (NormSquared a) (NormSquared a)), []).
Proof.
  unfold CosineSim.
  assert (DotProduct a a = (NormSquared a, None)) as ->; [|done].
  rewrite SimilarityFacts.DotProduct_value by done.
  by rewrite SimilarityFacts.NormSquared_value.
Qed.

(** For the one-element slice [[1]] this is one half. *)
Lemma CosineSim_example :
  CosineSim (floats [1]%Z) (floats [1]%Z) = (F64.div F64.one (F64.of_Z 2), []).
Proof. by vm_compute. Qed.
